(** * WTF server: the transcription pipeline of vcon-dev/wtf-server

    A shallow embedding of the TypeScript sources:
    - [src/services/vcon-enricher.ts]  (enrichment engine),
    - [src/services/vcon-parser.ts], [src/schemas/vcon.schema.ts],
      [src/utils/audio.ts], [src/services/audio-extractor.ts],
    - [src/providers/base.ts], [src/providers/nvidia.ts],
      [src/providers/groq.ts], [src/providers/index.ts],
    - [src/services/transcription.ts], [src/routes/transcribe.ts].

    Conventions.
    - A JavaScript [number] that carries a measurement (time, confidence) is
      an IEEE-754 binary64 value: Rocq's primitive [float], so arithmetic and
      comparisons round and treat NaN exactly as the program does.  Array
      positions, identifiers and counters are [nat].
    - A JavaScript string is a [string] (a sequence of 8-bit code units).
    - An optional property ([x?: T], or a property holding [undefined]) is an
      [option]; JSON serialisation does not tell the two apart.
    - A promise that may reject, or a call that may throw, is an [Outcome];
      the calls that reach outside the process are recorded in a trace of
      [Event]s.
    - What the process reads from its surroundings (clock, configuration,
      network, the zod and Buffer libraries) is gathered in [Env].
    - The orchestrator is the multi-provider one (it resolves the provider
      with [getProvider]).  Calls of the logger are left out. *)

From Stdlib Require Import PrimFloat SpecFloat FloatOps FloatAxioms Uint63 ZArith.
From Stdlib Require Import Ascii String List.
From Stdlib Require Import Lia Sorted.
From stdpp Require Import gmap strings list pretty.

Set Warnings "-inexact-float,-clear-no-such-hyp".
Set Default Proof Using "Type".

(* ================================================================== *)
(** * JavaScript primitives used by the sources *)
(* ================================================================== *)

Module Js.

(** [Number(n)] for an array length or counter. *)
Definition of_nat (n : nat) : float :=
  PrimFloat.of_uint63 (Uint63.of_Z (Z.of_nat n)).

(** ToBoolean on a number: false exactly for [+0], [-0] and [NaN]. *)
Definition truthy_number (x : float) : bool :=
  negb (PrimFloat.eqb x 0%float || PrimFloat.is_nan x).

(** ToBoolean on a string: false exactly for the empty string. *)
Definition truthy_string (s : string) : bool :=
  match s with
  | EmptyString => false
  | String _ _ => true
  end.

(** ToBoolean on an optional string ([undefined] is falsy). *)
Definition truthy_opt_string (o : option string) : bool :=
  match o with
  | None => false
  | Some s => truthy_string s
  end.

(** [a >= b], [a <= b], [a > b], [a < b] on numbers. *)
Definition ge (a b : float) : bool := PrimFloat.leb b a.
Definition le (a b : float) : bool := PrimFloat.leb a b.
Definition gt (a b : float) : bool := PrimFloat.ltb b a.
Definition lt (a b : float) : bool := PrimFloat.ltb a b.

(** [Math.min(a, b)]: NaN if either argument is NaN. *)
Definition Math_min (a b : float) : float :=
  if PrimFloat.is_nan a || PrimFloat.is_nan b then PrimFloat.nan
  else if PrimFloat.ltb b a then b else a.

(** The value of [parseInt(s, 10)]: an integer or NaN.  Exact for results
    of magnitude below 2^53 (larger digit strings round in JavaScript). *)
Inductive Int : Type :=
| NaN
| IntVal (z : Z).

Definition is_digit (c : ascii) : bool :=
  (48 <=? nat_of_ascii c)%nat && (nat_of_ascii c <=? 57)%nat.

Definition digit_value (c : ascii) : Z := Z.of_nat (nat_of_ascii c - 48).

(** The members of StrWhiteSpaceChar among the code units below 256: TAB,
    LF, VT, FF, CR, SP and NBSP. *)
Definition is_space (c : ascii) : bool :=
  let n := nat_of_ascii c in
  ((9 <=? n)%nat && (n <=? 13)%nat) || (n =? 32)%nat || (n =? 160)%nat.

Fixpoint skip_space (s : string) : string :=
  match s with
  | String c s' => if is_space c then skip_space s' else s
  | EmptyString => EmptyString
  end.

(** Longest prefix of decimal digits, read most significant first. *)
Fixpoint digits_prefix (s : string) (acc : option Z) : option Z :=
  match s with
  | String c s' =>
      if is_digit c
      then digits_prefix s' (Some (10 * default 0%Z acc + digit_value c)%Z)
      else acc
  | EmptyString => acc
  end.

Definition parseInt10 (s : string) : Int :=
  let s := skip_space s in
  let '(negative, body) :=
    match s with
    | String "-"%char r => (true, r)
    | String "+"%char r => (false, r)
    | _ => (false, s)
    end in
  match digits_prefix body None with
  | None => NaN
  | Some z => IntVal (if negative then - z else z)%Z
  end.

(** [String(n)] for such a value (magnitude below 10^21). *)
Definition String_of_Int (n : Int) : string :=
  match n with
  | NaN => "NaN"
  | IntVal z => pretty z
  end.

(** [s.includes(t)]. *)
Fixpoint includes (t s : string) : bool :=
  String.prefix t s ||
  match s with
  | EmptyString => false
  | String _ s' => includes t s'
  end.

(** [s.trim()], over the ASCII white space. *)
Fixpoint trim_end (s : string) : string :=
  match s with
  | EmptyString => EmptyString
  | String c s' =>
      match trim_end s' with
      | EmptyString => if is_space c then EmptyString else String c EmptyString
      | t => String c t
      end
  end.

Definition trim (s : string) : string := trim_end (skip_space s).

End Js.

(* ================================================================== *)
(** * Regular expressions, as far as the sources use them *)
(* ================================================================== *)

Module Regex.

(** The patterns of the sources are anchored at both ends ([^...$], no
    flags), so [RegExp.prototype.test] is membership of the whole string in
    the language of the pattern.  Membership is decided with derivatives. *)
Inductive regex : Type :=
| Void
| Eps
| Class (cs : list ascii)
| Seq (r1 r2 : regex)
| Alt (r1 r2 : regex)
| Star (r : regex).

Definition in_class (c : ascii) (cs : list ascii) : bool :=
  existsb (Ascii.eqb c) cs.

Fixpoint nullable (r : regex) : bool :=
  match r with
  | Void => false
  | Eps => true
  | Class _ => false
  | Seq r1 r2 => nullable r1 && nullable r2
  | Alt r1 r2 => nullable r1 || nullable r2
  | Star _ => true
  end.

Fixpoint deriv (c : ascii) (r : regex) : regex :=
  match r with
  | Void => Void
  | Eps => Void
  | Class cs => if in_class c cs then Eps else Void
  | Seq r1 r2 =>
      if nullable r1
      then Alt (Seq (deriv c r1) r2) (deriv c r2)
      else Seq (deriv c r1) r2
  | Alt r1 r2 => Alt (deriv c r1) (deriv c r2)
  | Star r1 => Seq (deriv c r1) (Star r1)
  end.

(** [/^r$/.test(s)] *)
Fixpoint test (r : regex) (s : string) : bool :=
  match s with
  | EmptyString => nullable r
  | String c s' => test (deriv c r) s'
  end.

Definition Plus (r : regex) : regex := Seq r (Star r).

(** [\d] *)
Definition digit : regex :=
  Class ["0"; "1"; "2"; "3"; "4"; "5"; "6"; "7"; "8"; "9"]%char.

End Regex.

(* ================================================================== *)
(** * Provider-neutral results ([src/types/asr.ts]) *)
(* ================================================================== *)

(** [AsrProvider] *)
Inductive AsrProvider : Type :=
| nvidia
| openai
| deepgram
| groq
| local_whisper
| mlx_whisper.

(** The string each provider name is at run time. *)
Definition provider_name (p : AsrProvider) : string :=
  match p with
  | nvidia => "nvidia"
  | openai => "openai"
  | deepgram => "deepgram"
  | groq => "groq"
  | local_whisper => "local-whisper"
  | mlx_whisper => "mlx-whisper"
  end.

(** [AsrWord] *)
Record AsrWord : Type := mkAsrWord {
  aw_word : string;
  aw_start : float;
  aw_end : float;
  aw_confidence : float
}.

(** [AsrSegment] *)
Record AsrSegment : Type := mkAsrSegment {
  as_text : string;
  as_start : float;
  as_end : float;
  as_confidence : float;
  as_speaker : option string;
  as_words : option (list AsrWord)
}.

(** [AsrTranscribeResult] *)
Record AsrTranscribeResult : Type := mkAsrTranscribeResult {
  ar_text : string;
  ar_language : string;
  ar_duration : float;
  ar_confidence : float;
  ar_segments : list AsrSegment;
  ar_words : option (list AsrWord);
  ar_processingTime : float;
  ar_provider : AsrProvider;
  ar_model : option string
}.

(** [AsrTranscribeOptions], [AsrTranscribeRequest] *)
Record AsrTranscribeOptions : Type := mkAsrTranscribeOptions {
  ao_punctuation : option bool;
  ao_wordTimestamps : option bool;
  ao_speakerDiarization : option bool;
  ao_profanityFilter : option bool
}.

Definition Buffer : Type := list Byte.byte.

Record AsrTranscribeRequest : Type := mkAsrTranscribeRequest {
  rq_audioBuffer : Buffer;
  rq_mediatype : string;
  rq_language : option string;
  rq_options : option AsrTranscribeOptions
}.

(* ================================================================== *)
(** * The canonical record ([src/types/wtf.ts]) *)
(* ================================================================== *)

Record WtfWord : Type := mkWtfWord {
  ww_id : nat;
  ww_start : float;
  ww_end : float;
  ww_text : string;
  ww_confidence : float;
  ww_speaker : option Js.Int;
  ww_is_punctuation : bool
}.

Record WtfSegment : Type := mkWtfSegment {
  ws_id : nat;
  ws_start : float;
  ws_end : float;
  ws_text : string;
  ws_confidence : float;
  ws_speaker : option Js.Int;
  ws_words : option (list nat)
}.

Record WtfSpeaker : Type := mkWtfSpeaker {
  sp_id : Js.Int;
  sp_label : string;
  sp_segments : list nat;
  sp_total_time : option float
}.

Record WtfQuality : Type := mkWtfQuality {
  q_average_confidence : float;
  q_low_confidence_words : nat;
  q_multiple_speakers : bool;
  q_processing_warnings : list string
}.

Record WtfTranscript : Type := mkWtfTranscript {
  tr_text : string;
  tr_language : string;
  tr_duration : float;
  tr_confidence : float
}.

Record WtfAudioMetadata : Type := mkWtfAudioMetadata {
  am_duration : float
}.

Record WtfMetadata : Type := mkWtfMetadata {
  md_created_at : string;
  md_processed_at : string;
  md_provider : AsrProvider;
  md_model : option string;
  md_processing_time : float;
  md_audio : option WtfAudioMetadata
}.

Record WtfTranscription : Type := mkWtfTranscription {
  wtf_transcript : WtfTranscript;
  wtf_segments : list WtfSegment;
  wtf_metadata : WtfMetadata;
  wtf_words : option (list WtfWord);
  wtf_speakers : option (gmap string WtfSpeaker);
  wtf_quality : option WtfQuality
}.

(** [WtfAnalysis]: the fields [type], [mediatype], [schema] and [encoding]
    have literal types there; they are strings at run time. *)
Record WtfAnalysis : Type := mkWtfAnalysis {
  wa_type : string;
  wa_dialog : nat;
  wa_mediatype : string;
  wa_vendor : AsrProvider;
  wa_product : string;
  wa_schema : string;
  wa_body : WtfTranscription;
  wa_encoding : string
}.

(* ================================================================== *)
(** * Enrichment engine ([src/services/vcon-enricher.ts]) *)
(* ================================================================== *)

(** [EnrichmentInput] *)
Record EnrichmentInput : Type := mkEnrichmentInput {
  ei_dialogIndex : nat;
  ei_transcription : AsrTranscribeResult;
  ei_provider : AsrProvider;
  ei_model : option string;
  ei_audioDuration : option float
}.

(** The character class of the pattern tested on [w.word] (lines 47 and 62):
    full stop, comma, exclamation mark, question mark, semicolon, colon,
    apostrophe, double quote (code 34), both parentheses, and a literal
    hyphen; the pattern is that one class between the anchors. *)
Definition punctuation_class : list ascii :=
  ["."; ","; "!"; "?"; ";"; ":"; "'"; "034"; "("; ")"; "-"]%char.

Definition punctuation_re : Regex.regex := Regex.Class punctuation_class.

(** [seg.speaker ? parseInt(seg.speaker, 10) : undefined] *)
Definition speaker_number (speaker : option string) : option Js.Int :=
  if Js.truthy_opt_string speaker
  then Some (Js.parseInt10 (default EmptyString speaker))
  else None.

(** One [words.push({ id: wordId++, ... })]: the state is the array built so
    far and the counter [wordId]. *)
Definition push_word (speaker : option Js.Int)
    (st : list WtfWord * nat) (w : AsrWord) : list WtfWord * nat :=
  let '(words, wordId) := st in
  (words ++ [ {| ww_id := wordId;
                 ww_start := aw_start w;
                 ww_end := aw_end w;
                 ww_text := aw_word w;
                 ww_confidence := aw_confidence w;
                 ww_speaker := speaker;
                 ww_is_punctuation := Regex.test punctuation_re (aw_word w) |} ],
   S wordId).

(** The loop over one segment's nested words ([if (seg.words) ...]). *)
Definition push_segment_words
    (st : list WtfWord * nat) (seg : AsrSegment) : list WtfWord * nat :=
  match as_words seg with
  | Some ws => fold_left (push_word (speaker_number (as_speaker seg))) ws st
  | None => st
  end.

(** "Build words array".  An array, even an empty one, is truthy: the first
    branch is taken whenever [transcription.words] is present, the second
    otherwise ([transcription.segments] is always an array). *)
Definition build_words (transcription : AsrTranscribeResult) : list WtfWord :=
  fst match ar_words transcription with
      | Some ws => fold_left (push_word None) ws ([], 0)
      | None => fold_left push_segment_words (ar_segments transcription) ([], 0)
      end.

(** "Build segments array": the callback of [segments.map((seg, idx) => ...)]. *)
Definition build_segment (words : list WtfWord) (idx : nat) (seg : AsrSegment)
    : WtfSegment :=
  let segmentWordIds :=
    List.map ww_id
      (List.filter
         (fun w => Js.ge (ww_start w) (as_start seg) && Js.le (ww_end w) (as_end seg))
         words) in
  {| ws_id := idx;
     ws_start := as_start seg;
     ws_end := as_end seg;
     ws_text := as_text seg;
     ws_confidence := as_confidence seg;
     ws_speaker := speaker_number (as_speaker seg);
     ws_words := if (0 <? length segmentWordIds)%nat then Some segmentWordIds else None |}.

Definition build_segments (words : list WtfWord) (segs : list AsrSegment)
    : list WtfSegment :=
  imap (build_segment words) segs.

(** "Build speakers map", first loop: the two [Map]s [speakerSegments] and
    [speakerTimes].  [get(k)!] of a missing key would be [undefined]; adding
    a number to it gives NaN. *)
Definition speaker_step
    (st : gmap string (list nat) * gmap string float) (seg : WtfSegment)
    : gmap string (list nat) * gmap string float :=
  match ws_speaker seg with
  | None => st
  | Some sp =>
      let speakerId := Js.String_of_Int sp in
      let '(speakerSegments, speakerTimes) := st in
      let '(speakerSegments, speakerTimes) :=
        match speakerSegments !! speakerId with
        | Some _ => (speakerSegments, speakerTimes)
        | None => (<[speakerId := []]> speakerSegments,
                   <[speakerId := 0%float]> speakerTimes)
        end in
      (alter (fun ids => ids ++ [ws_id seg]) speakerId speakerSegments,
       <[speakerId :=
           (default PrimFloat.nan (speakerTimes !! speakerId)
            + (ws_end seg - ws_start seg))%float]> speakerTimes)
  end.

(** Second loop: one [WtfSpeaker] per key of [speakerSegments]. *)
Definition build_speakers (segments : list WtfSegment) : gmap string WtfSpeaker :=
  let '(speakerSegments, speakerTimes) :=
    fold_left speaker_step segments (∅, ∅) in
  map_imap
    (fun speakerId segIds =>
       Some {| sp_id := Js.parseInt10 speakerId;
               sp_label := "Speaker " ++ speakerId;
               sp_segments := segIds;
               sp_total_time := speakerTimes !! speakerId |})
    speakerSegments.

Definition low_confidence_warning : string :=
  "High number of low-confidence words".

(** "Calculate quality metrics" *)
Definition build_quality (transcription : AsrTranscribeResult)
    (words : list WtfWord) (speakers : gmap string WtfSpeaker) : WtfQuality :=
  let lowConfidenceWords :=
    length (List.filter (fun w => Js.lt (ww_confidence w) 0.7%float) words) in
  {| q_average_confidence := ar_confidence transcription;
     q_low_confidence_words := lowConfidenceWords;
     q_multiple_speakers := (1 <? size speakers)%nat;
     q_processing_warnings :=
       if Js.gt (Js.of_nat lowConfidenceWords)
                (Js.of_nat (length words) * 0.1)%float
       then [low_confidence_warning]
       else [] |}.

(** [createWtfTranscription]; [now] is the value of
    [new Date().toISOString()] read at its start. *)
Definition createWtfTranscription (now : string) (input : EnrichmentInput)
    : WtfTranscription :=
  let transcription := ei_transcription input in
  let words := build_words transcription in
  let segments := build_segments words (ar_segments transcription) in
  let speakers := build_speakers segments in
  let quality := build_quality transcription words speakers in
  {| wtf_transcript :=
       {| tr_text := ar_text transcription;
          tr_language := ar_language transcription;
          tr_duration := ar_duration transcription;
          tr_confidence := ar_confidence transcription |};
     wtf_segments := segments;
     wtf_metadata :=
       {| md_created_at := now;
          md_processed_at := now;
          md_provider := ei_provider input;
          md_model := ei_model input;
          md_processing_time := (ar_processingTime transcription / 1000)%float;
          md_audio :=
            match ei_audioDuration input with
            | Some d =>
                if Js.truthy_number d then Some {| am_duration := d |} else None
            | None => None
            end |};
     wtf_words := if (0 <? length words)%nat then Some words else None;
     wtf_speakers := if (0 <? size speakers)%nat then Some speakers else None;
     wtf_quality := Some quality |}.

(** [createWtfAnalysis] *)
Definition createWtfAnalysis (dialogIndex : nat) (wtf : WtfTranscription)
    (provider : AsrProvider) (model : option string) : WtfAnalysis :=
  {| wa_type := "wtf_transcription";
     wa_dialog := dialogIndex;
     wa_mediatype := "application/json";
     wa_vendor := provider;
     wa_product := default (provider_name provider) model;
     wa_schema := "wtf-1.0";
     wa_body := wtf;
     wa_encoding := "json" |}.

(* ================================================================== *)
(** * Conversation documents ([src/types/vcon.ts]) *)
(* ================================================================== *)

Inductive DialogType : Type := recording | text | transfer | incomplete.

Inductive Encoding : Type := base64url | json | none.

(** [Party], with the members the schema constrains by format; its other
    optional members (among them the civic address) are not modelled. *)
Record Party : Type := mkParty {
  p_tel : option string;
  p_mailto : option string;
  p_name : option string;
  p_uuid : option string;
  p_role : option string
}.

(** [Dialog], with the fields read by the pipeline or constrained by the
    schema beyond their type; the remaining optional descriptive fields of
    the interface are not read by any function below.  A duration is a
    number of a JSON document: any binary64 value but NaN. *)
Record Dialog : Type := mkDialog {
  d_type : DialogType;
  d_start : string;
  d_duration : option float;
  d_parties : nat + list nat;
  d_originator : option nat;
  d_mediatype : option string;
  d_filename : option string;
  d_body : option string;
  d_encoding : option Encoding;
  d_url : option string
}.

(** The [body] of an analysis entry: a string, the canonical record written
    by this service, or any other JSON object (kept as its key/value text). *)
Inductive AnalysisBody : Type :=
| BodyText (s : string)
| BodyWtf (w : WtfTranscription)
| BodyRecord (fields : list (string * string)).

Record Analysis : Type := mkAnalysis {
  an_type : string;
  an_dialog : option (nat + list nat);
  an_mediatype : option string;
  an_filename : option string;
  an_vendor : string;
  an_product : option string;
  an_schema : option string;
  an_body : option AnalysisBody;
  an_encoding : option Encoding;
  an_url : option string
}.

Record Attachment : Type := mkAttachment {
  at_type : option string;
  at_start : option string;
  at_party : option nat;
  at_mediatype : string;
  at_filename : option string;
  at_body : option string;
  at_encoding : option Encoding;
  at_url : option string;
  at_dialog : option nat
}.

(** [VconGroup], [Redacted], [Appended]: a reference by uuid and url (an
    inline nested document is not modelled). *)
Record VconRef : Type := mkVconRef {
  ref_uuid : string;
  ref_url : option string
}.

(** [Vcon] *)
Record Vcon : Type := mkVcon {
  v_vcon : string;
  v_uuid : string;
  v_created_at : string;
  v_updated_at : option string;
  v_subject : option string;
  v_parties : list Party;
  v_dialog : option (list Dialog);
  v_analysis : option (list Analysis);
  v_attachments : option (list Attachment);
  v_group : option (list VconRef);
  v_redacted : option VconRef;
  v_appended : option VconRef
}.

(** [NormalizedVcon extends Vcon]: the three arrays are there. *)
Record NormalizedVcon : Type := mkNormalizedVcon {
  n_vcon : string;
  n_uuid : string;
  n_created_at : string;
  n_updated_at : option string;
  n_subject : option string;
  n_parties : list Party;
  n_dialog : list Dialog;
  n_analysis : list Analysis;
  n_attachments : list Attachment;
  n_group : option (list VconRef);
  n_redacted : option VconRef;
  n_appended : option VconRef
}.

(** A [NormalizedVcon] used where a [Vcon] is expected (subtyping). *)
Definition as_Vcon (n : NormalizedVcon) : Vcon :=
  {| v_vcon := n_vcon n;
     v_uuid := n_uuid n;
     v_created_at := n_created_at n;
     v_updated_at := n_updated_at n;
     v_subject := n_subject n;
     v_parties := n_parties n;
     v_dialog := Some (n_dialog n);
     v_analysis := Some (n_analysis n);
     v_attachments := Some (n_attachments n);
     v_group := n_group n;
     v_redacted := n_redacted n;
     v_appended := n_appended n |}.

(** The request body before validation ([input: unknown]): a JSON object
    whose members have the JSON types of [Vcon], any of them possibly
    missing. *)
Record RawVcon : Type := mkRawVcon {
  raw_vcon : option string;
  raw_uuid : option string;
  raw_created_at : option string;
  raw_updated_at : option string;
  raw_subject : option string;
  raw_parties : option (list Party);
  raw_dialog : option (list Dialog);
  raw_analysis : option (list Analysis);
  raw_attachments : option (list Attachment);
  raw_group : option (list VconRef);
  raw_redacted : option VconRef;
  raw_appended : option VconRef
}.

(** [analysis as unknown as Analysis] *)
Definition as_Analysis (a : WtfAnalysis) : Analysis :=
  {| an_type := wa_type a;
     an_dialog := Some (inl (wa_dialog a));
     an_mediatype := Some (wa_mediatype a);
     an_filename := None;
     an_vendor := provider_name (wa_vendor a);
     an_product := Some (wa_product a);
     an_schema := Some (wa_schema a);
     an_body := Some (BodyWtf (wa_body a));
     an_encoding := Some json;
     an_url := None |}.

(* ================================================================== *)
(** * Calls that may throw, and what they do outside the process *)
(* ================================================================== *)

(** A thrown value: an [Error] with its message, or anything else. *)
Inductive Exn : Type :=
| Error (message : string)
| NonError.

Inductive Outcome (A : Type) : Type :=
| Returned (a : A)
| Thrown (e : Exn).
Arguments Returned {A} a.
Arguments Thrown {A} e.

(** What a run of the pipeline does besides computing its value. *)
Inductive Event : Type :=
| EvExtract (dialogIndex : nat)       (* [extractAudioFromDialog] is called *)
| EvHttpGet (url : string)            (* undici [request(url)] *)
| EvTranscribe (p : AsrProvider) (mediatype : string)
                                      (* [provider.transcribe(request)] *)
| EvEnrich (dialogIndex : nat).       (* [createWtfTranscription] is called *)

(** A computation: the events it performs, in program order, and how it
    ends.  Concurrent branches ([Promise.all]) are listed in array order. *)
Definition Run (A : Type) : Type := list Event * Outcome A.

Definition ret {A} (a : A) : Run A := ([], Returned a).

Definition throw {A} (e : Exn) : Run A := ([], Thrown e).

Definition emit (ev : Event) : Run unit := ([ev], Returned tt).

Definition bind {A B} (m : Run A) (k : A -> Run B) : Run B :=
  match m with
  | (t1, Returned a) => let '(t2, o) := k a in (t1 ++ t2, o)
  | (t1, Thrown e) => (t1, Thrown e)
  end.

#[global] Instance Run_ret : MRet Run := @ret.
#[global] Instance Run_bind : MBind Run := fun A B k m => bind m k.

(** [try { m } catch (error) { h(error) }] *)
Definition try_catch {A} (m : Run A) (h : Exn -> Run A) : Run A :=
  match m with
  | (t1, Returned a) => (t1, Returned a)
  | (t1, Thrown e) => let '(t2, o) := h e in (t1 ++ t2, o)
  end.

(** [Promise.all(ps)]: every branch runs; the result is the array of values
    if all fulfil, and otherwise a rejection (here: the first in array
    order). *)
Fixpoint all_outcomes {A} (os : list (Outcome A)) : Outcome (list A) :=
  match os with
  | [] => Returned []
  | Returned a :: os' =>
      match all_outcomes os' with
      | Returned l => Returned (a :: l)
      | Thrown e => Thrown e
      end
  | Thrown e :: _ => Thrown e
  end.

Definition Promise_all {A} (ps : list (Run A)) : Run (list A) :=
  (concat (List.map fst ps), all_outcomes (List.map snd ps)).

(* ================================================================== *)
(** * The surroundings of the process *)
(* ================================================================== *)

(** The built-in checks of the zod library used by the schema. *)
Inductive ZodCheck : Type :=
| ZRequired
| ZUuid
| ZDatetime
| ZUrl
| ZEmail
| ZArrayMin1
| ZStringMin1
| ZNonnegative
| ZEnum (allowed : list string) (received : string).

(** [AsrProviderClient], as far as the orchestrator uses it. *)
Record AsrProviderClient : Type := mkAsrProviderClient {
  isConfigured : bool;
  transcribe : AsrTranscribeRequest -> Outcome AsrTranscribeResult
}.

Record Env : Type := mkEnv {
  (* [config] *)
  config_asrProvider : AsrProvider;
  config_maxAudioSizeMb : float;
  (* zod: format predicates and default messages *)
  zod_uuid : string -> bool;
  zod_datetime : string -> bool;
  zod_url : string -> bool;
  zod_email : string -> bool;
  zod_message : ZodCheck -> string;
  (* Node: [Buffer.from(s, "base64")], template rendering of a number *)
  Buffer_from_base64 : string -> Buffer;
  number_toString : float -> string;
  (* undici: the body of [GET url], or the error of [throwOnError] *)
  http_get : string -> Outcome Buffer;
  (* the instance [createProvider] builds for each name *)
  createProvider : AsrProvider -> AsrProviderClient
}.

(** The instants one call of the pipeline reads from the clock. *)
Record Clock : Type := mkClock {
  (* [new Date().toISOString()] in the k-th [createWtfTranscription] *)
  clock_enrich : nat -> string;
  (* [new Date().toISOString()] in [enrichVconWithTranscriptions] *)
  clock_updated : string;
  (* [Date.now() - startTime] *)
  clock_elapsed : float
}.

(* ================================================================== *)
(** * The document schema ([src/schemas/vcon.schema.ts]) *)
(* ================================================================== *)

(** A zod issue: the path to the offending member and a message. *)
Record Issue : Type := mkIssue {
  issue_path : list string;
  issue_message : string
}.

(** The pattern of the [vcon] member: digits, dot, digits, dot, digits. *)
Definition version_re : Regex.regex :=
  let dot := Regex.Class ["."%char] in
  Regex.Seq (Regex.Plus Regex.digit)
    (Regex.Seq dot
       (Regex.Seq (Regex.Plus Regex.digit)
          (Regex.Seq dot (Regex.Plus Regex.digit)))).

(** [PartyRoleSchema] *)
Definition party_roles : list string :=
  ["agent"; "customer"; "supervisor"; "sme"; "thirdparty"].

Definition mediatype_required_message : string :=
  "mediatype is required when body is present for recording/text".

Definition mutually_exclusive_message : string :=
  "group, redacted, and appended are mutually exclusive".

Definition is_some {A} (o : option A) : bool :=
  match o with
  | Some _ => true
  | None => false
  end.

(** [Boolean(x)] for an optional object or array: present means truthy. *)
Definition count_present (flags : list bool) : nat :=
  length (List.filter (fun b => b) flags).

Section Schema.

Context (env : Env).

(** An optional string member with a format check. *)
Definition check_format (ok : string -> bool) (message : string)
    (path : list string) (o : option string) : list Issue :=
  match o with
  | Some s => if ok s then [] else [ {| issue_path := path; issue_message := message |} ]
  | None => []
  end.

Definition check_uuid := check_format (zod_uuid env) (zod_message env ZUuid).
Definition check_datetime := check_format (zod_datetime env) (zod_message env ZDatetime).
Definition check_url := check_format (zod_url env) (zod_message env ZUrl).
Definition check_email := check_format (zod_email env) (zod_message env ZEmail).
Definition check_min1 := check_format Js.truthy_string (zod_message env ZStringMin1).

(** A required member that is missing. *)
Definition check_required {A} (path : list string) (o : option A) : list Issue :=
  match o with
  | Some _ => []
  | None => [ {| issue_path := path; issue_message := zod_message env ZRequired |} ]
  end.

(** The issues of the elements of an array member, element by element. *)
Definition check_each {A} (f : list string -> A -> list Issue)
    (path : list string) (l : list A) : list Issue :=
  concat (imap (fun i x => f (path ++ [pretty i]) x) l).

(** An optional member of an enumeration; the message names the allowed
    values and the one received. *)
Definition check_enum (allowed : list string) (path : list string)
    (o : option string) : list Issue :=
  match o with
  | Some s =>
      if bool_decide (s ∈ allowed) then []
      else [ {| issue_path := path;
                issue_message := zod_message env (ZEnum allowed s) |} ]
  | None => []
  end.

(** An optional number with [.nonnegative()]: [value >= 0]. *)
Definition check_nonnegative (path : list string) (o : option float) : list Issue :=
  match o with
  | Some x =>
      if Js.ge x 0 then []
      else [ {| issue_path := path; issue_message := zod_message env ZNonnegative |} ]
  | None => []
  end.

(** [PartySchema] *)
Definition PartySchema (path : list string) (p : Party) : list Issue :=
  check_email (path ++ ["mailto"]) (p_mailto p)
  ++ check_uuid (path ++ ["uuid"]) (p_uuid p)
  ++ check_enum party_roles (path ++ ["role"]) (p_role p).

(** A value outside an enumeration is a fatal issue: zod gives up the
    object that holds it, the array that holds the object and the document,
    and runs no refinement of any of them. *)
Definition party_aborted (p : Party) : bool :=
  match p_role p with
  | Some r => negb (bool_decide (r ∈ party_roles))
  | None => false
  end.

(** [DialogSchema], with its refinement: a recording or text dialog that
    has a body must have a media type. *)
Definition dialog_refinement (d : Dialog) : bool :=
  match d_type d with
  | recording | text =>
      if Js.truthy_opt_string (d_body d)
      then Js.truthy_opt_string (d_mediatype d)
      else true
  | _ => true
  end.

Definition DialogSchema (path : list string) (d : Dialog) : list Issue :=
  check_datetime (path ++ ["start"]) (Some (d_start d))
  ++ check_nonnegative (path ++ ["duration"]) (d_duration d)
  ++ check_url (path ++ ["url"]) (d_url d)
  ++ (if dialog_refinement d then []
      else [ {| issue_path := path; issue_message := mediatype_required_message |} ]).

(** [AnalysisSchema] *)
Definition AnalysisSchema (path : list string) (a : Analysis) : list Issue :=
  check_min1 (path ++ ["vendor"]) (Some (an_vendor a))
  ++ check_url (path ++ ["url"]) (an_url a).

(** [AttachmentSchema] *)
Definition AttachmentSchema (path : list string) (a : Attachment) : list Issue :=
  check_datetime (path ++ ["start"]) (at_start a)
  ++ check_min1 (path ++ ["mediatype"]) (Some (at_mediatype a))
  ++ check_url (path ++ ["url"]) (at_url a).

(** [VconGroupSchema], [RedactedSchema], [AppendedSchema] *)
Definition VconRefSchema (path : list string) (r : VconRef) : list Issue :=
  check_uuid (path ++ ["uuid"]) (Some (ref_uuid r))
  ++ check_url (path ++ ["url"]) (ref_url r).

Definition check_opt {A} (f : list string -> A -> list Issue)
    (path : list string) (o : option A) : list Issue :=
  match o with
  | Some x => f path x
  | None => []
  end.

(** The issues of the members of the document object, in schema order. *)
Definition member_issues (raw : RawVcon) : list Issue :=
  check_required ["vcon"] (raw_vcon raw)
  ++ check_format (Regex.test version_re) "Invalid version format" ["vcon"] (raw_vcon raw)
  ++ check_required ["uuid"] (raw_uuid raw)
  ++ check_uuid ["uuid"] (raw_uuid raw)
  ++ check_required ["created_at"] (raw_created_at raw)
  ++ check_datetime ["created_at"] (raw_created_at raw)
  ++ check_datetime ["updated_at"] (raw_updated_at raw)
  ++ check_required ["parties"] (raw_parties raw)
  ++ check_opt (fun path ps =>
                  (if (1 <=? length ps)%nat then []
                   else [ {| issue_path := path;
                             issue_message := zod_message env ZArrayMin1 |} ])
                  ++ check_each PartySchema path ps)
       ["parties"] (raw_parties raw)
  ++ check_opt (check_each DialogSchema) ["dialog"] (raw_dialog raw)
  ++ check_opt (check_each AnalysisSchema) ["analysis"] (raw_analysis raw)
  ++ check_opt (check_each AttachmentSchema) ["attachments"] (raw_attachments raw)
  ++ check_opt (check_each VconRefSchema) ["group"] (raw_group raw)
  ++ check_opt VconRefSchema ["redacted"] (raw_redacted raw)
  ++ check_opt VconRefSchema ["appended"] (raw_appended raw).

(** The refinement of [VconSchema]: at most one of [group], [redacted] and
    [appended]. *)
Definition exclusive_refinement (raw : RawVcon) : bool :=
  (count_present [is_some (raw_group raw); is_some (raw_redacted raw);
                  is_some (raw_appended raw)] <=? 1)%nat.

(** [VconSchema.safeParse(input)]: the parsed document, or the issues.  The
    model keeps the checks the schema declares and reports one issue per
    failed check.  In zod a missing required member or a party with a role
    outside the enumeration aborts the object, so the refinement is
    evaluated only when the four required members are there and every role
    is one of the enumeration; a member of the wrong format or a negative
    number does not abort it. *)
Definition VconSchema_safeParse (raw : RawVcon) : list Issue + Vcon :=
  match raw_vcon raw, raw_uuid raw, raw_created_at raw, raw_parties raw with
  | Some version, Some uuid, Some created_at, Some parties =>
      let issues :=
        member_issues raw
        ++ (if existsb party_aborted parties || exclusive_refinement raw then []
            else [ {| issue_path := []; issue_message := mutually_exclusive_message |} ]) in
      match issues with
      | [] =>
          inr {| v_vcon := version;
                 v_uuid := uuid;
                 v_created_at := created_at;
                 v_updated_at := raw_updated_at raw;
                 v_subject := raw_subject raw;
                 v_parties := parties;
                 v_dialog := raw_dialog raw;
                 v_analysis := raw_analysis raw;
                 v_attachments := raw_attachments raw;
                 v_group := raw_group raw;
                 v_redacted := raw_redacted raw;
                 v_appended := raw_appended raw |}
      | _ :: _ => inl issues
      end
  | _, _, _, _ => inl (member_issues raw)
  end.

End Schema.

(* ================================================================== *)
(** * Audio utilities ([src/utils/audio.ts]) *)
(* ================================================================== *)

Definition SUPPORTED_AUDIO_TYPES : list string :=
  ["audio/wav"; "audio/wave"; "audio/x-wav"; "audio/mp3"; "audio/mpeg";
   "audio/flac"; "audio/ogg"; "audio/webm"; "audio/x-m4a"; "audio/mp4"].

Definition isSupportedAudioType (mediatype : string) : bool :=
  existsb (String.eqb mediatype) SUPPORTED_AUDIO_TYPES.

Definition isAudioDialog (dialog : Dialog) : bool :=
  match d_type dialog with
  | recording =>
      match d_mediatype dialog with
      | Some mediatype =>
          if Js.truthy_string mediatype then isSupportedAudioType mediatype else false
      | None => false
      end
  | _ => false
  end.

(** [s.replace(/-/g, "+").replace(/_/g, "/")] *)
Fixpoint base64url_to_base64 (s : string) : string :=
  match s with
  | EmptyString => EmptyString
  | String c s' =>
      String (if Ascii.eqb c "-" then "+" else if Ascii.eqb c "_" then "/" else c)%char
             (base64url_to_base64 s')
  end.

(** [c.repeat(n)] *)
Fixpoint repeat_char (c : ascii) (n : nat) : string :=
  match n with
  | O => EmptyString
  | S n' => String c (repeat_char c n')
  end.

Section Audio.

Context (env : Env).

Definition decodeBase64Url (s : string) : Buffer :=
  let base64 := base64url_to_base64 s in
  let padded :=
    String.append base64
      (repeat_char "=" ((4 - String.length base64 mod 4) mod 4)) in
  Buffer_from_base64 env padded.

(** [extractAudioFromDialog]: the bytes and media type, or [null]; a failed
    download throws. *)
Definition extractAudioFromDialog (dialog : Dialog) : Run (option (Buffer * string)) :=
  if negb (isAudioDialog dialog) then mret None
  else
    let mediatype := default EmptyString (d_mediatype dialog) in
    let from_url : Run (option (Buffer * string)) :=
      match d_url dialog with
      | Some url =>
          if Js.truthy_string url
          then _ ← emit (EvHttpGet url);
               match http_get env url with
               | Returned body => mret (Some (body, mediatype))
               | Thrown e => throw e
               end
          else mret None
      | None => mret None
      end in
    match d_body dialog with
    | Some body =>
        if Js.truthy_string body
        then match default base64url (d_encoding dialog) with
             | base64url => mret (Some (decodeBase64Url body, mediatype))
             | none => mret (Some (list_byte_of_string body, mediatype))
             | json => from_url
             end
        else from_url
    | None => from_url
    end.

End Audio.

(* ================================================================== *)
(** * Parser ([src/services/vcon-parser.ts]) *)
(* ================================================================== *)

(** An entry of a failure's [details]. *)
Record Detail : Type := mkDetail {
  detail_path : string;
  detail_message : string
}.

(** [VconParseResult = ParseResult | ParseError] *)
Inductive VconParseResult : Type :=
| ParseResult (vcon : NormalizedVcon) (audioDialogs : list (nat * Dialog))
| ParseError (error : string) (details : option (list Detail)).

(** [normalizeVcon] *)
Definition normalizeVcon (vcon : Vcon) : NormalizedVcon :=
  {| n_vcon := v_vcon vcon;
     n_uuid := v_uuid vcon;
     n_created_at := v_created_at vcon;
     n_updated_at := v_updated_at vcon;
     n_subject := v_subject vcon;
     n_parties := v_parties vcon;
     n_dialog := default [] (v_dialog vcon);
     n_analysis := default [] (v_analysis vcon);
     n_attachments := default [] (v_attachments vcon);
     n_group := v_group vcon;
     n_redacted := v_redacted vcon;
     n_appended := v_appended vcon |}.

(** [e.path.join(".")] *)
Definition join_path (path : list string) : string := String.concat "." path.

Definition issue_detail (e : Issue) : Detail :=
  {| detail_path := join_path (issue_path e);
     detail_message := issue_message e |}.

(** [vcon.dialog.map((dialog, index) => ({ index, dialog })).filter(...)] *)
Definition audio_dialogs (dialogs : list Dialog) : list (nat * Dialog) :=
  List.filter (fun '(_, dialog) => isAudioDialog dialog)
              (imap (fun index dialog => (index, dialog)) dialogs).

(** [parseVcon] *)
Definition parseVcon (env : Env) (input : RawVcon) : VconParseResult :=
  match VconSchema_safeParse env input with
  | inl issues =>
      ParseError "Invalid VCON format" (Some (List.map issue_detail issues))
  | inr data =>
      let vcon := normalizeVcon data in
      ParseResult vcon (audio_dialogs (n_dialog vcon))
  end.

(* ================================================================== *)
(** * Audio extractor ([src/services/audio-extractor.ts]) *)
(* ================================================================== *)

Record ExtractedAudio : Type := mkExtractedAudio {
  ea_dialogIndex : nat;
  ea_buffer : Buffer;
  ea_mediatype : string;
  ea_duration : option float
}.

Record ExtractionError : Type := mkExtractionError {
  ee_dialogIndex : nat;
  ee_error : string
}.

Record ExtractionResult : Type := mkExtractionResult {
  extracted : list ExtractedAudio;
  errors : list ExtractionError;
  skipped : list nat
}.

Definition push_extracted (r : ExtractionResult) (a : ExtractedAudio) : ExtractionResult :=
  {| extracted := extracted r ++ [a]; errors := errors r; skipped := skipped r |}.

Definition push_error (r : ExtractionResult) (index : nat) (message : string)
    : ExtractionResult :=
  {| extracted := extracted r;
     errors := errors r ++ [ {| ee_dialogIndex := index; ee_error := message |} ];
     skipped := skipped r |}.

Definition push_skipped (r : ExtractionResult) (index : nat) : ExtractionResult :=
  {| extracted := extracted r; errors := errors r; skipped := skipped r ++ [index] |}.

(** A [for ... of] loop whose body awaits: the state is threaded through
    the iterations, and a throw leaves the loop. *)
Fixpoint for_of {A S} (body : S -> A -> Run S) (l : list A) (s : S) : Run S :=
  match l with
  | [] => mret s
  | x :: l' => s' ← body s x; for_of body l' s'
  end.

Section Extractor.

Context (env : Env).

Definition maxSizeBytes : float :=
  (config_maxAudioSizeMb env * 1024 * 1024)%float.

(** One iteration of the loop of [extractAudioFromDialogs]. *)
Definition extract_iteration (result : ExtractionResult) (entry : nat * Dialog)
    : Run ExtractionResult :=
  let '(index, dialog) := entry in
  if negb (isAudioDialog dialog) then mret (push_skipped result index)
  else
    try_catch
      (_ ← emit (EvExtract index);
       audio ← extractAudioFromDialog env dialog;
       match audio with
       | None => mret (push_error result index "Failed to extract audio content")
       | Some (buffer, mediatype) =>
           if Js.gt (Js.of_nat (length buffer)) maxSizeBytes
           then mret (push_error result index
                        ("Audio exceeds maximum size of "
                         ++ number_toString env (config_maxAudioSizeMb env) ++ "MB"))
           else mret (push_extracted result
                        {| ea_dialogIndex := index;
                           ea_buffer := buffer;
                           ea_mediatype := mediatype;
                           ea_duration := d_duration dialog |})
       end)
      (fun error =>
         mret (push_error result index
                 match error with
                 | Error message => message
                 | NonError => "Unknown extraction error"
                 end)).

(** [extractAudioFromDialogs] *)
Definition extractAudioFromDialogs (dialogs : list (nat * Dialog))
    : Run ExtractionResult :=
  for_of extract_iteration dialogs
         {| extracted := []; errors := []; skipped := [] |}.

End Extractor.

(* ================================================================== *)
(** * Providers ([src/providers/]) *)
(* ================================================================== *)

(** [getProvider]: the instances are cached in a module-level map; they are
    stateless after construction, so the cached instance and a fresh one
    behave alike. *)
Definition getProvider (env : Env) (provider : option AsrProvider)
    : AsrProviderClient :=
  let providerName := default (config_asrProvider env) provider in
  createProvider env providerName.

(** [BaseAsrProvider.transcribeBatch]: all requests are dispatched, then
    awaited together. *)
Definition transcribeBatch (name : AsrProvider) (client : AsrProviderClient)
    (requests : list AsrTranscribeRequest) : Run (list AsrTranscribeResult) :=
  Promise_all
    (List.map (fun req => ([EvTranscribe name (rq_mediatype req)], transcribe client req))
              requests).

(** [reduce((sum, s) => sum + confidence(s), 0)] *)
Definition sum_confidence {A} (confidence : A -> float) (l : list A) : float :=
  fold_left (fun sum s => (sum + confidence s)%float) l 0%float.

Module Nvidia.

(** [NvidiaWord], [NvidiaSegment], [NvidiaTranscribeResponse]
    ([src/types/nvidia.ts]) *)
Record NvidiaWord : Type := mkNvidiaWord {
  nw_word : string;
  nw_start_time : float;
  nw_end_time : float;
  nw_confidence : float
}.

Record NvidiaSegment : Type := mkNvidiaSegment {
  ns_text : string;
  ns_start_time : float;
  ns_end_time : float;
  ns_confidence : float;
  ns_speaker : option string;
  ns_words : option (list NvidiaWord)
}.

Record NvidiaTranscribeResponse : Type := mkNvidiaTranscribeResponse {
  nr_text : string;
  nr_language : string;
  nr_duration : float;
  nr_segments : option (list NvidiaSegment);
  nr_words : option (list NvidiaWord);
  nr_confidence : option float
}.

Definition transform_word (w : NvidiaWord) : AsrWord :=
  {| aw_word := nw_word w;
     aw_start := nw_start_time w;
     aw_end := nw_end_time w;
     aw_confidence := nw_confidence w |}.

(** The overall confidence of [transformResponse] (its first statements). *)
Definition overall_confidence (response : NvidiaTranscribeResponse) : float :=
  let confidence := default 0%float (nr_confidence response) in
  match nr_segments response with
  | Some segments =>
      if negb (Js.truthy_number confidence) && (0 <? length segments)%nat
      then (sum_confidence ns_confidence segments / Js.of_nat (length segments))%float
      else confidence
  | None => confidence
  end.

(** [NvidiaAsrProvider.transformResponse] *)
Definition transformResponse (defaultModel : string)
    (response : NvidiaTranscribeResponse) (processingTime : float)
    : AsrTranscribeResult :=
  {| ar_text := nr_text response;
     ar_language := nr_language response;
     ar_duration := nr_duration response;
     ar_confidence := overall_confidence response;
     ar_segments :=
       List.map
         (fun seg =>
            {| as_text := ns_text seg;
               as_start := ns_start_time seg;
               as_end := ns_end_time seg;
               as_confidence := ns_confidence seg;
               as_speaker := ns_speaker seg;
               as_words := option_map (List.map transform_word) (ns_words seg) |})
         (default [] (nr_segments response));
     ar_words := option_map (List.map transform_word) (nr_words response);
     ar_processingTime := processingTime;
     ar_provider := nvidia;
     ar_model := Some defaultModel |}.

End Nvidia.

Module Groq.

(** [GroqWord], [GroqSegment], [GroqVerboseResponse] *)
Record GroqWord : Type := mkGroqWord {
  gw_word : string;
  gw_start : float;
  gw_end : float
}.

Record GroqSegment : Type := mkGroqSegment {
  gs_id : nat;
  gs_seek : float;
  gs_start : float;
  gs_end : float;
  gs_text : string;
  gs_tokens : list nat;
  gs_temperature : float;
  gs_avg_logprob : float;
  gs_compression_ratio : float;
  gs_no_speech_prob : float
}.

Record GroqVerboseResponse : Type := mkGroqVerboseResponse {
  gr_task : string;
  gr_language : string;
  gr_duration : float;
  gr_text : string;
  gr_words : option (list GroqWord);
  gr_segments : option (list GroqSegment)
}.

Section Transform.

(** [Math.exp] *)
Context (Math_exp : float -> float).

Definition transform_words (response : GroqVerboseResponse) : option (list AsrWord) :=
  option_map
    (List.map (fun w => {| aw_word := gw_word w;
                           aw_start := gw_start w;
                           aw_end := gw_end w;
                           aw_confidence := 0.95%float |}))
    (gr_words response).

Definition transform_segment (words : option (list AsrWord)) (seg : GroqSegment)
    : AsrSegment :=
  let segmentWords :=
    option_map
      (List.filter (fun w => Js.ge (aw_start w) (gs_start seg)
                             && Js.le (aw_end w) (gs_end seg)))
      words in
  let confidence := Math_exp (gs_avg_logprob seg) in
  {| as_text := Js.trim (gs_text seg);
     as_start := gs_start seg;
     as_end := gs_end seg;
     as_confidence := Js.Math_min confidence 1%float;
     as_speaker := None;
     as_words := segmentWords |}.

(** [GroqAsrProvider.transformResponse] *)
Definition transformResponse (model : string)
    (response : GroqVerboseResponse) (processingTime : float)
    : AsrTranscribeResult :=
  let words := transform_words response in
  let segments :=
    List.map (transform_segment words) (default [] (gr_segments response)) in
  let confidence :=
    if (0 <? length segments)%nat
    then (sum_confidence as_confidence segments / Js.of_nat (length segments))%float
    else 0.95%float in
  {| ar_text := Js.trim (gr_text response);
     ar_language := gr_language response;
     ar_duration := gr_duration response;
     ar_confidence := confidence;
     ar_segments := segments;
     ar_words := words;
     ar_processingTime := processingTime;
     ar_provider := groq;
     ar_model := Some model |}.

End Transform.

End Groq.

(* ================================================================== *)
(** * Merging the records into the document
      ([enrichVconWithTranscriptions], [src/services/vcon-enricher.ts]) *)
(* ================================================================== *)

(** One iteration of its loop; the state is [newAnalyses] and the number of
    clock readings made so far. *)
Definition enrich_iteration (clock : Clock) (st : list Analysis * nat)
    (input : EnrichmentInput) : Run (list Analysis * nat) :=
  let '(newAnalyses, k) := st in
  _ ← emit (EvEnrich (ei_dialogIndex input));
  let wtf := createWtfTranscription (clock_enrich clock k) input in
  let analysis :=
    createWtfAnalysis (ei_dialogIndex input) wtf (ei_provider input) (ei_model input) in
  mret (newAnalyses ++ [as_Analysis analysis], S k).

Definition enrichVconWithTranscriptions (clock : Clock) (vcon : NormalizedVcon)
    (enrichments : list EnrichmentInput) : Run NormalizedVcon :=
  st ← for_of (enrich_iteration clock) enrichments ([], 0);
  let newAnalyses := fst st in
  mret {| n_vcon := n_vcon vcon;
          n_uuid := n_uuid vcon;
          n_created_at := n_created_at vcon;
          n_updated_at := Some (clock_updated clock);
          n_subject := n_subject vcon;
          n_parties := n_parties vcon;
          n_dialog := n_dialog vcon;
          n_analysis := n_analysis vcon ++ newAnalyses;
          n_attachments := n_attachments vcon;
          n_group := n_group vcon;
          n_redacted := n_redacted vcon;
          n_appended := n_appended vcon |}.

(* ================================================================== *)
(** * Orchestrator ([src/services/transcription.ts]) *)
(* ================================================================== *)

Record TranscriptionOptions : Type := mkTranscriptionOptions {
  to_provider : option AsrProvider;
  to_model : option string;
  to_language : option string;
  to_wordTimestamps : option bool;
  to_speakerDiarization : option bool
}.

Record Stats : Type := mkStats {
  st_dialogsProcessed : nat;
  st_dialogsSkipped : nat;
  st_dialogsFailed : nat;
  st_totalProcessingTime : float;
  st_provider : AsrProvider;
  st_model : option string
}.

(** [TranscriptionResult = TranscriptionSuccess | TranscriptionFailure] *)
Inductive TranscriptionResult : Type :=
| TranscriptionSuccess (vcon : NormalizedVcon) (stats : Stats)
| TranscriptionFailure (error : string) (details : option (list Detail)).

Definition not_configured_message (providerName : AsrProvider) : string :=
  "ASR provider '" ++ provider_name providerName
  ++ "' is not configured. Check environment variables.".

Definition no_audio_message : string := "No audio dialogs found in VCON".

Definition no_extraction_message : string :=
  "Failed to extract audio from any dialog".

(** [`dialog[${e.dialogIndex}]`] *)
Definition extraction_detail (e : ExtractionError) : Detail :=
  {| detail_path := "dialog[" ++ pretty (ee_dialogIndex e) ++ "]";
     detail_message := ee_error e |}.

(** The request built for one extracted audio. *)
Definition transcribe_request (options : option TranscriptionOptions)
    (audio : ExtractedAudio) : AsrTranscribeRequest :=
  {| rq_audioBuffer := ea_buffer audio;
     rq_mediatype := ea_mediatype audio;
     rq_language := options ≫= to_language;
     rq_options :=
       Some {| ao_punctuation := Some true;
               ao_wordTimestamps :=
                 Some (default true (options ≫= to_wordTimestamps));
               ao_speakerDiarization :=
                 Some (default false (options ≫= to_speakerDiarization));
               ao_profanityFilter := None |} |}.

(** [{ audio: req.audio, result: batchResults[i]! }] followed by the reads
    of [result.provider] and [result.model]: a missing result is
    [undefined], and reading a property of it throws a TypeError. *)
Definition enrichment_input (batchResults : list AsrTranscribeResult)
    (i : nat) (audio : ExtractedAudio) : Outcome EnrichmentInput :=
  match batchResults !! i with
  | Some result =>
      Returned {| ei_dialogIndex := ea_dialogIndex audio;
                  ei_transcription := result;
                  ei_provider := ar_provider result;
                  ei_model := ar_model result;
                  ei_audioDuration := ea_duration audio |}
  | None => Thrown (Error "Cannot read properties of undefined")
  end.

Section Orchestrator.

Context (env : Env).

(** [transcribeVcon] *)
Definition transcribeVcon (clock : Clock) (input : RawVcon)
    (options : option TranscriptionOptions) : Run TranscriptionResult :=
  let providerName := default (config_asrProvider env) (options ≫= to_provider) in
  let provider := getProvider env (Some providerName) in
  if negb (isConfigured provider)
  then mret (TranscriptionFailure (not_configured_message providerName) None)
  else
    match parseVcon env input with
    | ParseError error details => mret (TranscriptionFailure error details)
    | ParseResult vcon audioDialogs =>
        if (length audioDialogs =? 0)%nat
        then mret (TranscriptionFailure no_audio_message None)
        else
          extraction ← extractAudioFromDialogs env audioDialogs;
          if (length (extracted extraction) =? 0)%nat
          then mret (TranscriptionFailure no_extraction_message
                       (Some (List.map extraction_detail (errors extraction))))
          else
            let requests :=
              List.map (transcribe_request options) (extracted extraction) in
            batchResults ← transcribeBatch providerName provider requests;
            enrichments ←
              ([], all_outcomes
                     (imap (enrichment_input batchResults) (extracted extraction)));
            enrichedVcon ← enrichVconWithTranscriptions clock vcon enrichments;
            mret (TranscriptionSuccess enrichedVcon
                    {| st_dialogsProcessed := length (extracted extraction);
                       st_dialogsSkipped := length (skipped extraction);
                       st_dialogsFailed := length (errors extraction);
                       st_totalProcessingTime := clock_elapsed clock;
                       st_provider := providerName;
                       st_model := head batchResults ≫= ar_model |})
    end.

End Orchestrator.

(* ================================================================== *)
(** * Routes ([src/routes/transcribe.ts]) *)
(* ================================================================== *)

Record TranscribeQuerystring : Type := mkTranscribeQuerystring {
  qs_provider : option AsrProvider;
  qs_model : option string;
  qs_language : option string;
  qs_word_timestamps : option bool;
  qs_speaker_diarization : option bool
}.

Definition query_options (query : TranscribeQuerystring) : TranscriptionOptions :=
  {| to_provider := qs_provider query;
     to_model := qs_model query;
     to_language := qs_language query;
     to_wordTimestamps := qs_word_timestamps query;
     to_speakerDiarization := qs_speaker_diarization query |}.

(** The reply of [POST /transcribe]: an error with its status code, or the
    document (the statistics travel in response headers). *)
Inductive TranscribeReply : Type :=
| ReplyError (statusCode : nat) (error : string) (details : option (list Detail))
| ReplyVcon (vcon : NormalizedVcon) (stats : Stats).

(** An element of [results] in the reply of [POST /transcribe/batch]. *)
Inductive BatchItem : Type :=
| ItemSuccess (vcon : NormalizedVcon)
| ItemFailure (error : string) (details : option (list Detail)).

Definition item_success (r : BatchItem) : bool :=
  match r with
  | ItemSuccess _ => true
  | ItemFailure _ _ => false
  end.

Record BatchSummary : Type := mkBatchSummary {
  total : nat;
  succeeded : nat;
  failed : nat;
  summary_provider : string
}.

Record BatchReply : Type := mkBatchReply {
  results : list BatchItem;
  summary : BatchSummary
}.

Section Routes.

Context (env : Env).

(** The handler of [POST /transcribe]. *)
Definition transcribeRoute (clock : Clock) (body : RawVcon)
    (query : TranscribeQuerystring) : Run TranscribeReply :=
  result ← transcribeVcon env clock body (Some (query_options query));
  match result with
  | TranscriptionFailure error details =>
      let isValidationError :=
        match details with
        | Some ds => (0 <? length ds)%nat
        | None => false
        end in
      mret (ReplyError (if isValidationError then 400 else 422) error details)
  | TranscriptionSuccess vcon stats => mret (ReplyVcon vcon stats)
  end.

(** The callback of [vcons.map(async (vcon) => ...)]. *)
Definition batch_item (clock : Clock) (options : TranscriptionOptions)
    (vcon : RawVcon) : Run BatchItem :=
  result ← transcribeVcon env clock vcon (Some options);
  match result with
  | TranscriptionSuccess enriched _ => mret (ItemSuccess enriched)
  | TranscriptionFailure error details => mret (ItemFailure error details)
  end.

(** The handler of [POST /transcribe/batch]; [clocks i] are the clock
    readings of the pipeline run on the document at position [i]. *)
Definition transcribeBatchRoute (clocks : nat -> Clock) (vcons : list RawVcon)
    (query : TranscribeQuerystring) : Run BatchReply :=
  let options := query_options query in
  results ← Promise_all (imap (fun i vcon => batch_item (clocks i) options vcon) vcons);
  let succeeded := length (List.filter item_success results) in
  let failed := length results - succeeded in
  mret {| results := results;
          summary :=
            {| total := length results;
               succeeded := succeeded;
               failed := failed;
               summary_provider := provider_name (default nvidia (to_provider options)) |} |}.

End Routes.

(* ================================================================== *)
(** * Sample surroundings and documents (those of the test suites) *)
(* ================================================================== *)

Module Sample.

Fixpoint times (n : nat) (r : Regex.regex) : Regex.regex :=
  match n with
  | O => Regex.Eps
  | S n' => Regex.Seq r (times n' r)
  end.

Definition hex : Regex.regex :=
  Regex.Class ["0"; "1"; "2"; "3"; "4"; "5"; "6"; "7"; "8"; "9";
               "a"; "b"; "c"; "d"; "e"; "f"; "A"; "B"; "C"; "D"; "E"; "F"]%char.

Definition lit (c : ascii) : Regex.regex := Regex.Class [c].

(** 8-4-4-4-12 hexadecimal digits. *)
Definition uuid_re : Regex.regex :=
  Regex.Seq (times 8 hex)
    (Regex.Seq (lit "-") (Regex.Seq (times 4 hex)
      (Regex.Seq (lit "-") (Regex.Seq (times 4 hex)
        (Regex.Seq (lit "-") (Regex.Seq (times 4 hex)
          (Regex.Seq (lit "-") (times 12 hex)))))))).

(** [YYYY-MM-DDThh:mm:ss], an optional fraction, [Z]. *)
Definition datetime_re : Regex.regex :=
  let d2 := times 2 Regex.digit in
  Regex.Seq (times 4 Regex.digit)
    (Regex.Seq (lit "-") (Regex.Seq d2 (Regex.Seq (lit "-") (Regex.Seq d2
      (Regex.Seq (lit "T") (Regex.Seq d2 (Regex.Seq (lit ":") (Regex.Seq d2
        (Regex.Seq (lit ":") (Regex.Seq d2
          (Regex.Seq (Regex.Alt Regex.Eps (Regex.Seq (lit ".") (Regex.Plus Regex.digit)))
                     (lit "Z")))))))))))).

Definition messages (c : ZodCheck) : string :=
  match c with
  | ZRequired => "Required"
  | ZUuid => "Invalid uuid"
  | ZDatetime => "Invalid datetime"
  | ZUrl => "Invalid url"
  | ZEmail => "Invalid email"
  | ZArrayMin1 => "Array must contain at least 1 element(s)"
  | ZStringMin1 => "String must contain at least 1 character(s)"
  | ZNonnegative => "Number must be greater than or equal to 0"
  | ZEnum allowed received =>
      ("Invalid enum value. Expected "
       ++ String.concat " | " (List.map (fun a => "'" ++ a ++ "'") allowed)
       ++ ", received '" ++ received ++ "'")%string
  end.

(** The transcription the mocked provider of the integration tests returns. *)
Definition mockTranscribeResult (p : AsrProvider) : AsrTranscribeResult :=
  {| ar_text := "Hello, this is a test transcription.";
     ar_language := "en-US";
     ar_duration := 5%float;
     ar_confidence := 0.95%float;
     ar_segments :=
       [ {| as_text := "Hello, this is a test transcription.";
            as_start := 0%float;
            as_end := 5%float;
            as_confidence := 0.95%float;
            as_speaker := Some "0";
            as_words :=
              Some [ mkAsrWord "Hello" 0 0.5 0.98;
                     mkAsrWord "," 0.5 0.55 1;
                     mkAsrWord "this" 0.6 0.9 0.96;
                     mkAsrWord "is" 0.95 1.1 0.97;
                     mkAsrWord "a" 1.15 1.25 0.99;
                     mkAsrWord "test" 1.3 1.6 0.94;
                     mkAsrWord "transcription" 1.65 2.2 0.93;
                     mkAsrWord "." 2.2 2.25 1 ]%float |} ];
     ar_words := None;
     ar_processingTime := 1000%float;
     ar_provider := p;
     ar_model := Some "test-model" |}.

(** A backend that answers every request; only [nvidia] is configured. *)
Definition client (p : AsrProvider) : AsrProviderClient :=
  {| isConfigured := match p with nvidia => true | _ => false end;
     transcribe := fun _ => Returned (mockTranscribeResult p) |}.

(** The same, except that it answers a FLAC upload with an HTTP error, which
    [transcribe] rethrows. *)
Definition flaky_client (p : AsrProvider) : AsrProviderClient :=
  {| isConfigured := match p with nvidia => true | _ => false end;
     transcribe := fun req =>
       if String.eqb (rq_mediatype req) "audio/flac"
       then Thrown (Error "NVIDIA NIM returned 500: internal error")
       else Returned (mockTranscribeResult p) |}.

Definition env_with (clients : AsrProvider -> AsrProviderClient) : Env :=
  {| config_asrProvider := nvidia;
     config_maxAudioSizeMb := 100%float;
     zod_uuid := Regex.test uuid_re;
     zod_datetime := Regex.test datetime_re;
     zod_url := String.prefix "http";
     zod_email := Js.includes "@";
     zod_message := messages;
     (* the pipeline only measures and forwards the bytes *)
     Buffer_from_base64 := list_byte_of_string;
     number_toString := fun _ => "100";
     http_get := fun _ => Thrown (Error "connect ECONNREFUSED");
     createProvider := clients |}.

Definition env : Env := env_with client.

Definition flaky_env : Env := env_with flaky_client.

Definition clock : Clock :=
  {| clock_enrich := fun _ => "2024-01-15T10:30:01.000Z";
     clock_updated := "2024-01-15T10:30:02.000Z";
     clock_elapsed := 1200%float |}.

Definition party (name : string) : Party :=
  {| p_tel := None; p_mailto := None; p_name := Some name;
     p_uuid := None; p_role := None |}.

Definition recording_dialog (mediatype : string) (body : option string) : Dialog :=
  {| d_type := recording;
     d_start := "2024-01-15T10:30:00.000Z";
     d_duration := None;
     d_parties := inr [0];
     d_originator := None;
     d_mediatype := Some mediatype;
     d_filename := None;
     d_body := body;
     d_encoding := match body with Some _ => Some base64url | None => None end;
     d_url := None |}.

Definition text_dialog : Dialog :=
  {| d_type := text;
     d_start := "2024-01-15T10:30:00.000Z";
     d_duration := None;
     d_parties := inr [0];
     d_originator := None;
     d_mediatype := Some "text/plain";
     d_filename := None;
     d_body := Some "Hello";
     d_encoding := Some none;
     d_url := None |}.

Definition summary_analysis : Analysis :=
  {| an_type := "summary"; an_dialog := None; an_mediatype := None;
     an_filename := None; an_vendor := "other"; an_product := None;
     an_schema := None; an_body := Some (BodyText "Existing summary");
     an_encoding := None; an_url := None |}.

Definition document (uuid : option string) (dialog : option (list Dialog))
    (analysis : option (list Analysis)) : RawVcon :=
  {| raw_vcon := Some "0.0.2";
     raw_uuid := uuid;
     raw_created_at := Some "2024-01-15T10:30:00.000Z";
     raw_updated_at := None;
     raw_subject := None;
     raw_parties := Some [party "Test"];
     raw_dialog := dialog;
     raw_analysis := analysis;
     raw_attachments := None;
     raw_group := None;
     raw_redacted := None;
     raw_appended := None |}.

Definition uuid1 : string := "019371a4-1234-7000-8000-000000000001".

(** One recording with an inline body, and one earlier analysis entry. *)
Definition validVcon : RawVcon :=
  document (Some uuid1)
    (Some [text_dialog; recording_dialog "audio/wav" (Some "dGVzdA")])
    (Some [summary_analysis]).

(** A recording that declares a media type but has neither body nor url
    (the document of the enricher's unit tests). *)
Definition emptyRecordingVcon : RawVcon :=
  document (Some uuid1) (Some [recording_dialog "audio/wav" None]) (Some []).

(** A valid document without any recording (the 422 test). *)
Definition noAudioVcon : RawVcon :=
  document (Some uuid1) (Some [text_dialog]) None.

(** A recording whose upload the flaky backend rejects. *)
Definition flacVcon : RawVcon :=
  document (Some uuid1) (Some [recording_dialog "audio/flac" (Some "dGVzdA")]) None.

(** The required [uuid] is missing. *)
Definition missingUuidVcon : RawVcon :=
  document None (Some [recording_dialog "audio/wav" (Some "dGVzdA")]) None.

(** The result of the unit test on several speakers. *)
Definition multiSpeakerResult : AsrTranscribeResult :=
  {| ar_text := "Hello. Hi there.";
     ar_language := "en-US";
     ar_duration := 4%float;
     ar_confidence := 0.92%float;
     ar_segments :=
       [ mkAsrSegment "Hello." 0 1.5 0.95 (Some "0") None;
         mkAsrSegment "Hi there." 2 4 0.89 (Some "1") None ]%float;
     ar_words := None;
     ar_processingTime := 400%float;
     ar_provider := nvidia;
     ar_model := None |}.

Definition enrichment (result : AsrTranscribeResult) : EnrichmentInput :=
  {| ei_dialogIndex := 0;
     ei_transcription := result;
     ei_provider := nvidia;
     ei_model := Some "parakeet-tdt-1.1b";
     ei_audioDuration := Some 3%float |}.

(** A NIM response that reports a confidence of zero. *)
Definition zeroConfidenceResponse : Nvidia.NvidiaTranscribeResponse :=
  {| Nvidia.nr_text := "Hello";
     Nvidia.nr_language := "en-US";
     Nvidia.nr_duration := 1%float;
     Nvidia.nr_segments :=
       Some [ Nvidia.mkNvidiaSegment "Hello" 0 1 0.8 None None ]%float;
     Nvidia.nr_words := None;
     Nvidia.nr_confidence := Some 0%float |}.

(** A Groq response without segments. *)
Definition noSegmentsResponse : Groq.GroqVerboseResponse :=
  {| Groq.gr_task := "transcribe";
     Groq.gr_language := "en";
     Groq.gr_duration := 1%float;
     Groq.gr_text := " Hello ";
     Groq.gr_words := None;
     Groq.gr_segments := None |}.

(** A Groq response with one segment of average log-probability zero. *)
Definition oneSegmentResponse : Groq.GroqVerboseResponse :=
  {| Groq.gr_task := "transcribe";
     Groq.gr_language := "en";
     Groq.gr_duration := 1%float;
     Groq.gr_text := " Hello ";
     Groq.gr_words := None;
     Groq.gr_segments :=
       Some [ Groq.mkGroqSegment 0 0 0 1 " Hello " [] 0 0 1 0 ]%float |}.

(** A stand-in for [Math.exp] that is right at zero. *)
Definition exp_at_zero (x : float) : float :=
  if PrimFloat.eqb x 0%float then 1%float else PrimFloat.nan.

Definition query (p : option AsrProvider) : TranscribeQuerystring :=
  {| qs_provider := p; qs_model := None; qs_language := None;
     qs_word_timestamps := None; qs_speaker_diarization := None |}.

End Sample.

(* ================================================================== *)
(** * Notions used to state the properties *)
(* ================================================================== *)

(** The word and speaker collections of a record, empty when omitted. *)
Definition words_of (wtf : WtfTranscription) : list WtfWord :=
  default [] (wtf_words wtf).

Definition speakers_of (wtf : WtfTranscription) : gmap string WtfSpeaker :=
  default ∅ (wtf_speakers wtf).

(** The word emitted for provider word [w] at position [id]. *)
Definition word_at (speaker : option Js.Int) (id : nat) (w : AsrWord) : WtfWord :=
  {| ww_id := id;
     ww_start := aw_start w;
     ww_end := aw_end w;
     ww_text := aw_word w;
     ww_confidence := aw_confidence w;
     ww_speaker := speaker;
     ww_is_punctuation := Regex.test punctuation_re (aw_word w) |}.

(** The words nested in segments, in segment order and then in-segment
    order, each with the speaker number of its segment. *)
Definition tagged_words (segs : list AsrSegment) : list (option Js.Int * AsrWord) :=
  concat (List.map
            (fun seg => List.map (pair (speaker_number (as_speaker seg)))
                                 (default [] (as_words seg)))
            segs).

Definition flatten_words (segs : list AsrSegment) : list AsrWord :=
  List.map snd (tagged_words segs).

(** The same enrichment input with the nested words supplied pre-flattened
    in the top-level [words] field. *)
Definition with_top_level_words (input : EnrichmentInput) : EnrichmentInput :=
  let t := ei_transcription input in
  {| ei_dialogIndex := ei_dialogIndex input;
     ei_transcription :=
       {| ar_text := ar_text t;
          ar_language := ar_language t;
          ar_duration := ar_duration t;
          ar_confidence := ar_confidence t;
          ar_segments := ar_segments t;
          ar_words := Some (flatten_words (ar_segments t));
          ar_processingTime := ar_processingTime t;
          ar_provider := ar_provider t;
          ar_model := ar_model t |};
     ei_provider := ei_provider input;
     ei_model := ei_model input;
     ei_audioDuration := ei_audioDuration input |}.

Definition forget_speaker (w : WtfWord) : WtfWord :=
  {| ww_id := ww_id w;
     ww_start := ww_start w;
     ww_end := ww_end w;
     ww_text := ww_text w;
     ww_confidence := ww_confidence w;
     ww_speaker := None;
     ww_is_punctuation := ww_is_punctuation w |}.

(** The eleven punctuation tokens; the eighth is the double quote. *)
Definition punctuation_tokens : list string :=
  ["."; ","; "!"; "?"; ";"; ":"; "'"; String "034" EmptyString; "("; ")"; "-"].

(** A word's closed interval lies within a segment's closed interval. *)
Definition within (seg : AsrSegment) (w : WtfWord) : bool :=
  Js.ge (ww_start w) (as_start seg) && Js.le (ww_end w) (as_end seg).

(** The unweighted average of a list of numbers, summed left to right. *)
Definition average (l : list float) : float :=
  (fold_left PrimFloat.add l 0 / Js.of_nat (length l))%float.

(** The program's test "[low] exceeds 10% of [total]". *)
Definition exceeds_tenth (low total : nat) : bool :=
  Js.gt (Js.of_nat low) (Js.of_nat total * 0.1)%float.

(** The audio of a dialog is extracted: [extractAudioFromDialog] yields
    bytes, and they fit the configured size. *)
Definition extracts (env : Env) (dialog : Dialog) : bool :=
  match extractAudioFromDialog env dialog with
  | (_, Returned (Some (buffer, _))) =>
      negb (Js.gt (Js.of_nat (length buffer)) (maxSizeBytes env))
  | _ => false
  end.

(** The audio-bearing dialogs whose audio is extracted, with their
    positions in the document. *)
Definition extracted_dialogs (env : Env) (dialogs : list Dialog) : list (nat * Dialog) :=
  List.filter (fun '(_, dialog) => extracts env dialog) (audio_dialogs dialogs).

(** The backend of a provider answers every request. *)
Definition reachable (client : AsrProviderClient) : Prop :=
  forall req, exists result, transcribe client req = Returned result.

(** The provider a call of the pipeline selects. *)
Definition selected_provider (env : Env) (options : option TranscriptionOptions)
    : AsrProviderClient :=
  getProvider env (Some (default (config_asrProvider env) (options ≫= to_provider))).

(** The result a batch item reports for a pipeline result. *)
Definition item_of (r : TranscriptionResult) : BatchItem :=
  match r with
  | TranscriptionSuccess vcon _ => ItemSuccess vcon
  | TranscriptionFailure error details => ItemFailure error details
  end.

(** The keys under which the segments are grouped. *)
Definition speaker_keys (segments : list WtfSegment) : list string :=
  omap (fun seg => Js.String_of_Int <$> ws_speaker seg) segments.

(** The integers [from], [from + 1], ... ([len] of them). *)
Fixpoint zrange (from : Z) (len : nat) : list Z :=
  match len with
  | O => []
  | S k => from :: zrange (from + 1) k
  end.

(** The schema accepts the document. *)
Definition valid (env : Env) (input : RawVcon) : Prop :=
  exists data, VconSchema_safeParse env input = inr data.

(** What one iteration of the extraction loop adds to [extracted]. *)
Definition extraction_of (env : Env) (entry : nat * Dialog) : option ExtractedAudio :=
  let '(index, dialog) := entry in
  if isAudioDialog dialog
  then match extractAudioFromDialog env dialog with
       | (_, Returned (Some (buffer, mediatype))) =>
           if Js.gt (Js.of_nat (length buffer)) (maxSizeBytes env) then None
           else Some {| ea_dialogIndex := index;
                        ea_buffer := buffer;
                        ea_mediatype := mediatype;
                        ea_duration := d_duration dialog |}
       | _ => None
       end
  else None.

(** The analysis entry written for an enrichment input at clock reading [k]. *)
Definition analysis_of (clock : Clock) (k : nat) (input : EnrichmentInput) : Analysis :=
  as_Analysis
    (createWtfAnalysis (ei_dialogIndex input)
       (createWtfTranscription (clock_enrich clock k) input)
       (ei_provider input) (ei_model input)).

(* ================================================================== *)
(** * Further functions of the sources *)
(* ================================================================== *)

(** ** [src/utils/audio.ts] *)

(** [s.replace(/\+/g, "-").replace(/\//g, "_")] *)
Fixpoint base64_to_base64url (s : string) : string :=
  match s with
  | EmptyString => EmptyString
  | String c s' =>
      String (if Ascii.eqb c "+" then "-" else if Ascii.eqb c "/" then "_" else c)%char
             (base64_to_base64url s')
  end.

(** [s.replace(/=+$/, "")]: the string without its trailing equal signs. *)
Fixpoint strip_padding (s : string) : string :=
  match s with
  | EmptyString => EmptyString
  | String c s' =>
      match strip_padding s' with
      | EmptyString => if Ascii.eqb c "=" then EmptyString else String c EmptyString
      | t => String c t
      end
  end.

(** [encodeBase64Url]; [toString_base64] is Node's
    [buffer.toString("base64")]. *)
Definition encodeBase64Url (toString_base64 : Buffer -> string) (buffer : Buffer)
    : string :=
  strip_padding (base64_to_base64url (toString_base64 buffer)).

(** A character of the base64 alphabet. *)
Definition base64_char (c : ascii) : bool :=
  let n := nat_of_ascii c in
  ((65 <=? n) && (n <=? 90)) || ((97 <=? n) && (n <=? 122))
  || ((48 <=? n) && (n <=? 57)) || Ascii.eqb c "+" || Ascii.eqb c "/".

Fixpoint all_chars (p : ascii -> bool) (s : string) : bool :=
  match s with
  | EmptyString => true
  | String c s' => p c && all_chars p s'
  end.

(** Padded base64 text, as [toString("base64")] writes it: characters of the
    alphabet followed by at most two equal signs, a multiple of four long. *)
Definition padded_base64 (s : string) : bool :=
  let body := strip_padding s in
  all_chars base64_char body
  && (String.length s - String.length body <=? 2)
  && (String.length s mod 4 =? 0).

(** ** [src/services/audio-extractor.ts] *)

(** [validateAudio] *)
Definition validateAudio (audio : ExtractedAudio) : option string :=
  if negb (isSupportedAudioType (ea_mediatype audio))
  then Some ("Unsupported audio format: " ++ ea_mediatype audio)%string
  else if length (ea_buffer audio) <? 100
       then Some "Audio content too small, likely corrupted"
       else None.

(** What one iteration of the extraction loop adds to [errors]: the message
    for an audio dialog whose audio is not extracted. *)
Definition extraction_error_of (env : Env) (entry : nat * Dialog) : option ExtractionError :=
  let '(index, dialog) := entry in
  if isAudioDialog dialog
  then match extractAudioFromDialog env dialog with
       | (_, Returned (Some (buffer, _))) =>
           if Js.gt (Js.of_nat (length buffer)) (maxSizeBytes env)
           then Some {| ee_dialogIndex := index;
                        ee_error := ("Audio exceeds maximum size of "
                                     ++ number_toString env (config_maxAudioSizeMb env)
                                     ++ "MB")%string |}
           else None
       | (_, Returned None) =>
           Some {| ee_dialogIndex := index;
                   ee_error := "Failed to extract audio content" |}
       | (_, Thrown (Error message)) =>
           Some {| ee_dialogIndex := index; ee_error := message |}
       | (_, Thrown NonError) =>
           Some {| ee_dialogIndex := index; ee_error := "Unknown extraction error" |}
       end
  else None.

(** The events of one iteration of the extraction loop. *)
Definition extraction_trace_of (env : Env) (entry : nat * Dialog) : list Event :=
  let '(index, dialog) := entry in
  if isAudioDialog dialog
  then EvExtract index :: fst (extractAudioFromDialog env dialog)
  else [].

(** ** The language of a pattern *)

(** The strings a pattern matches from its first to its last character. *)
Inductive matches : Regex.regex -> string -> Prop :=
| matches_Eps : matches Regex.Eps EmptyString
| matches_Class cs c :
    In c cs -> matches (Regex.Class cs) (String c EmptyString)
| matches_Seq r1 r2 s1 s2 :
    matches r1 s1 -> matches r2 s2 ->
    matches (Regex.Seq r1 r2) (String.append s1 s2)
| matches_Alt_l r1 r2 s : matches r1 s -> matches (Regex.Alt r1 r2) s
| matches_Alt_r r1 r2 s : matches r2 s -> matches (Regex.Alt r1 r2) s
| matches_Star_nil r : matches (Regex.Star r) EmptyString
| matches_Star_cons r s1 s2 :
    matches r s1 -> matches (Regex.Star r) s2 ->
    matches (Regex.Star r) (String.append s1 s2).

(** A non-empty string of decimal digits. *)
Definition digits (s : string) : Prop :=
  s <> EmptyString /\ all_chars Js.is_digit s = true.

(** ** The schema as a predicate ([src/schemas/vcon.schema.ts]) *)

Definition opt_ok {A} (ok : A -> bool) (o : option A) : bool :=
  match o with
  | Some x => ok x
  | None => true
  end.

Definition party_ok (env : Env) (p : Party) : bool :=
  opt_ok (zod_email env) (p_mailto p)
  && opt_ok (zod_uuid env) (p_uuid p)
  && opt_ok (fun r => bool_decide (r ∈ party_roles)) (p_role p).

Definition dialog_ok (env : Env) (d : Dialog) : bool :=
  zod_datetime env (d_start d)
  && opt_ok (fun duration => Js.ge duration 0) (d_duration d)
  && opt_ok (zod_url env) (d_url d)
  && dialog_refinement d.

Definition analysis_ok (env : Env) (a : Analysis) : bool :=
  Js.truthy_string (an_vendor a) && opt_ok (zod_url env) (an_url a).

Definition attachment_ok (env : Env) (a : Attachment) : bool :=
  opt_ok (zod_datetime env) (at_start a)
  && Js.truthy_string (at_mediatype a)
  && opt_ok (zod_url env) (at_url a).

Definition ref_ok (env : Env) (r : VconRef) : bool :=
  zod_uuid env (ref_uuid r) && opt_ok (zod_url env) (ref_url r).

(** What [VconSchema] asks of a document: the four required members, a
    version of three dot-separated numbers, well-formed uuid and instants,
    at least one party, well-formed members of every array (for a dialog:
    a well-formed start, a duration that is not negative, a well-formed
    url, and a media type when a recording or text has a body), and at most
    one of [group], [redacted] and [appended]. *)
Definition conforms (env : Env) (raw : RawVcon) : bool :=
  opt_ok (Regex.test version_re) (raw_vcon raw) && is_some (raw_vcon raw)
  && opt_ok (zod_uuid env) (raw_uuid raw) && is_some (raw_uuid raw)
  && opt_ok (zod_datetime env) (raw_created_at raw) && is_some (raw_created_at raw)
  && opt_ok (zod_datetime env) (raw_updated_at raw)
  && opt_ok (fun ps => (1 <=? length ps) && forallb (party_ok env) ps) (raw_parties raw)
  && is_some (raw_parties raw)
  && opt_ok (forallb (dialog_ok env)) (raw_dialog raw)
  && opt_ok (forallb (analysis_ok env)) (raw_analysis raw)
  && opt_ok (forallb (attachment_ok env)) (raw_attachments raw)
  && opt_ok (forallb (ref_ok env)) (raw_group raw)
  && opt_ok (ref_ok env) (raw_redacted raw)
  && opt_ok (ref_ok env) (raw_appended raw)
  && exclusive_refinement raw.

(** An accepted document, seen as the request body it was parsed from. *)
Definition as_RawVcon (data : Vcon) : RawVcon :=
  {| raw_vcon := Some (v_vcon data);
     raw_uuid := Some (v_uuid data);
     raw_created_at := Some (v_created_at data);
     raw_updated_at := v_updated_at data;
     raw_subject := v_subject data;
     raw_parties := Some (v_parties data);
     raw_dialog := v_dialog data;
     raw_analysis := v_analysis data;
     raw_attachments := v_attachments data;
     raw_group := v_group data;
     raw_redacted := v_redacted data;
     raw_appended := v_appended data |}.

(** ** Speakers *)

(** The segment is grouped under [key]. *)
Definition speaks (key : string) (seg : WtfSegment) : bool :=
  match ws_speaker seg with
  | Some sp => String.eqb (Js.String_of_Int sp) key
  | None => false
  end.

(** The running sum of [speakerTimes] over the segments of one speaker:
    from 0, adding [end - start] segment by segment. *)
Definition talk_time (segs : list WtfSegment) : float :=
  fold_left (fun t seg => (t + (ws_end seg - ws_start seg))%float) segs 0%float.

(** The entry of the speaker map for a key and the segments grouped under
    it (none for no segment). *)
Definition speaker_entry (key : string) (mine : list WtfSegment) : option WtfSpeaker :=
  match mine with
  | [] => None
  | _ :: _ =>
      Some {| sp_id := Js.parseInt10 key;
              sp_label := "Speaker " ++ key;
              sp_segments := List.map ws_id mine;
              sp_total_time := Some (talk_time mine) |}
  end.

(** The numbers [parseInt] reads and [String] writes exactly: NaN and the
    integers of magnitude below 2^53. *)
Definition safe_integer (n : Js.Int) : Prop :=
  match n with
  | Js.NaN => True
  | Js.IntVal z => (Z.abs z < 2 ^ 53)%Z
  end.

Module SampleSpeakers.

(** A diarized result whose segments are labelled with names. *)
Definition namedSpeakersResult : AsrTranscribeResult :=
  {| ar_text := "Hello. Hi there.";
     ar_language := "en-US";
     ar_duration := 4%float;
     ar_confidence := 0.92%float;
     ar_segments :=
       [ mkAsrSegment "Hello." 0 1.5 0.95 (Some "alice") None;
         mkAsrSegment "Hi there." 2 4 0.89 (Some "bob") None ]%float;
     ar_words := None;
     ar_processingTime := 400%float;
     ar_provider := nvidia;
     ar_model := None |}.

End SampleSpeakers.

(** ** Stages of a run of the pipeline *)

(** The provider name a call selects. *)
Definition provider_of (env : Env) (options : option TranscriptionOptions) : AsrProvider :=
  default (config_asrProvider env) (options ≫= to_provider).

(** The audio-bearing dialogs of a document, with their positions. *)
Definition audio_entries (input : RawVcon) : list (nat * Dialog) :=
  audio_dialogs (default [] (raw_dialog input)).

(** The audios the extraction stage hands on. *)
Definition extracted_audios (env : Env) (input : RawVcon) : list ExtractedAudio :=
  omap (extraction_of env) (audio_entries input).

(** The events of the three stages. *)
Definition extraction_events (env : Env) (input : RawVcon) : list Event :=
  concat (List.map (extraction_trace_of env) (audio_entries input)).

Definition transcribe_events (env : Env) (options : option TranscriptionOptions)
    (input : RawVcon) : list Event :=
  List.map (fun audio => EvTranscribe (provider_of env options) (ea_mediatype audio))
           (extracted_audios env input).

Definition enrich_events (env : Env) (input : RawVcon) : list Event :=
  List.map (fun audio => EvEnrich (ea_dialogIndex audio)) (extracted_audios env input).

(** The document with the new analysis entries and the stamp. *)
Definition merged (clock : Clock) (vcon : NormalizedVcon)
    (enrichments : list EnrichmentInput) : NormalizedVcon :=
  {| n_vcon := n_vcon vcon;
     n_uuid := n_uuid vcon;
     n_created_at := n_created_at vcon;
     n_updated_at := Some (clock_updated clock);
     n_subject := n_subject vcon;
     n_parties := n_parties vcon;
     n_dialog := n_dialog vcon;
     n_analysis := n_analysis vcon ++ imap (analysis_of clock) enrichments;
     n_attachments := n_attachments vcon;
     n_group := n_group vcon;
     n_redacted := n_redacted vcon;
     n_appended := n_appended vcon |}.

(** The enrichment input for an extracted audio and its result. *)
Definition enrichment_for (audio : ExtractedAudio) (result : AsrTranscribeResult)
    : EnrichmentInput :=
  {| ei_dialogIndex := ea_dialogIndex audio;
     ei_transcription := result;
     ei_provider := ar_provider result;
     ei_model := ar_model result;
     ei_audioDuration := ea_duration audio |}.

Definition is_backend_event (ev : Event) : bool :=
  match ev with
  | EvTranscribe _ _ | EvEnrich _ => true
  | EvExtract _ | EvHttpGet _ => false
  end.

Definition is_enrich_event (ev : Event) : bool :=
  match ev with
  | EvEnrich _ => true
  | _ => false
  end.

(** ** Provider responses seen through the enrichment *)

(** The record word written for the Whisper word at position [i]. *)
Definition whisper_word (i : nat) (w : Groq.GroqWord) : WtfWord :=
  {| ww_id := i;
     ww_start := Groq.gw_start w;
     ww_end := Groq.gw_end w;
     ww_text := Groq.gw_word w;
     ww_confidence := 0.95%float;
     ww_speaker := None;
     ww_is_punctuation := Regex.test punctuation_re (Groq.gw_word w) |}.

(** The Whisper word lies within the Whisper segment. *)
Definition whisper_within (seg : Groq.GroqSegment) (w : Groq.GroqWord) : bool :=
  Js.ge (Groq.gw_start w) (Groq.gs_start seg) && Js.le (Groq.gw_end w) (Groq.gs_end seg).

Module SampleWhisper.

(** A verbose Whisper response: two segments, three words. *)
Definition response : Groq.GroqVerboseResponse :=
  {| Groq.gr_task := "transcribe";
     Groq.gr_language := "english";
     Groq.gr_duration := 4%float;
     Groq.gr_text := " Hello there. Bye.";
     Groq.gr_words :=
       Some [ Groq.mkGroqWord "Hello" 0 0.5; Groq.mkGroqWord "there." 0.5 1;
              Groq.mkGroqWord "Bye." 2 2.5 ]%float;
     Groq.gr_segments :=
       Some [ Groq.mkGroqSegment 0 0 0 1 " Hello there." [] 0 (-0.25) 1 0.01;
              Groq.mkGroqSegment 1 0 2 3 " Bye." [] 0 (-0.5) 1 0.01 ]%float |}.

(** A stand-in for [Math.exp], exact at the sample's arguments' sign only:
    the pipeline forwards and clamps its value. *)
Definition exp (x : float) : float := if PrimFloat.ltb x 0 then 0.75%float else 1%float.

End SampleWhisper.

(** The words of a NIM response that the enrichment reads: the top-level
    ones if the response has them, else the nested ones, segment by
    segment. *)
Definition nim_words (response : Nvidia.NvidiaTranscribeResponse) : list Nvidia.NvidiaWord :=
  default
    (concat (List.map (fun seg => default [] (Nvidia.ns_words seg))
                      (default [] (Nvidia.nr_segments response))))
    (Nvidia.nr_words response).

Module SampleNim.

(** A NIM response whose words are nested in its one segment. *)
Definition response : Nvidia.NvidiaTranscribeResponse :=
  {| Nvidia.nr_text := "Hello world";
     Nvidia.nr_language := "en-US";
     Nvidia.nr_duration := 1%float;
     Nvidia.nr_segments :=
       Some [ Nvidia.mkNvidiaSegment "Hello world" 0 1 0.9 (Some "0")
                (Some [ Nvidia.mkNvidiaWord "Hello" 0 0.5 0.9;
                        Nvidia.mkNvidiaWord "world" 0.5 1 0.6 ]) ]%float;
     Nvidia.nr_words := None;
     Nvidia.nr_confidence := Some 0.9%float |}.

End SampleNim.

(** ** The provider factory and its cache ([src/providers/index.ts]) *)

#[global] Instance AsrProvider_eq_dec : EqDecision AsrProvider.
Proof. solve_decision. Defined.

Definition provider_index (p : AsrProvider) : nat :=
  match p with
  | nvidia => 0
  | openai => 1
  | deepgram => 2
  | groq => 3
  | local_whisper => 4
  | mlx_whisper => 5
  end.

Definition provider_at (n : nat) : option AsrProvider :=
  match n with
  | 0 => Some nvidia
  | 1 => Some openai
  | 2 => Some deepgram
  | 3 => Some groq
  | 4 => Some local_whisper
  | 5 => Some mlx_whisper
  | _ => None
  end.

#[global] Instance AsrProvider_countable : Countable AsrProvider.
Proof. refine (inj_countable provider_index provider_at _). by intros []. Defined.


(** [getProvider], with the module-level map [providers] as state: the cached instance if there is
    one, else a new one, which is stored. *)
Definition getProvider_cached (env : Env) (provider : option AsrProvider)
    (providers : gmap AsrProvider AsrProviderClient)
    : AsrProviderClient * gmap AsrProvider AsrProviderClient :=
  let providerName := default (config_asrProvider env) provider in
  match providers !! providerName with
  | Some instance => (instance, providers)
  | None =>
      let instance := createProvider env providerName in
      (instance, <[providerName := instance]> providers)
  end.

(** [clearProviderCache] *)
Definition clearProviderCache (providers : gmap AsrProvider AsrProviderClient)
    : gmap AsrProvider AsrProviderClient := ∅.

(** The map once the module is loaded: [defaultProvider = getProvider()]. *)
Definition loaded_cache (env : Env) : gmap AsrProvider AsrProviderClient :=
  snd (getProvider_cached env None ∅).

(** The [allProviders] array of the two listing functions. *)
Definition allProviders : list AsrProvider :=
  [nvidia; openai; deepgram; groq; local_whisper; mlx_whisper].

(** [getAvailableProviders] *)
Definition getAvailableProviders (env : Env) : list AsrProviderClient :=
  List.filter isConfigured (List.map (createProvider env) allProviders).

(** [getConfiguredProviderNames] *)
Definition getConfiguredProviderNames (env : Env) : list AsrProvider :=
  List.filter (fun name => isConfigured (createProvider env name)) allProviders.

(** A call of the factory by the rest of the program. *)
Inductive FactoryCall : Type :=
| CallGet (provider : option AsrProvider)
| CallClear.

(** The calls in order: the instances handed out, and the map at the end. *)
Fixpoint factory_run (env : Env) (calls : list FactoryCall)
    (providers : gmap AsrProvider AsrProviderClient)
    : list AsrProviderClient * gmap AsrProvider AsrProviderClient :=
  match calls with
  | [] => ([], providers)
  | CallGet provider :: rest =>
      let '(instance, providers) := getProvider_cached env provider providers in
      let '(instances, providers) := factory_run env rest providers in
      (instance :: instances, providers)
  | CallClear :: rest => factory_run env rest (clearProviderCache providers)
  end.

(** The providers asked for by a sequence of calls. *)
Definition requested (calls : list FactoryCall) : list (option AsrProvider) :=
  omap (fun call => match call with
                    | CallGet provider => Some provider
                    | CallClear => None
                    end) calls.

(** Every cached instance is the one [createProvider] builds for its name. *)
Definition cache_consistent (env : Env) (providers : gmap AsrProvider AsrProviderClient) : Prop :=
  forall name instance,
    providers !! name = Some instance -> instance = createProvider env name.

(** ** A document the schema rejects for a number *)

Module SampleDuration.

(** The recording of the valid document, with a duration below 0. *)
Definition negativeDurationVcon : RawVcon :=
  Sample.document (Some Sample.uuid1)
    (Some [ {| d_type := recording;
               d_start := "2024-01-15T10:30:00.000Z";
               d_duration := Some (-1)%float;
               d_parties := inr [0];
               d_originator := None;
               d_mediatype := Some "audio/wav";
               d_filename := None;
               d_body := Some "dGVzdA";
               d_encoding := Some base64url;
               d_url := None |} ])
    None.

End SampleDuration.

(* ================================================================== *)
(** * Lists built with a running index *)
(* ================================================================== *)

Lemma imap_map {A B C} (f : nat -> B -> C) (g : A -> B) (l : list A) :
  imap f (List.map g l) = imap (fun i x => f i (g x)) l.
Proof.
  revert f. induction l as [|x l IH]; intros f; simpl; [done|].
  by rewrite IH.
Qed.

Lemma map_imap_list {A B C} (g : B -> C) (f : nat -> A -> B) (l : list A) :
  List.map g (imap f l) = imap (fun i x => g (f i x)) l.
Proof.
  revert f. induction l as [|x l IH]; intros f; simpl; [done|].
  by rewrite IH.
Qed.

Lemma imap_const_map {A B} (f : A -> B) (l : list A) :
  imap (fun _ => f) l = List.map f l.
Proof. induction l as [|x l IH]; simpl; [done|]. by rewrite <- IH. Qed.

Lemma imap_index {A} (l : list A) (n : nat) :
  imap (fun i _ => n + i) l = seq n (length l).
Proof.
  revert n. induction l as [|x l IH]; intros n; simpl; [done|].
  rewrite Nat.add_0_r. f_equal. rewrite <- IH.
  apply imap_ext. intros i y _. simpl. lia.
Qed.

Lemma In_imap {A B} (f : nat -> A -> B) (l : list A) (y : B) :
  In y (imap f l) <-> exists i x, l !! i = Some x /\ y = f i x.
Proof.
  rewrite <- list_elem_of_In, list_elem_of_lookup. split.
  - intros [i Hi]. rewrite list_lookup_imap in Hi.
    destruct (l !! i) as [x|] eqn:Hx; simplify_eq/=. eauto.
  - intros (i & x & Hx & ->). exists i. by rewrite list_lookup_imap, Hx.
Qed.

(* ================================================================== *)
(** * Words: what the two loops build *)
(* ================================================================== *)

Lemma push_word_fold speaker ws acc n :
  fold_left (push_word speaker) ws (acc, n)
  = (acc ++ imap (fun i => word_at speaker (n + i)) ws, n + length ws).
Proof.
  revert acc n. induction ws as [|w ws IH]; intros acc n; simpl.
  - by rewrite app_nil_r, Nat.add_0_r.
  - rewrite IH, <- app_assoc. simpl. rewrite Nat.add_0_r. f_equal; [|lia].
    do 2 f_equal. apply imap_ext. intros i x _. simpl. f_equal. lia.
Qed.

Lemma push_segments_fold segs acc n :
  fold_left push_segment_words segs (acc, n)
  = (acc ++ imap (fun i p => word_at (fst p) (n + i) (snd p)) (tagged_words segs),
     n + length (tagged_words segs)).
Proof.
  revert acc n. induction segs as [|seg segs IH]; intros acc n.
  - simpl. by rewrite app_nil_r, Nat.add_0_r.
  - cbn [fold_left]. unfold tagged_words. cbn [List.map concat].
    fold (tagged_words segs).
    assert (push_segment_words (acc, n) seg
            = (acc ++ imap (fun i => word_at (speaker_number (as_speaker seg)) (n + i))
                           (default [] (as_words seg)),
               n + length (default [] (as_words seg)))) as ->.
    { unfold push_segment_words. destruct (as_words seg) as [ws|]; simpl.
      - apply push_word_fold.
      - by rewrite app_nil_r, Nat.add_0_r. }
    rewrite IH, imap_app, imap_map, <- app_assoc, length_app, length_map.
    f_equal; [|lia]. do 2 f_equal.
    apply imap_ext. intros i p _. simpl. f_equal. lia.
Qed.

(** The word collection when the result has top-level words. *)
Lemma build_words_top t ws :
  ar_words t = Some ws ->
  build_words t = imap (word_at None) ws.
Proof.
  intros H. unfold build_words. rewrite H, push_word_fold. done.
Qed.

(** The word collection when the words are nested in the segments. *)
Lemma build_words_nested t :
  ar_words t = None ->
  build_words t
  = imap (fun i p => word_at (fst p) i (snd p)) (tagged_words (ar_segments t)).
Proof.
  intros H. unfold build_words. rewrite H, push_segments_fold. done.
Qed.

(** In both cases a word is emitted from a provider word at its position. *)
Lemma build_words_lookup t k w :
  build_words t !! k = Some w ->
  exists speaker a, w = word_at speaker k a.
Proof.
  destruct (ar_words t) as [ws|] eqn:H.
  - rewrite (build_words_top _ _ H), list_lookup_imap.
    destruct (ws !! k) as [a|]; intros; simplify_eq/=. eauto.
  - rewrite (build_words_nested _ H), list_lookup_imap.
    destruct (tagged_words (ar_segments t) !! k) as [p|]; intros; simplify_eq/=. eauto.
Qed.

Lemma build_words_id t k w :
  build_words t !! k = Some w -> ww_id w = k.
Proof. intros H. by destruct (build_words_lookup _ _ _ H) as (? & ? & ->). Qed.

Lemma build_words_ids t :
  List.map ww_id (build_words t) = seq 0 (length (build_words t)).
Proof.
  destruct (ar_words t) as [ws|] eqn:H.
  - rewrite (build_words_top _ _ H), map_imap_list, length_imap.
    apply (imap_index ws 0).
  - rewrite (build_words_nested _ H), map_imap_list, length_imap.
    apply (imap_index _ 0).
Qed.

(** The record's word collection is the one the loops built. *)
Lemma words_of_create now input :
  words_of (createWtfTranscription now input)
  = build_words (ei_transcription input).
Proof.
  unfold words_of, createWtfTranscription. cbn [wtf_words].
  by destruct (build_words (ei_transcription input)).
Qed.

Lemma segments_of_create now input :
  wtf_segments (createWtfTranscription now input)
  = build_segments (build_words (ei_transcription input))
                   (ar_segments (ei_transcription input)).
Proof. done. Qed.

(** The provider words an enrichment processes: the top-level ones if
    present, else the nested ones flattened. *)
Lemma build_words_source t k a :
  default (flatten_words (ar_segments t)) (ar_words t) !! k = Some a ->
  exists speaker, build_words t !! k = Some (word_at speaker k a).
Proof.
  destruct (ar_words t) as [ws|] eqn:H; simpl; intros Ha.
  - exists None. by rewrite (build_words_top _ _ H), list_lookup_imap, Ha.
  - unfold flatten_words in Ha.
    change (List.map snd ?l) with (snd <$> l) in Ha.
    rewrite list_lookup_fmap in Ha.
    destruct (tagged_words (ar_segments t) !! k) as [[sp a']|] eqn:Hk;
      simplify_eq/=.
    exists sp. by rewrite (build_words_nested _ H), list_lookup_imap, Hk.
Qed.

(* ================================================================== *)
(** * The punctuation pattern *)
(* ================================================================== *)

Lemma test_Void s : Regex.test Regex.Void s = false.
Proof. induction s; simpl; auto. Qed.

Lemma test_Eps s : Regex.test Regex.Eps s = true <-> s = EmptyString.
Proof.
  destruct s; simpl; [done|]. rewrite test_Void. split; discriminate.
Qed.

Lemma in_class_In c cs : Regex.in_class c cs = true <-> In c cs.
Proof.
  unfold Regex.in_class. rewrite existsb_exists. split.
  - intros (x & Hx & Heq). apply Ascii.eqb_eq in Heq. by subst.
  - intros H. exists c. split; [done|]. apply Ascii.eqb_refl.
Qed.

(** A pattern that is one character class matches exactly the strings of
    one character of the class. *)
Lemma test_Class cs s :
  Regex.test (Regex.Class cs) s = true
  <-> exists c, s = String c EmptyString /\ In c cs.
Proof.
  destruct s as [|c s]; simpl.
  - split; [discriminate|]. by intros (c & ? & _).
  - destruct (Regex.in_class c cs) eqn:Hc.
    + rewrite test_Eps. apply in_class_In in Hc. split.
      * intros ->. eauto.
      * by intros (c' & [= -> ->] & _).
    + rewrite test_Void. split; [discriminate|].
      intros (c' & [= -> ->] & Hin). apply in_class_In in Hin. congruence.
Qed.

Lemma punctuation_test s :
  Regex.test punctuation_re s = true <-> s ∈ punctuation_tokens.
Proof.
  unfold punctuation_re. rewrite test_Class, list_elem_of_In.
  change punctuation_tokens
    with (List.map (fun c => String c EmptyString) punctuation_class).
  rewrite in_map_iff. split.
  - intros (c & -> & Hc). eauto.
  - intros (c & <- & Hc). eauto.
Qed.

(* ================================================================== *)
(** * Segments *)
(* ================================================================== *)

Lemma build_segments_lookup words segs i seg :
  segs !! i = Some seg ->
  build_segments words segs !! i = Some (build_segment words i seg).
Proof. intros H. unfold build_segments. by rewrite list_lookup_imap, H. Qed.

Lemma build_segments_ids words segs :
  List.map ws_id (build_segments words segs) = seq 0 (length (build_segments words segs)).
Proof.
  unfold build_segments. rewrite map_imap_list, length_imap. simpl.
  apply (imap_index segs 0).
Qed.

(** The [words] member of a built segment, read as a list. *)
Lemma build_segment_words words i seg :
  default [] (ws_words (build_segment words i seg))
  = List.map ww_id (List.filter (within seg) words).
Proof.
  unfold build_segment. cbn [ws_words]. fold (within seg).
  by destruct (List.map ww_id (List.filter (within seg) words)).
Qed.

Lemma build_segment_words_nonempty words i seg :
  ws_words (build_segment words i seg) <> Some [].
Proof.
  unfold build_segment. cbn [ws_words].
  destruct (List.map ww_id _); simpl; discriminate.
Qed.

(** Membership in the identifiers selected by a predicate, when every word
    carries its position as identifier. *)
Lemma selected_ids (P : WtfWord -> bool) (words : list WtfWord) k :
  (forall j w, words !! j = Some w -> ww_id w = j) ->
  k ∈ List.map ww_id (List.filter P words)
  <-> exists w, words !! k = Some w /\ P w = true.
Proof.
  intros Hid. rewrite list_elem_of_In, in_map_iff. split.
  - intros (w & <- & Hw). apply filter_In in Hw as [Hw HP].
    apply list_elem_of_In, list_elem_of_lookup in Hw as [j Hj].
    rewrite (Hid _ _ Hj). eauto.
  - intros (w & Hw & HP). exists w. split; [by apply Hid|].
    apply filter_In. split; [|done].
    apply list_elem_of_In, list_elem_of_lookup. eauto.
Qed.

Lemma filter_nil_iff {A} (P : A -> bool) (l : list A) :
  List.filter P l = [] <-> forall x, x ∈ l -> P x = false.
Proof.
  induction l as [|x l IH]; simpl.
  - split; [|done]. intros _ y Hy. by apply elem_of_nil in Hy.
  - destruct (P x) eqn:HP.
    + split; [discriminate|]. intros H.
      specialize (H x (list_elem_of_here _ _)). congruence.
    + rewrite IH. split.
      * intros H y Hy. apply elem_of_cons in Hy as [->|Hy]; auto.
      * intros H y Hy. apply H. by apply list_elem_of_further.
Qed.

(* ================================================================== *)
(** * Properties of the enrichment engine *)
(* ================================================================== *)

Lemma tagged_words_no_speaker segs :
  (forall seg, seg ∈ segs -> Js.truthy_opt_string (as_speaker seg) = false) ->
  forall p, p ∈ tagged_words segs -> fst p = None.
Proof.
  induction segs as [|seg segs IH]; intros Hs p Hp.
  - by apply elem_of_nil in Hp.
  - unfold tagged_words in Hp. cbn [List.map concat] in Hp.
    apply elem_of_app in Hp as [Hp|Hp].
    + apply list_elem_of_In, in_map_iff in Hp as (a & <- & _). simpl.
      unfold speaker_number. by rewrite (Hs seg (list_elem_of_here _ _)).
    + apply IH; [|done]. intros s Hin. apply Hs. by apply list_elem_of_further.
Qed.

(** C2 (as amended).  For a result whose words are only nested in segments,
    enrichment emits one word per nested word, in segment order and then
    in-segment order, with identifiers 0, 1, 2, ... and the speaker number
    of its segment; enriching the variant with the same words pre-flattened
    at top level gives the same collection except that no word carries a
    speaker.  The two collections are equal when no segment has a
    (non-empty) speaker label. *)
Theorem C2_nested_words_flattened now input :
  ar_words (ei_transcription input) = None ->
  let segs := ar_segments (ei_transcription input) in
  let nested := createWtfTranscription now input in
  let flat := createWtfTranscription now (with_top_level_words input) in
  words_of nested = imap (fun i p => word_at (fst p) i (snd p)) (tagged_words segs)
  /\ words_of flat = imap (word_at None) (flatten_words segs)
  /\ words_of flat = List.map forget_speaker (words_of nested)
  /\ List.map ww_id (words_of nested) = seq 0 (length (flatten_words segs))
  /\ ((forall seg, seg ∈ segs -> Js.truthy_opt_string (as_speaker seg) = false) ->
      wtf_words flat = wtf_words nested).
Proof.
  intros Hnone segs nested flat.
  assert (words_of nested
          = imap (fun i p => word_at (fst p) i (snd p)) (tagged_words segs)) as Hn.
  { unfold nested. rewrite words_of_create. by apply build_words_nested. }
  assert (words_of flat = imap (word_at None) (flatten_words segs)) as Hf.
  { unfold flat. rewrite words_of_create. by apply build_words_top. }
  assert (words_of flat = List.map forget_speaker (words_of nested)) as Hfn.
  { rewrite Hf, Hn, map_imap_list. unfold flatten_words. by rewrite imap_map. }
  split_and!; try done.
  - unfold nested. rewrite words_of_create, build_words_ids.
    rewrite (build_words_nested _ Hnone), length_imap.
    unfold flatten_words. by rewrite length_map.
  - intros Hs.
    assert (words_of flat = words_of nested) as Heq.
    { rewrite Hf, Hn. unfold flatten_words. rewrite imap_map.
      apply imap_ext. intros i p Hp. simpl.
      by rewrite (tagged_words_no_speaker segs Hs p
                    (proj2 (list_elem_of_lookup _ _) (ex_intro _ i Hp))). }
    unfold words_of in Heq. unfold flat, nested in *.
    unfold createWtfTranscription in *. cbn [wtf_words] in *.
    destruct (build_words (ei_transcription (with_top_level_words input)));
      destruct (build_words (ei_transcription input)); simpl in *; congruence.
Qed.

(** The amended C2 on the result of the mocked provider. *)
Lemma C2_nested_words_flattened_witness :
  let input := Sample.enrichment (Sample.mockTranscribeResult nvidia) in
  List.map ww_id (words_of (createWtfTranscription "t" input)) = seq 0 8.
Proof.
  intros input.
  exact (proj1 (proj2 (proj2 (proj2
    (C2_nested_words_flattened "t" input eq_refl))))).
Defined.

(** C2 as stated fails: on the result of the mocked provider, whose one
    segment is tagged with speaker "0", the nested words carry speaker 0
    and the pre-flattened ones carry none. *)
Lemma C2_counterexample :
  let input := Sample.enrichment (Sample.mockTranscribeResult nvidia) in
  ar_words (ei_transcription input) = None
  /\ wtf_words (createWtfTranscription "t" (with_top_level_words input))
     <> wtf_words (createWtfTranscription "t" input).
Proof.
  split; [done|]. intros H.
  apply (f_equal (fun o => List.map ww_speaker (default [] o))) in H.
  vm_compute in H. discriminate.
Qed.

(** C5.  Every provider word processed by enrichment is emitted at its
    position with its text, and its punctuation flag is set exactly when the
    whole text is one of the eleven tokens; a comma is punctuation, "don't"
    is not. *)
Theorem C5_punctuation_whole_token now input k a :
  let t := ei_transcription input in
  default (flatten_words (ar_segments t)) (ar_words t) !! k = Some a ->
  exists w,
    words_of (createWtfTranscription now input) !! k = Some w
    /\ ww_text w = aw_word a
    /\ (ww_is_punctuation w = true <-> aw_word a ∈ punctuation_tokens)
    /\ (aw_word a = "," -> ww_is_punctuation w = true)
    /\ (aw_word a = "don't" -> ww_is_punctuation w = false).
Proof.
  intros t Ha. destruct (build_words_source _ _ _ Ha) as [speaker Hw].
  exists (word_at speaker k a). rewrite words_of_create.
  split_and!; try done.
  - apply punctuation_test.
  - simpl. by intros ->.
  - simpl. by intros ->.
Qed.

(** C5 on the comma of the mocked provider's result. *)
Lemma C5_punctuation_whole_token_witness :
  exists w,
    words_of (createWtfTranscription "t"
                (Sample.enrichment (Sample.mockTranscribeResult nvidia))) !! 1
    = Some w
    /\ ww_text w = "," /\ ww_is_punctuation w = true.
Proof.
  destruct (C5_punctuation_whole_token "t"
              (Sample.enrichment (Sample.mockTranscribeResult nvidia)) 1
              (mkAsrWord "," 0.5 0.55 1) eq_refl)
    as (w & Hw & Htext & _ & Hcomma & _).
  exists w. split_and!; [exact Hw | exact Htext | exact (Hcomma eq_refl)].
Defined.

(** C6.  The segment built from the provider segment at position [i] has
    identifier [i]; its word list holds the identifiers of exactly the built
    words whose closed interval lies within the segment's closed interval,
    and the member is omitted, never an empty list, when there is none. *)
Theorem C6_segment_word_membership now input i seg :
  ar_segments (ei_transcription input) !! i = Some seg ->
  let out := createWtfTranscription now input in
  exists ws,
    wtf_segments out !! i = Some ws
    /\ ws_id ws = i
    /\ default [] (ws_words ws)
       = List.map ww_id (List.filter (within seg) (words_of out))
    /\ (forall k, k ∈ default [] (ws_words ws)
                  <-> exists w, words_of out !! k = Some w /\ within seg w = true)
    /\ (ws_words ws = None
        <-> forall w, w ∈ words_of out -> within seg w = false)
    /\ ws_words ws <> Some [].
Proof.
  intros Hseg out. unfold out. rewrite words_of_create, segments_of_create.
  set (words := build_words (ei_transcription input)).
  exists (build_segment words i seg).
  split_and!.
  - by apply build_segments_lookup.
  - done.
  - apply build_segment_words.
  - intros k. rewrite build_segment_words. apply selected_ids.
    intros j w. apply build_words_id.
  - rewrite <- filter_nil_iff.
    pose proof (build_segment_words words i seg) as Hw.
    pose proof (build_segment_words_nonempty words i seg) as Hne.
    destruct (ws_words (build_segment words i seg)) as [ids|]; simpl in Hw.
    + split; [discriminate|]. intros Hnil. rewrite Hnil in Hw. simpl in Hw.
      congruence.
    + split; [|done]. intros _.
      destruct (List.filter (within seg) words); [done|discriminate].
  - apply build_segment_words_nonempty.
Qed.

(** C6 on the single segment of the mocked provider's result: all eight
    words lie within it. *)
Lemma C6_segment_word_membership_witness :
  exists ws,
    wtf_segments (createWtfTranscription "t"
                    (Sample.enrichment (Sample.mockTranscribeResult nvidia))) !! 0
    = Some ws
    /\ ws_id ws = 0
    /\ default [] (ws_words ws) = [0; 1; 2; 3; 4; 5; 6; 7].
Proof.
  destruct (C6_segment_word_membership "t"
              (Sample.enrichment (Sample.mockTranscribeResult nvidia)) 0 _ eq_refl)
    as (ws & H1 & H2 & H3 & _).
  exists ws. split_and!; [exact H1 | exact H2 | exact H3].
Defined.

(** C10.  In every record produced by enrichment the word identifiers are
    0..n-1 in array order, the segment identifiers are the segment
    positions, both without repetition, and every index in a segment's word
    list is the position of a word of the collection. *)
Theorem C10_identifiers now input :
  let out := createWtfTranscription now input in
  List.map ww_id (words_of out) = seq 0 (length (words_of out))
  /\ NoDup (List.map ww_id (words_of out))
  /\ List.map ws_id (wtf_segments out) = seq 0 (length (wtf_segments out))
  /\ NoDup (List.map ws_id (wtf_segments out))
  /\ (forall s k, s ∈ wtf_segments out -> k ∈ default [] (ws_words s) ->
        k < length (words_of out)
        /\ exists w, words_of out !! k = Some w /\ ww_id w = k).
Proof.
  intros out. unfold out. rewrite words_of_create, segments_of_create.
  set (words := build_words (ei_transcription input)).
  split_and!.
  - apply build_words_ids.
  - unfold words. rewrite build_words_ids. apply NoDup_ListNoDup, seq_NoDup.
  - apply build_segments_ids.
  - rewrite build_segments_ids. apply NoDup_ListNoDup, seq_NoDup.
  - intros s k Hs Hk. unfold build_segments in Hs.
    apply list_elem_of_In, In_imap in Hs as (i & seg & _ & ->).
    rewrite build_segment_words in Hk.
    apply selected_ids in Hk as (w & Hw & _);
      [|intros j w'; apply build_words_id].
    split; [by apply lookup_lt_Some in Hw|].
    exists w. split; [done|]. by apply build_words_id in Hw.
Qed.

(** C10 on the mocked provider's result. *)
Lemma C10_identifiers_witness :
  List.map ww_id (words_of (createWtfTranscription "t"
             (Sample.enrichment (Sample.mockTranscribeResult nvidia))))
  = seq 0 8.
Proof.
  exact (proj1 (C10_identifiers "t"
                  (Sample.enrichment (Sample.mockTranscribeResult nvidia)))).
Defined.

(* ================================================================== *)
(** * Speakers and quality *)
(* ================================================================== *)

Lemma speaker_step_dom st seg :
  dom (fst (speaker_step st seg))
  = dom (fst st) ∪ list_to_set (speaker_keys [seg]).
Proof.
  destruct st as [m1 m2]. unfold speaker_step, speaker_keys. simpl.
  destruct (ws_speaker seg) as [sp|]; simpl; [|set_solver].
  destruct (m1 !! Js.String_of_Int sp) eqn:Hk; simpl.
  - rewrite dom_alter_L. apply (elem_of_dom_2 (D := gset string)) in Hk. set_solver.
  - rewrite dom_alter_L, dom_insert_L. set_solver.
Qed.

Lemma speaker_fold_dom segments st :
  dom (fst (fold_left speaker_step segments st))
  = dom (fst st) ∪ list_to_set (speaker_keys segments).
Proof.
  revert st. induction segments as [|seg segments IH]; intros st.
  - simpl. set_solver.
  - cbn [fold_left]. rewrite IH, speaker_step_dom.
    unfold speaker_keys. simpl.
    destruct (ws_speaker seg); simpl; set_solver.
Qed.

(** The speaker map has one entry per distinct key. *)
Lemma build_speakers_dom segments :
  dom (build_speakers segments) = list_to_set (speaker_keys segments).
Proof.
  unfold build_speakers.
  pose proof (speaker_fold_dom segments (∅, ∅)) as Hdom.
  destruct (fold_left speaker_step segments (∅, ∅)) as [m1 m2]. simpl in Hdom.
  rewrite dom_empty_L, (left_id_L ∅ (∪)) in Hdom. rewrite <- Hdom.
  apply set_eq. intros k. rewrite !elem_of_dom, map_lookup_imap.
  destruct (m1 !! k); simpl; split; intros [? ?]; eauto; done.
Qed.

Lemma speakers_of_create now input :
  speakers_of (createWtfTranscription now input)
  = build_speakers (build_segments (build_words (ei_transcription input))
                                   (ar_segments (ei_transcription input))).
Proof.
  unfold speakers_of, createWtfTranscription. cbn [wtf_speakers].
  set (speakers := build_speakers _).
  destruct (size speakers) eqn:Hsize; simpl; [|done].
  symmetry. by apply map_size_empty_iff.
Qed.

(** The keys are the rendered speaker numbers of the provider segments. *)
Lemma speaker_keys_imap (f : nat -> AsrSegment -> WtfSegment) segs :
  (forall i seg, ws_speaker (f i seg) = speaker_number (as_speaker seg)) ->
  speaker_keys (imap f segs)
  = omap (fun seg => Js.String_of_Int <$> speaker_number (as_speaker seg)) segs.
Proof.
  revert f. induction segs as [|seg segs IH]; intros f Hf; [done|].
  unfold speaker_keys in *. cbn [imap omap list_omap].
  rewrite Hf, (IH (f ∘ S)); [done|].
  intros i s. apply Hf.
Qed.

Lemma speaker_keys_built words segs :
  speaker_keys (build_segments words segs)
  = omap (fun seg => Js.String_of_Int <$> speaker_number (as_speaker seg)) segs.
Proof. by apply speaker_keys_imap. Qed.

(** Segments tagged "0" and "1", both labels occurring: two speakers. *)
Lemma two_speakers_dom (segs : list AsrSegment) :
  (forall seg, seg ∈ segs -> as_speaker seg = Some "0" \/ as_speaker seg = Some "1") ->
  (exists seg, seg ∈ segs /\ as_speaker seg = Some "0") ->
  (exists seg, seg ∈ segs /\ as_speaker seg = Some "1") ->
  list_to_set (omap (fun seg => Js.String_of_Int <$> speaker_number (as_speaker seg)) segs)
  = ({["0"; "1"]} : gset string).
Proof.
  intros Hall (s0 & Hs0 & H0) (s1 & Hs1 & H1).
  apply set_eq. intros k. rewrite elem_of_list_to_set, list_elem_of_omap.
  split.
  - intros (seg & Hseg & Hk). destruct (Hall seg Hseg) as [E|E];
      rewrite E in Hk; vm_compute in Hk; simplify_eq; set_solver.
  - intros Hk. apply elem_of_union in Hk as [Hk|Hk];
      apply elem_of_singleton in Hk; subst k.
    + exists s0. split; [done|]. by rewrite H0.
    + exists s1. split; [done|]. by rewrite H1.
Qed.

Lemma In_zrange z from len :
  In z (zrange from len) <-> (from <= z < from + Z.of_nat len)%Z.
Proof.
  revert from. induction len as [|len IH]; intros from; simpl; [lia|].
  rewrite IH. lia.
Qed.

Lemma forallb_agree {A} (f g : A -> bool) (l : list A) :
  (forall x, In x l -> f x = g x) -> forallb f l = forallb g l.
Proof.
  induction l as [|x l IH]; intros H; simpl; [done|].
  rewrite (H x (or_introl eq_refl)), IH; [done|].
  intros y Hy. apply H. by right.
Qed.

(** The threshold test agrees with integer arithmetic on collections of up
    to a thousand words. *)
Lemma exceeds_tenth_small low total :
  low <= total -> total <= 1000 ->
  exceeds_tenth low total = (total <? 10 * low).
Proof.
  intros Hlow Htotal.
  assert (forallb
            (fun n => forallb
               (fun l => Bool.eqb (exceeds_tenth (Z.to_nat l) (Z.to_nat n))
                                  (n <? 10 * l)%Z)
               (zrange 0 (S (Z.to_nat n))))
            (zrange 0 1001) = true) as Hall.
  { unfold exceeds_tenth, Js.of_nat.
    assert (forall z, (0 <= z)%Z -> Z.of_nat (Z.to_nat z) = z) as Hz by lia.
    transitivity
      (forallb
         (fun n => forallb
            (fun l => Bool.eqb (Js.gt (of_uint63 (of_Z l)) (of_uint63 (of_Z n) * 0.1)%float)
                               (n <? 10 * l)%Z)
            (zrange 0 (S (Z.to_nat n))))
         (zrange 0 1001)); [|vm_compute; reflexivity].
    apply forallb_agree. intros n Hn. apply In_zrange in Hn.
    apply forallb_agree. intros l Hl. apply In_zrange in Hl.
    by rewrite !Hz by lia. }
  rewrite forallb_forall in Hall.
  specialize (Hall (Z.of_nat total)). rewrite In_zrange, forallb_forall in Hall.
  specialize (Hall ltac:(lia) (Z.of_nat low)). rewrite In_zrange in Hall.
  rewrite !Nat2Z.id in Hall.
  rewrite (Bool.eqb_prop _ _ (Hall ltac:(lia))).
  destruct (Z.ltb_spec (Z.of_nat total) (10 * Z.of_nat low));
    destruct (Nat.ltb_spec total (10 * low)); try done; lia.
Qed.

Lemma filter_length_le {A} (P : A -> bool) (l : list A) :
  length (List.filter P l) <= length l.
Proof. induction l as [|x l IH]; simpl; [lia|]. destruct (P x); simpl; lia. Qed.

(** C7.  The quality block: the average confidence is the result's own
    overall confidence; the low-confidence count is the number of words with
    confidence below 0.7; [multiple_speakers] holds exactly when the speaker
    map has more than one entry; the warning list is the one fixed warning
    when the low-confidence count exceeds a tenth of the word count (as the
    program computes it in binary64, which for up to a thousand words is
    [10 * low > total]) and is empty otherwise.  Segments tagged "0" and
    "1" give exactly two entries and [multiple_speakers = true]. *)
Theorem C7_quality_block now input :
  let t := ei_transcription input in
  let out := createWtfTranscription now input in
  exists q,
    wtf_quality out = Some q
    /\ q_average_confidence q = ar_confidence t
    /\ q_low_confidence_words q
       = length (List.filter (fun w => Js.lt (ww_confidence w) 0.7%float) (words_of out))
    /\ (q_multiple_speakers q = true <-> 1 < size (speakers_of out))
    /\ q_processing_warnings q
       = (if exceeds_tenth (q_low_confidence_words q) (length (words_of out))
          then [low_confidence_warning] else [])
    /\ (length (words_of out) <= 1000 ->
        (q_processing_warnings q = [low_confidence_warning]
         <-> length (words_of out) < 10 * q_low_confidence_words q)
        /\ (q_processing_warnings q = []
            <-> 10 * q_low_confidence_words q <= length (words_of out)))
    /\ ((forall seg, seg ∈ ar_segments t ->
           as_speaker seg = Some "0" \/ as_speaker seg = Some "1") ->
        (exists seg, seg ∈ ar_segments t /\ as_speaker seg = Some "0") ->
        (exists seg, seg ∈ ar_segments t /\ as_speaker seg = Some "1") ->
        size (speakers_of out) = 2 /\ q_multiple_speakers q = true).
Proof.
  intros t out. unfold out.
  rewrite words_of_create, speakers_of_create.
  unfold createWtfTranscription. cbn [wtf_quality]. fold t.
  set (words := build_words t).
  set (speakers := build_speakers (build_segments words (ar_segments t))).
  eexists. split; [reflexivity|]. unfold build_quality.
  cbn [q_average_confidence q_low_confidence_words q_multiple_speakers
       q_processing_warnings].
  set (low := length (List.filter _ words)).
  split_and!; try done.
  - by rewrite Nat.ltb_lt.
  - intros Hlen. fold (exceeds_tenth low (length words)).
    rewrite (exceeds_tenth_small low (length words));
      [|apply filter_length_le|done].
    destruct (Nat.ltb_spec (length words) (10 * low)); split; split;
      intros; simplify_eq; try done; lia.
  - intros Hall H0 H1.
    assert (size speakers = 2) as Hsize.
    { rewrite <- size_dom. unfold speakers.
      rewrite build_speakers_dom, speaker_keys_built, (two_speakers_dom _ Hall H0 H1).
      rewrite size_union, !size_singleton; [done|]. set_solver. }
    split; [done|]. rewrite Hsize. done.
Qed.

(** C7 on the two-speaker result of the unit tests. *)
Lemma C7_quality_block_witness :
  exists q,
    wtf_quality (createWtfTranscription "t" (Sample.enrichment Sample.multiSpeakerResult))
    = Some q
    /\ q_multiple_speakers q = true
    /\ size (speakers_of (createWtfTranscription "t"
                            (Sample.enrichment Sample.multiSpeakerResult))) = 2.
Proof.
  destruct (C7_quality_block "t" (Sample.enrichment Sample.multiSpeakerResult))
    as (q & Hq & _ & _ & _ & _ & _ & Htwo).
  exists q. split; [exact Hq|].
  assert (forall seg, seg ∈ ar_segments Sample.multiSpeakerResult ->
            as_speaker seg = Some "0" \/ as_speaker seg = Some "1") as Hall.
  { intros seg Hseg. apply list_elem_of_In in Hseg.
    destruct Hseg as [<-|[<-|[]]]; [left|right]; reflexivity. }
  destruct (Htwo Hall) as [Hsize Hmulti].
  - eexists. split; [apply list_elem_of_here|reflexivity].
  - eexists. split; [apply list_elem_of_further, list_elem_of_here|reflexivity].
  - split; [exact Hmulti | exact Hsize].
Defined.

(* ================================================================== *)
(** * Overall confidence of the provider translations *)
(* ================================================================== *)

Lemma sum_confidence_from {A} (confidence : A -> float) (l : list A) (acc : float) :
  fold_left (fun sum s => (sum + confidence s)%float) l acc
  = fold_left PrimFloat.add (List.map confidence l) acc.
Proof.
  revert acc. induction l as [|x l IH]; intros acc; simpl; [done|]. apply IH.
Qed.

Lemma sum_confidence_average {A} (confidence : A -> float) (l : list A) :
  (sum_confidence confidence l / Js.of_nat (length l))%float
  = average (List.map confidence l).
Proof.
  unfold average, sum_confidence. by rewrite sum_confidence_from, length_map.
Qed.

(** C8 (as amended).  NIM translation: the overall confidence is the one the
    response reports when that is a non-zero number; otherwise, when the
    response has at least one segment, the unweighted average of the
    per-segment confidences; otherwise the reported value if any, else 0.
    Groq translation: the response carries no confidence; each segment's
    confidence is min(exp(avg_logprob), 1), and the overall confidence is
    the unweighted average of these when there is at least one segment, and
    the default 0.95 otherwise. *)
Theorem C8_overall_confidence (Math_exp : float -> float) (model : string)
    (nim : Nvidia.NvidiaTranscribeResponse) (whisper : Groq.GroqVerboseResponse)
    (processingTime : float) :
  let n := Nvidia.transformResponse model nim processingTime in
  let g := Groq.transformResponse Math_exp model whisper processingTime in
  (forall c, Nvidia.nr_confidence nim = Some c -> Js.truthy_number c = true ->
             ar_confidence n = c)
  /\ (forall segs,
        Nvidia.nr_segments nim = Some segs -> segs <> [] ->
        Js.truthy_number (default 0%float (Nvidia.nr_confidence nim)) = false ->
        List.map as_confidence (ar_segments n) = List.map Nvidia.ns_confidence segs
        /\ ar_confidence n = average (List.map Nvidia.ns_confidence segs))
  /\ (default [] (Nvidia.nr_segments nim) = [] ->
      ar_confidence n = default 0%float (Nvidia.nr_confidence nim))
  /\ List.map as_confidence (ar_segments g)
     = List.map (fun s => Js.Math_min (Math_exp (Groq.gs_avg_logprob s)) 1%float)
                (default [] (Groq.gr_segments whisper))
  /\ (default [] (Groq.gr_segments whisper) <> [] ->
      ar_confidence g = average (List.map as_confidence (ar_segments g)))
  /\ (default [] (Groq.gr_segments whisper) = [] ->
      ar_confidence g = 0.95%float).
Proof.
  intros n g. split_and!.
  - intros c Hc Htruthy. unfold n. cbn [Nvidia.transformResponse ar_confidence].
    unfold Nvidia.overall_confidence. rewrite Hc. simpl. rewrite Htruthy. simpl.
    by destruct (Nvidia.nr_segments nim).
  - intros segs Hsegs Hne Hfalsy. unfold n.
    cbn [Nvidia.transformResponse ar_confidence ar_segments].
    unfold Nvidia.overall_confidence. rewrite Hsegs, Hfalsy. simpl.
    split; [by rewrite List.map_map|].
    destruct segs as [|s segs]; [done|]. cbn [length Nat.ltb Nat.leb].
    exact (sum_confidence_average Nvidia.ns_confidence (s :: segs)).
  - intros Hnil. unfold n. cbn [Nvidia.transformResponse ar_confidence].
    unfold Nvidia.overall_confidence.
    destruct (Nvidia.nr_segments nim) as [segs|]; [|done].
    simpl in Hnil. subst segs. simpl. by rewrite andb_false_r.
  - unfold g. cbn [Groq.transformResponse ar_segments]. by rewrite List.map_map.
  - intros Hne. unfold g. cbn [Groq.transformResponse ar_confidence ar_segments].
    destruct (default [] (Groq.gr_segments whisper)) as [|s segs]; [done|].
    cbn [List.map length Nat.ltb Nat.leb].
    exact (sum_confidence_average as_confidence
             (Groq.transform_segment Math_exp (Groq.transform_words whisper) s
              :: List.map (Groq.transform_segment Math_exp (Groq.transform_words whisper))
                          segs)).
  - intros Hnil. unfold g. cbn [Groq.transformResponse ar_confidence].
    by rewrite Hnil.
Qed.

(** The amended C8 on a Groq response with one segment of average
    log-probability zero: confidence min(exp 0, 1) = 1. *)
Lemma C8_overall_confidence_witness :
  ar_confidence (Groq.transformResponse Sample.exp_at_zero "whisper-large-v3"
                   Sample.oneSegmentResponse 10%float) = 1%float.
Proof.
  refine (eq_trans
    (proj1 (proj2 (proj2 (proj2 (proj2
       (C8_overall_confidence Sample.exp_at_zero "whisper-large-v3"
          Sample.zeroConfidenceResponse Sample.oneSegmentResponse 10%float)))))
       _) _).
  - discriminate.
  - reflexivity.
Defined.

(** C8 as stated fails: a NIM response that reports the confidence 0 and
    has one segment of confidence 0.8 is translated with overall confidence
    0.8, not with the reported one. *)
Lemma C8_counterexample :
  exists c,
    Nvidia.nr_confidence Sample.zeroConfidenceResponse = Some c
    /\ ar_confidence (Nvidia.transformResponse "parakeet-tdt-1.1b"
                        Sample.zeroConfidenceResponse 10%float) <> c.
Proof.
  exists 0%float. split; [reflexivity|]. intros H.
  apply (f_equal (fun x => PrimFloat.eqb x 0%float)) in H.
  vm_compute in H. discriminate.
Qed.

(* ================================================================== *)
(** * Normalization *)
(* ================================================================== *)

(** C9.  [normalizeVcon] is total and idempotent: a normalized document is
    returned as it is; a document that already has the three arrays is
    unchanged; the three arrays of the result are those of the input, or
    empty when absent, and every other member is the input's; and on every
    document the schema accepts, [parseVcon] succeeds with the normalized
    document. *)
Theorem C9_normalize_idempotent :
  (forall n, normalizeVcon (as_Vcon n) = n)
  /\ (forall v, normalizeVcon (as_Vcon (normalizeVcon v)) = normalizeVcon v)
  /\ (forall v, is_some (v_dialog v) = true -> is_some (v_analysis v) = true ->
                is_some (v_attachments v) = true ->
                as_Vcon (normalizeVcon v) = v)
  /\ (forall v,
        let n := normalizeVcon v in
        n_dialog n = default [] (v_dialog v)
        /\ n_analysis n = default [] (v_analysis v)
        /\ n_attachments n = default [] (v_attachments v)
        /\ n_vcon n = v_vcon v /\ n_uuid n = v_uuid v
        /\ n_created_at n = v_created_at v /\ n_updated_at n = v_updated_at v
        /\ n_subject n = v_subject v /\ n_parties n = v_parties v
        /\ n_group n = v_group v /\ n_redacted n = v_redacted v
        /\ n_appended n = v_appended v)
  /\ (forall env raw data,
        VconSchema_safeParse env raw = inr data ->
        exists audioDialogs,
          parseVcon env raw = ParseResult (normalizeVcon data) audioDialogs).
Proof.
  split_and!.
  - by intros [].
  - by intros [].
  - intros [? ? ? ? ? ? [d|] [a|] [t|] ? ? ?]; simpl; done.
  - intros v. by split_and!.
  - intros env raw data H. unfold parseVcon. rewrite H. eauto.
Qed.

(** C9 on the valid document of the integration tests. *)
Lemma C9_normalize_idempotent_witness :
  exists data audioDialogs,
    VconSchema_safeParse Sample.env Sample.validVcon = inr data
    /\ parseVcon Sample.env Sample.validVcon
       = ParseResult (normalizeVcon data) audioDialogs
    /\ normalizeVcon (as_Vcon (normalizeVcon data)) = normalizeVcon data.
Proof.
  destruct (VconSchema_safeParse Sample.env Sample.validVcon) as [issues|data] eqn:H;
    [vm_compute in H; discriminate|].
  destruct C9_normalize_idempotent as (_ & Hidem & _ & _ & Hparse).
  destruct (Hparse Sample.env Sample.validVcon data H) as [audio Haudio].
  exists data, audio. split_and!; [reflexivity | exact Haudio | apply Hidem].
Defined.

(* ================================================================== *)
(** * The pipeline, stage by stage *)
(* ================================================================== *)

(** ** Validation *)

Lemma safeParse_data env input data :
  VconSchema_safeParse env input = inr data ->
  v_dialog data = raw_dialog input /\ v_analysis data = raw_analysis input.
Proof.
  unfold VconSchema_safeParse.
  destruct (raw_vcon input), (raw_uuid input), (raw_created_at input),
    (raw_parties input); try discriminate.
  match goal with |- context [match ?l with [] => _ | _ :: _ => _ end] =>
    destruct l end; [|discriminate].
  intros [= <-]. done.
Qed.

Lemma safeParse_issues env input issues :
  VconSchema_safeParse env input = inl issues -> issues <> [].
Proof.
  unfold VconSchema_safeParse.
  destruct (raw_vcon input) eqn:H1; [destruct (raw_uuid input) eqn:H2;
    [destruct (raw_created_at input) eqn:H3;
       [destruct (raw_parties input) eqn:H4|]|]|].
  - match goal with |- context [match ?l with [] => _ | _ :: _ => _ end] =>
      destruct l end; [discriminate|]. by intros [= <-].
  - intros [= <-]. unfold member_issues. rewrite H1, H2, H3, H4. simpl.
    intros H. repeat (apply app_eq_nil in H as [? H]). discriminate.
  - intros [= <-]. unfold member_issues. rewrite H1, H2, H3. simpl.
    intros H. repeat (apply app_eq_nil in H as [? H]). discriminate.
  - intros [= <-]. unfold member_issues. rewrite H1, H2. simpl.
    intros H. repeat (apply app_eq_nil in H as [? H]). discriminate.
  - intros [= <-]. unfold member_issues. rewrite H1. simpl. discriminate.
Qed.

Lemma parseVcon_valid env input data :
  VconSchema_safeParse env input = inr data ->
  parseVcon env input
  = ParseResult (normalizeVcon data) (audio_dialogs (default [] (raw_dialog input))).
Proof.
  intros H. unfold parseVcon. rewrite H.
  destruct (safeParse_data _ _ _ H) as [Hd _]. simpl. by rewrite Hd.
Qed.

Lemma parseVcon_invalid env input issues :
  VconSchema_safeParse env input = inl issues ->
  parseVcon env input
  = ParseError "Invalid VCON format" (Some (List.map issue_detail issues)).
Proof. intros H. unfold parseVcon. by rewrite H. Qed.

(** ** Selection of the audio dialogs *)

Lemma audio_dialogs_audio dialogs entry :
  In entry (audio_dialogs dialogs) -> isAudioDialog (snd entry) = true.
Proof.
  unfold audio_dialogs. rewrite filter_In. by intros [_ H]; destruct entry.
Qed.

Lemma audio_dialogs_none dialogs :
  Forall (fun d => isAudioDialog d = false) dialogs ->
  audio_dialogs dialogs = [].
Proof.
  intros H. unfold audio_dialogs. apply filter_nil_iff.
  intros [i d] Hin. apply list_elem_of_In, In_imap in Hin as (j & x & Hx & [= -> ->]).
  rewrite Forall_forall in H. apply H, list_elem_of_lookup. eauto.
Qed.

Lemma seq_sorted n k : StronglySorted lt (seq n k).
Proof.
  revert n. induction k as [|k IH]; intros n; simpl; constructor; [apply IH|].
  apply List.Forall_forall. intros x Hx. apply in_seq in Hx. lia.
Qed.

Lemma filter_sorted {B} (P : nat * B -> bool) (l : list (nat * B)) :
  StronglySorted lt (List.map fst l) ->
  StronglySorted lt (List.map fst (List.filter P l)).
Proof.
  induction l as [|x l IH]; simpl; intros H; [constructor|].
  apply StronglySorted_inv in H as [Hl Hx].
  destruct (P x); simpl; [|by apply IH]. constructor; [by apply IH|].
  rewrite List.Forall_forall in *. intros i Hi.
  apply in_map_iff in Hi as (e & <- & He). apply filter_In in He as [He _].
  apply Hx, in_map_iff. eauto.
Qed.

(** The selected dialogs come in increasing dialog position. *)
Lemma audio_dialogs_sorted dialogs :
  StronglySorted lt (List.map fst (audio_dialogs dialogs)).
Proof.
  unfold audio_dialogs. apply filter_sorted.
  rewrite map_imap_list, (imap_ext _ (fun i _ => 0 + i) dialogs) by done.
  rewrite imap_index. apply seq_sorted.
Qed.

Lemma extracted_dialogs_sorted env dialogs :
  StronglySorted lt (List.map fst (extracted_dialogs env dialogs)).
Proof. apply filter_sorted, audio_dialogs_sorted. Qed.

(** ** Extraction *)

(** An iteration never throws: a failure is recorded in [errors]. *)
Lemma extract_iteration_returns env result entry :
  exists trace result',
    extract_iteration env result entry = (trace, Returned result')
    /\ extracted result'
       = extracted result ++ option_list (extraction_of env entry).
Proof.
  destruct entry as [index dialog]. unfold extract_iteration, extraction_of.
  destruct (isAudioDialog dialog) eqn:Haudio; simpl.
  - destruct (extractAudioFromDialog env dialog) as [t [[[buffer mediatype]|]|e]];
      simpl.
    + destruct (Js.gt _ _); simpl; eexists _, _; split; try reflexivity;
        simpl; by rewrite ?app_nil_r.
    + eexists _, _; split; [reflexivity|]. simpl. by rewrite app_nil_r.
    + eexists _, _; split; [reflexivity|]. simpl. by rewrite app_nil_r.
  - eexists _, _; split; [reflexivity|]. simpl. by rewrite app_nil_r.
Qed.

Lemma extract_loop_returns env dialogs result :
  exists trace result',
    for_of (extract_iteration env) dialogs result = (trace, Returned result')
    /\ extracted result' = extracted result ++ omap (extraction_of env) dialogs.
Proof.
  revert result. induction dialogs as [|entry dialogs IH]; intros result.
  - eexists _, _. split; [reflexivity|]. simpl. by rewrite app_nil_r.
  - destruct (extract_iteration_returns env result entry) as (t1 & r1 & H1 & E1).
    destruct (IH r1) as (t2 & r2 & H2 & E2).
    exists (t1 ++ t2), r2. split.
    + cbn [for_of]. unfold mbind, Run_bind, bind. by rewrite H1, H2.
    + rewrite E2, E1, <- app_assoc. f_equal. simpl.
      by destruct (extraction_of env entry).
Qed.

Lemma extractAudioFromDialogs_returns env dialogs :
  exists trace result,
    extractAudioFromDialogs env dialogs = (trace, Returned result)
    /\ extracted result = omap (extraction_of env) dialogs.
Proof.
  destruct (extract_loop_returns env dialogs
              {| extracted := []; errors := []; skipped := [] |})
    as (t & r & H & E).
  eauto.
Qed.

(** On the selected audio dialogs, what is extracted is one audio per dialog
    whose audio is extracted, in the same order and with its position. *)
Lemma extraction_positions env (entries : list (nat * Dialog)) :
  (forall e, In e entries -> isAudioDialog (snd e) = true) ->
  List.map ea_dialogIndex (omap (extraction_of env) entries)
  = List.map fst (List.filter (fun '(_, dialog) => extracts env dialog) entries).
Proof.
  induction entries as [|[index dialog] entries IH]; intros Haudio; [done|].
  cbn [omap list_omap List.filter].
  pose proof (Haudio (index, dialog) (or_introl eq_refl)) as Ha0. simpl in Ha0.
  assert (extraction_of env (index, dialog)
          = if extracts env dialog
            then extraction_of env (index, dialog) else None) as Hx.
  { unfold extraction_of, extracts.
    rewrite Ha0.
    destruct (extractAudioFromDialog env dialog) as [t [[[b m]|]|e]]; try done.
    by destruct (Js.gt _ _). }
  assert (extracts env dialog = true ->
          exists a, extraction_of env (index, dialog) = Some a
                    /\ ea_dialogIndex a = index) as Hy.
  { unfold extraction_of, extracts.
    rewrite Ha0.
    destruct (extractAudioFromDialog env dialog) as [t [[[b m]|]|e]]; try done.
    destruct (Js.gt _ _); [done|]. eauto. }
  rewrite Hx. destruct (extracts env dialog).
  - destruct (Hy eq_refl) as (a & -> & Ha). simpl. rewrite Ha, IH; [done|].
    intros e He. apply Haudio. by right.
  - apply IH. intros e He. apply Haudio. by right.
Qed.

(** ** Sequencing *)

Lemma bind_returned {A B} (m : Run A) (k : A -> Run B) t a t' o :
  m = (t, Returned a) -> k a = (t', o) -> (m ≫= k) = (t ++ t', o).
Proof. intros -> Hk. unfold mbind, Run_bind, bind. by rewrite Hk. Qed.

(** One stage of a pipeline run: the stage's equation [H], then the rest. *)
Ltac stage H := eapply bind_returned; [exact H|].

(** [Promise.all] of promises that all fulfil. *)
Lemma all_outcomes_returned {A} (os : list (Outcome A)) :
  (forall o, In o os -> exists y, o = Returned y) ->
  exists l, all_outcomes os = Returned l /\ os = List.map Returned l.
Proof.
  induction os as [|o os IH]; intros H.
  - by exists [].
  - destruct (H o (or_introl eq_refl)) as [y ->].
    destruct IH as (l & Hl & ->); [intros o' Ho'; apply H; by right|].
    exists (y :: l). simpl. by rewrite Hl.
Qed.

Lemma map_Returned_lookup {A} (l : list A) (os : list (Outcome A)) i :
  os = List.map Returned l -> os !! i = Returned <$> l !! i.
Proof.
  intros ->. change (List.map Returned l) with (Returned <$> l).
  apply list_lookup_fmap.
Qed.

(** ** Dispatch *)

Lemma transcribeBatch_reachable name client requests :
  reachable client ->
  exists trace results,
    transcribeBatch name client requests = (trace, Returned results)
    /\ length results = length requests.
Proof.
  intros Hreach. unfold transcribeBatch, Promise_all.
  assert (forall f : AsrTranscribeRequest -> list Event,
            List.map snd (List.map (fun req => (f req, transcribe client req)) requests)
            = List.map (transcribe client) requests) as ->.
  { intros f. rewrite List.map_map. by apply List.map_ext. }
  destruct (all_outcomes_returned (List.map (transcribe client) requests))
    as (l & Hl & Hmap).
  { intros o Ho. apply in_map_iff in Ho as (req & <- & _). apply Hreach. }
  eexists _, l. split; [by rewrite Hl|].
  apply (f_equal (@length _)) in Hmap. by rewrite !length_map in Hmap.
Qed.

(** The enrichment inputs pair each extracted audio with its result. *)
Lemma enrichment_inputs batchResults (audios : list ExtractedAudio) :
  length batchResults = length audios ->
  exists enrichments,
    all_outcomes (imap (enrichment_input batchResults) audios) = Returned enrichments
    /\ List.map ei_dialogIndex enrichments = List.map ea_dialogIndex audios.
Proof.
  intros Hlen.
  destruct (all_outcomes_returned (imap (enrichment_input batchResults) audios))
    as (l & Hl & Hmap).
  { intros o Ho. apply In_imap in Ho as (i & a & Ha & ->).
    unfold enrichment_input.
    destruct (batchResults !! i) eqn:Hi; [eauto|].
    apply lookup_ge_None in Hi. apply lookup_lt_Some in Ha. lia. }
  exists l. split; [done|].
  change (ei_dialogIndex <$> l = ea_dialogIndex <$> audios).
  apply list_eq. intros i. rewrite !list_lookup_fmap.
  pose proof (map_Returned_lookup l _ i Hmap) as Hi.
  rewrite list_lookup_imap in Hi.
  destruct (audios !! i) as [a|], (l !! i) as [e|]; simpl in *; try done.
  unfold enrichment_input in Hi. destruct (batchResults !! i); [|done].
  by simplify_eq.
Qed.

(** ** Merge *)

Lemma enrich_loop clock enrichments acc k :
  for_of (enrich_iteration clock) enrichments (acc, k)
  = (List.map (fun input => EvEnrich (ei_dialogIndex input)) enrichments,
     Returned (acc ++ imap (fun i => analysis_of clock (k + i)) enrichments,
               k + length enrichments)).
Proof.
  revert acc k. induction enrichments as [|input enrichments IH]; intros acc k.
  - simpl. by rewrite app_nil_r, Nat.add_0_r.
  - cbn [for_of].
    erewrite (bind_returned _ _ [EvEnrich (ei_dialogIndex input)]);
      [|reflexivity|apply IH].
    simpl. rewrite <- app_assoc, Nat.add_0_r. simpl. do 3 f_equal; [|lia].
    do 2 f_equal. apply imap_ext. intros i x _. simpl. f_equal. lia.
Qed.

Lemma enrichVcon_returns clock vcon enrichments :
  exists trace out,
    enrichVconWithTranscriptions clock vcon enrichments = (trace, Returned out)
    /\ n_analysis out = n_analysis vcon ++ imap (analysis_of clock) enrichments
    /\ n_updated_at out = Some (clock_updated clock).
Proof.
  unfold enrichVconWithTranscriptions.
  eexists _, _. split; [|split].
  - eapply bind_returned; [apply enrich_loop|reflexivity].
  - done.
  - done.
Qed.

(** ** The whole pipeline *)

(** C1 (as amended).  For every valid document of which the audio of at
    least one audio-bearing dialog is extracted, with the selected provider
    configured and its backend answering every request, [transcribeVcon]
    succeeds; the analysis array of the output is the input's, unchanged,
    followed by one [wtf_transcription] entry per dialog whose audio was
    extracted (and transcribed), in increasing dialog position, and
    [updated_at] is stamped. *)
Theorem C1_analysis_merged env clock input options :
  let dialogs := default [] (raw_dialog input) in
  let before := default [] (raw_analysis input) in
  let done := extracted_dialogs env dialogs in
  valid env input ->
  done <> [] ->
  isConfigured (selected_provider env options) = true ->
  reachable (selected_provider env options) ->
  exists trace out stats new,
    transcribeVcon env clock input options
    = (trace, Returned (TranscriptionSuccess out stats))
    /\ n_analysis out = before ++ new
    /\ length (n_analysis out) = length before + length done
    /\ Forall (fun a => an_type a = "wtf_transcription") new
    /\ List.map an_dialog new = List.map (fun e => Some (inl (fst e))) done
    /\ StronglySorted lt (List.map fst done)
    /\ n_updated_at out = Some (clock_updated clock)
    /\ st_dialogsProcessed stats = length done.
Proof.
  intros dialogs before done [data Hvalid] Hdone Hconf Hreach.
  unfold selected_provider in Hconf, Hreach.
  destruct (safeParse_data _ _ _ Hvalid) as [_ Han].
  (* extraction *)
  destruct (extractAudioFromDialogs_returns env (audio_dialogs dialogs))
    as (t1 & extraction & Hext & Hextracted).
  assert (List.map ea_dialogIndex (extracted extraction) = List.map fst done) as Hidx.
  { rewrite Hextracted. apply extraction_positions.
    intros e. apply audio_dialogs_audio. }
  assert (length (extracted extraction) = length done) as Hlen.
  { apply (f_equal (@length _)) in Hidx. by rewrite !length_map in Hidx. }
  (* dispatch *)
  destruct (transcribeBatch_reachable
              (default (config_asrProvider env) (options ≫= to_provider)) _
              (List.map (transcribe_request options) (extracted extraction)) Hreach)
    as (t2 & batchResults & Hbatch & Hblen).
  rewrite length_map in Hblen.
  destruct (enrichment_inputs batchResults (extracted extraction) Hblen)
    as (enrichments & Hen & Henidx).
  (* merge *)
  destruct (enrichVcon_returns clock (normalizeVcon data) enrichments)
    as (t3 & out & Hout & Hanalysis & Hupdated).
  eexists _, out, _, (imap (analysis_of clock) enrichments).
  split_and!.
  - unfold transcribeVcon. cbv zeta. rewrite Hconf. cbn [negb].
    rewrite (parseVcon_valid _ _ _ Hvalid). fold dialogs.
    assert ((length (audio_dialogs dialogs) =? 0) = false) as ->.
    { apply Nat.eqb_neq. intros H0. apply Hdone. unfold done, extracted_dialogs.
      by destruct (audio_dialogs dialogs). }
    stage Hext.
    assert ((length (extracted extraction) =? 0) = false) as ->.
    { apply Nat.eqb_neq. rewrite Hlen. by destruct done. }
    stage Hbatch.
    eapply bind_returned; [by rewrite Hen|].
    stage Hout. reflexivity.
  - rewrite Hanalysis. unfold before. by rewrite <- Han.
  - rewrite Hanalysis, length_app, length_imap. unfold before.
    rewrite <- Han. cbn [normalizeVcon n_analysis]. f_equal.
    apply (f_equal (@length _)) in Henidx. rewrite !length_map in Henidx. lia.
  - apply Forall_forall. intros a Ha.
    apply list_elem_of_In, In_imap in Ha as (i & x & _ & ->). done.
  - rewrite map_imap_list. cbn [analysis_of as_Analysis an_dialog createWtfAnalysis wa_dialog].
    rewrite imap_const_map.
    rewrite <- (List.map_map ei_dialogIndex (fun i => Some (inl i))), Henidx, Hidx.
    by rewrite List.map_map.
  - apply extracted_dialogs_sorted.
  - done.
  - done.
Qed.

(** The amended C1 on the valid document of the integration tests: one
    earlier analysis entry, one recording transcribed. *)
Lemma C1_analysis_merged_witness :
  exists trace out stats,
    transcribeVcon Sample.env Sample.clock Sample.validVcon None
    = (trace, Returned (TranscriptionSuccess out stats))
    /\ length (n_analysis out) = 2.
Proof.
  destruct (C1_analysis_merged Sample.env Sample.clock Sample.validVcon None)
    as (trace & out & stats & new & Hrun & _ & Hlen & _).
  - eexists. vm_compute. reflexivity.
  - vm_compute. discriminate.
  - reflexivity.
  - intros req. eexists. reflexivity.
  - exists trace, out, stats. split; [exact Hrun | exact Hlen].
Defined.

(** C1 as stated fails: the document below is valid and has an
    audio-bearing dialog, the provider is configured and its backend answers
    every request, yet the pipeline ends in a failure, because the dialog
    has neither body nor url and so no audio is extracted from it. *)
Lemma C1_counterexample :
  valid Sample.env Sample.emptyRecordingVcon
  /\ (exists d, d ∈ default [] (raw_dialog Sample.emptyRecordingVcon)
                /\ isAudioDialog d = true)
  /\ isConfigured (selected_provider Sample.env None) = true
  /\ reachable (selected_provider Sample.env None)
  /\ ~ (exists trace out stats,
          transcribeVcon Sample.env Sample.clock Sample.emptyRecordingVcon None
          = (trace, Returned (TranscriptionSuccess out stats))).
Proof.
  split_and!.
  - eexists. vm_compute. reflexivity.
  - eexists. split; [apply list_elem_of_here|reflexivity].
  - reflexivity.
  - intros req. eexists. reflexivity.
  - intros (trace & out & stats & H). vm_compute in H. discriminate.
Qed.

(** With a configured provider whose backend answers every request, the
    pipeline never throws. *)
Lemma transcribeVcon_returns env clock input options :
  (isConfigured (selected_provider env options) = true ->
   reachable (selected_provider env options)) ->
  exists trace result,
    transcribeVcon env clock input options = (trace, Returned result).
Proof.
  intros Hreach. unfold selected_provider in Hreach. unfold transcribeVcon. cbv zeta.
  destruct (isConfigured _) eqn:Hconf; cbn [negb]; [|by eexists _, _].
  specialize (Hreach eq_refl).
  destruct (parseVcon env input) as [vcon audioDialogs|error details];
    [|by eexists _, _].
  destruct (length audioDialogs =? 0); [by eexists _, _|].
  destruct (extractAudioFromDialogs_returns env audioDialogs)
    as (t1 & extraction & Hext & _).
  destruct (length (extracted extraction) =? 0) eqn:Hlen.
  { eexists _, _. stage Hext. by rewrite Hlen. }
  destruct (transcribeBatch_reachable
              (default (config_asrProvider env) (options ≫= to_provider)) _
              (List.map (transcribe_request options) (extracted extraction)) Hreach)
    as (t2 & batchResults & Hbatch & Hblen).
  rewrite length_map in Hblen.
  destruct (enrichment_inputs batchResults (extracted extraction) Hblen)
    as (enrichments & Hen & _).
  destruct (enrichVcon_returns clock vcon enrichments) as (t3 & out & Hout & _).
  eexists _, _.
  stage Hext. rewrite Hlen.
  stage Hbatch.
  eapply bind_returned; [by rewrite Hen|].
  stage Hout. reflexivity.
Qed.

(** C3 (as amended).  With the selected provider configured, a valid
    document without audio-bearing dialogs ends the pipeline in a failure
    whose message contains "No audio dialogs" and that has no details, after
    no extraction, dispatch or enrichment (the trace is empty); the route
    answers 422.  A validation failure is a different outcome: it carries
    the non-empty list of path/message details, and the route answers 400. *)
Theorem C3_no_audio_dialogs env clock input options :
  valid env input ->
  Forall (fun d => isAudioDialog d = false) (default [] (raw_dialog input)) ->
  isConfigured (selected_provider env options) = true ->
  transcribeVcon env clock input options
  = ([], Returned (TranscriptionFailure no_audio_message None))
  /\ Js.includes "No audio dialogs" no_audio_message = true
  /\ (forall query, options = Some (query_options query) ->
        transcribeRoute env clock input query
        = ([], Returned (ReplyError 422 no_audio_message None)))
  /\ (forall invalid issues,
        VconSchema_safeParse env invalid = inl issues ->
        issues <> []
        /\ transcribeVcon env clock invalid options
           = ([], Returned (TranscriptionFailure "Invalid VCON format"
                              (Some (List.map issue_detail issues))))
        /\ (forall query, options = Some (query_options query) ->
              transcribeRoute env clock invalid query
              = ([], Returned (ReplyError 400 "Invalid VCON format"
                                 (Some (List.map issue_detail issues)))))).
Proof.
  intros [data Hvalid] Hnone Hconf. unfold selected_provider in Hconf.
  assert (transcribeVcon env clock input options
          = ([], Returned (TranscriptionFailure no_audio_message None))) as Hrun.
  { unfold transcribeVcon. cbv zeta. rewrite Hconf. cbn [negb].
    rewrite (parseVcon_valid _ _ _ Hvalid), (audio_dialogs_none _ Hnone). done. }
  assert (forall invalid issues,
            VconSchema_safeParse env invalid = inl issues ->
            transcribeVcon env clock invalid options
            = ([], Returned (TranscriptionFailure "Invalid VCON format"
                               (Some (List.map issue_detail issues))))) as Hinvalid.
  { intros invalid issues Hissues. unfold transcribeVcon. cbv zeta.
    rewrite Hconf. cbn [negb]. by rewrite (parseVcon_invalid _ _ _ Hissues). }
  split_and!; try done.
  - intros query ->. unfold transcribeRoute.
    eapply (bind_returned _ _ []); [exact Hrun|]. done.
  - intros invalid issues Hissues.
    pose proof (safeParse_issues _ _ _ Hissues) as Hne.
    split_and!; [done|by apply Hinvalid|].
    intros query ->. unfold transcribeRoute.
    eapply (bind_returned _ _ []); [by apply Hinvalid|].
    destruct issues; [done|]. done.
Qed.

(** The amended C3 on the text-only document of the integration tests. *)
Lemma C3_no_audio_dialogs_witness :
  transcribeVcon Sample.env Sample.clock Sample.noAudioVcon None
  = ([], Returned (TranscriptionFailure "No audio dialogs found in VCON" None)).
Proof.
  refine (proj1 (C3_no_audio_dialogs Sample.env Sample.clock Sample.noAudioVcon None
                   _ _ _)).
  - eexists. vm_compute. reflexivity.
  - repeat constructor.
  - reflexivity.
Defined.

(** C3 as stated fails: the same valid document without audio-bearing
    dialogs, submitted for a provider that is not configured, ends in the
    configuration failure, whose message does not contain
    "No audio dialogs". *)
Lemma C3_counterexample :
  let options := Some (query_options (Sample.query (Some openai))) in
  valid Sample.env Sample.noAudioVcon
  /\ Forall (fun d => isAudioDialog d = false)
            (default [] (raw_dialog Sample.noAudioVcon))
  /\ exists error,
       transcribeVcon Sample.env Sample.clock Sample.noAudioVcon options
       = ([], Returned (TranscriptionFailure error None))
       /\ Js.includes "No audio dialogs" error = false.
Proof.
  split_and!.
  - eexists. vm_compute. reflexivity.
  - repeat constructor.
  - eexists. split; [vm_compute; reflexivity|reflexivity].
Qed.

(** ** The batch route *)

Lemma batch_item_returned env clock options vcon trace r :
  transcribeVcon env clock vcon (Some options) = (trace, Returned r) ->
  batch_item env clock options vcon = (trace, Returned (item_of r)).
Proof.
  intros H. unfold batch_item.
  rewrite <- (app_nil_r trace). stage H.
  by destruct r.
Qed.

(** C4 (as amended).  For every array of documents none of whose pipeline
    runs throws (as is the case when the selected backend answers every
    request), the batch route returns one result per document at the
    document's position: the enriched document on success, the pipeline's
    own error and details on failure; the summary has [total] the number of
    documents, [succeeded] the number of successful results, and
    [succeeded + failed = total]. *)
Theorem C4_batch_results env clocks vcons query :
  let options := query_options query in
  (forall i vcon, vcons !! i = Some vcon ->
     exists trace r,
       transcribeVcon env (clocks i) vcon (Some options) = (trace, Returned r)) ->
  exists trace reply,
    transcribeBatchRoute env clocks vcons query = (trace, Returned reply)
    /\ length (results reply) = length vcons
    /\ (forall i vcon, vcons !! i = Some vcon ->
          exists t r,
            transcribeVcon env (clocks i) vcon (Some options) = (t, Returned r)
            /\ results reply !! i = Some (item_of r))
    /\ total (summary reply) = length vcons
    /\ succeeded (summary reply)
       = length (List.filter item_success (results reply))
    /\ succeeded (summary reply) + failed (summary reply) = total (summary reply).
Proof.
  intros options Hruns.
  set (items := imap (fun i vcon => batch_item env (clocks i) options vcon) vcons).
  destruct (all_outcomes_returned (List.map snd items)) as (l & Hl & Hmap).
  { intros o Ho. apply in_map_iff in Ho as (run & <- & Hrun).
    apply In_imap in Hrun as (i & vcon & Hi & ->).
    destruct (Hruns i vcon Hi) as (t & r & Hr).
    rewrite (batch_item_returned _ _ _ _ _ _ Hr). eauto. }
  assert (length l = length vcons) as Hlen.
  { apply (f_equal (@length _)) in Hmap.
    unfold items in Hmap. by rewrite !length_map, length_imap in Hmap. }
  eexists _, _. split; [|split_and!].
  - unfold transcribeBatchRoute. cbv zeta. fold options. fold items.
    eapply bind_returned; [unfold Promise_all; by rewrite Hl|]. reflexivity.
  - done.
  - intros i vcon Hi. destruct (Hruns i vcon Hi) as (t & r & Hr).
    exists t, r. split; [done|]. cbn [results].
    pose proof (map_Returned_lookup l _ i Hmap) as Hlook.
    change (List.map snd items) with (snd <$> items) in Hlook.
    unfold items in Hlook.
    rewrite list_lookup_fmap, list_lookup_imap, Hi in Hlook. simpl in Hlook.
    rewrite (batch_item_returned _ _ _ _ _ _ Hr) in Hlook. simpl in Hlook.
    destruct (l !! i); by simplify_eq/=.
  - done.
  - done.
  - cbn [summary succeeded failed total].
    pose proof (filter_length_le item_success l). lia.
Qed.

(** The amended C4 on the partial-failure batch: a valid document and one
    whose required uuid is missing. *)
Lemma C4_batch_results_witness :
  exists trace reply,
    transcribeBatchRoute Sample.env (fun _ => Sample.clock)
      [Sample.validVcon; Sample.missingUuidVcon] (Sample.query None)
    = (trace, Returned reply)
    /\ total (summary reply) = 2
    /\ succeeded (summary reply) + failed (summary reply) = total (summary reply).
Proof.
  destruct (C4_batch_results Sample.env (fun _ => Sample.clock)
              [Sample.validVcon; Sample.missingUuidVcon] (Sample.query None))
    as (trace & reply & Hrun & _ & _ & Htotal & _ & Hsum).
  - intros i vcon Hi.
    destruct i as [|[|i]]; simpl in Hi; simplify_eq;
      eexists _, _; vm_compute; reflexivity.
  - exists trace, reply. split_and!; [exact Hrun | exact Htotal | exact Hsum].
Defined.

(** C4 as stated fails: when the backend rejects the upload of one document
    of the batch, the pipeline of that document throws, and the route
    returns no results at all, not even for the other document. *)
Lemma C4_counterexample :
  ~ (exists trace reply,
       transcribeBatchRoute Sample.flaky_env (fun _ => Sample.clock)
         [Sample.validVcon; Sample.flacVcon] (Sample.query None)
       = (trace, Returned reply)).
Proof.
  intros (trace & reply & H). vm_compute in H. discriminate.
Qed.

(* ================================================================== *)
(** * Audio utilities: base64url *)
(* ================================================================== *)

Lemma strip_padding_idem s :
  strip_padding (strip_padding s) = strip_padding s.
Proof.
  induction s as [|c s IH]; simpl; [done|].
  destruct (strip_padding s) as [|d t] eqn:Hs.
  - destruct (Ascii.eqb c "=") eqn:Hc; simpl; [done|]. by rewrite Hc.
  - cbn [strip_padding]. cbn [strip_padding] in IH. by rewrite IH.
Qed.

Lemma append_nil_l s : String.append EmptyString s = s.
Proof. reflexivity. Qed.

Lemma append_cons c s t :
  String.append (String c s) t = String c (String.append s t).
Proof. reflexivity. Qed.

(** A string is its stripped part followed by the equal signs. *)
Lemma strip_padding_split s :
  s = String.append (strip_padding s)
        (repeat_char "=" (String.length s - String.length (strip_padding s))).
Proof.
  induction s as [|c s IH]; [done|]. cbn [strip_padding].
  destruct (strip_padding s) as [|d t] eqn:Hs.
  - rewrite append_nil_l in IH. cbn [String.length] in IH.
    rewrite Nat.sub_0_r in IH.
    destruct (Ascii.eqb_spec c "=") as [->|Hc].
    + rewrite append_nil_l. cbn [String.length Nat.sub repeat_char]. by f_equal.
    + rewrite append_cons, append_nil_l. cbn [String.length Nat.sub].
      rewrite Nat.sub_0_r. by f_equal.
  - rewrite !append_cons in *. cbn [String.length Nat.sub] in *. by f_equal.
Qed.

Lemma strip_padding_length s :
  String.length (strip_padding s) <= String.length s.
Proof.
  induction s as [|c s IH]; simpl; [done|].
  destruct (strip_padding s); [destruct (Ascii.eqb c "=")|]; simpl in *; lia.
Qed.

(** The replacement of characters does not touch equal signs. *)
Lemma strip_padding_base64url s :
  strip_padding (base64_to_base64url s) = base64_to_base64url (strip_padding s).
Proof.
  induction s as [|c s IH]; simpl; [done|]. rewrite IH.
  destruct (strip_padding s) as [|d t]; simpl; [|done].
  destruct (Ascii.eqb_spec c "+") as [->|H1]; [done|].
  destruct (Ascii.eqb_spec c "/") as [->|H2]; [done|].
  destruct (Ascii.eqb c "="); simpl; [done|].
  apply Ascii.eqb_neq in H1, H2. by rewrite H1, H2.
Qed.

Lemma base64_to_base64url_length s :
  String.length (base64_to_base64url s) = String.length s.
Proof. induction s; simpl; congruence. Qed.

Lemma base64url_to_base64_length s :
  String.length (base64url_to_base64 s) = String.length s.
Proof. induction s; simpl; congruence. Qed.

(** On the base64 alphabet the two replacements are inverse. *)
Lemma base64url_inverse s :
  all_chars base64_char s = true ->
  base64url_to_base64 (base64_to_base64url s) = s.
Proof.
  induction s as [|c s IH]; simpl; [done|].
  intros [Hc Hs]%andb_true_iff. rewrite (IH Hs). f_equal.
  destruct (Ascii.eqb_spec c "+") as [->|H1]; [done|].
  destruct (Ascii.eqb_spec c "/") as [->|H2]; [done|].
  destruct (Ascii.eqb_spec c "-") as [->|H3]; [done|].
  destruct (Ascii.eqb_spec c "_") as [->|H4]; [done|]. done.
Qed.

Lemma all_chars_forall p s :
  all_chars p s = true <-> forall c, In c (list_ascii_of_string s) -> p c = true.
Proof.
  induction s as [|c s IH]; simpl.
  - split; [intros _ c []|done].
  - rewrite andb_true_iff, IH. split.
    + intros [Hc Hs] d [<-|Hd]; auto.
    + intros H. split; [apply H; by left|]. intros d Hd. apply H. by right.
Qed.

Lemma base64_to_base64url_safe s c :
  In c (list_ascii_of_string (base64_to_base64url s)) -> c <> "+"%char /\ c <> "/"%char.
Proof.
  induction s as [|d s IH]; simpl; [done|].
  intros [<-|Hc]; [|by apply IH].
  destruct (Ascii.eqb_spec d "+") as [->|H1]; [done|].
  destruct (Ascii.eqb_spec d "/") as [->|H2]; done.
Qed.

Lemma strip_padding_chars s c :
  In c (list_ascii_of_string (strip_padding s)) -> In c (list_ascii_of_string s).
Proof.
  induction s as [|d s IH]; simpl; [done|].
  destruct (strip_padding s) as [|e t].
  - destruct (Ascii.eqb d "="); simpl; [done|]. intros [<-|[]]. by left.
  - simpl in *. intros [<-|H]; [by left|]. right. by apply IH.
Qed.

(** X1.  Round trip of the base64url helpers.  When Node renders a buffer
    as padded base64 text from which it reads the buffer back, decoding the
    base64url encoding of the buffer gives the buffer; and the encoding
    contains neither [+] nor [/] and is unchanged by stripping equal signs
    (it has no trailing padding). *)
Theorem X1_base64url_round_trip env (toString_base64 : Buffer -> string) buffer :
  padded_base64 (toString_base64 buffer) = true ->
  Buffer_from_base64 env (toString_base64 buffer) = buffer ->
  decodeBase64Url env (encodeBase64Url toString_base64 buffer) = buffer
  /\ (forall c, In c (list_ascii_of_string (encodeBase64Url toString_base64 buffer)) ->
        c <> "+"%char /\ c <> "/"%char)
  /\ strip_padding (encodeBase64Url toString_base64 buffer)
     = encodeBase64Url toString_base64 buffer.
Proof.
  set (s := toString_base64 buffer). intros Hs Hback.
  unfold padded_base64 in Hs. fold s in Hback.
  apply andb_true_iff in Hs as [[Hbody Hpad]%andb_true_iff Hlen].
  apply Nat.leb_le in Hpad. apply Nat.eqb_eq in Hlen.
  unfold encodeBase64Url. fold s. rewrite strip_padding_base64url.
  split_and!.
  - unfold decodeBase64Url. rewrite (base64url_inverse _ Hbody).
    pose proof (strip_padding_length s) as Hle.
    assert ((4 - String.length (strip_padding s) mod 4) mod 4
            = String.length s - String.length (strip_padding s)) as ->.
    { set (n := String.length (strip_padding s)) in *.
      set (m := String.length s) in *.
      assert (m = n + (m - n)) as Hm by lia.
      destruct (m - n) as [|[|[|p]]] eqn:Hp; [| | |lia].
      - replace n with m by lia. by rewrite Hlen.
      - assert (n mod 4 = 3) as ->; [|done].
        pose proof (Nat.div_mod_eq m 4). pose proof (Nat.div_mod_eq n 4).
        pose proof (Nat.mod_upper_bound n 4). lia.
      - assert (n mod 4 = 2) as ->; [|done].
        pose proof (Nat.div_mod_eq m 4). pose proof (Nat.div_mod_eq n 4).
        pose proof (Nat.mod_upper_bound n 4). lia. }
    by rewrite <- strip_padding_split.
  - intros c Hc. by apply base64_to_base64url_safe in Hc.
  - rewrite <- strip_padding_base64url. apply strip_padding_idem.
Qed.

(** X1 with a text codec standing for Node's base64 codec. *)
Lemma X1_base64url_round_trip_witness :
  decodeBase64Url Sample.env
    (encodeBase64Url string_of_list_byte (list_byte_of_string "dGVzdA=="))
  = list_byte_of_string "dGVzdA==".
Proof.
  refine (proj1 (X1_base64url_round_trip Sample.env string_of_list_byte
                   (list_byte_of_string "dGVzdA==") _ _)).
  - vm_compute. reflexivity.
  - vm_compute. reflexivity.
Defined.

(* ================================================================== *)
(** * Audio utilities: extraction from one dialog *)
(* ================================================================== *)

Lemma isAudioDialog_mediatype dialog :
  isAudioDialog dialog = true ->
  exists mediatype,
    d_mediatype dialog = Some mediatype
    /\ isSupportedAudioType mediatype = true.
Proof.
  unfold isAudioDialog. destruct (d_type dialog); try done.
  destruct (d_mediatype dialog) as [m|]; [|done].
  destruct (Js.truthy_string m); [|done]. eauto.
Qed.

(** What [extractAudioFromDialog] returns carries the media type of the
    dialog, and that type is supported. *)
Lemma extractAudioFromDialog_mediatype env dialog buffer mediatype :
  snd (extractAudioFromDialog env dialog) = Returned (Some (buffer, mediatype)) ->
  d_mediatype dialog = Some mediatype /\ isSupportedAudioType mediatype = true.
Proof.
  unfold extractAudioFromDialog.
  destruct (isAudioDialog dialog) eqn:Haudio; cbn [negb]; [|done].
  destruct (isAudioDialog_mediatype _ Haudio) as (m & Hm & Hsup). rewrite Hm.
  cbn [default].
  assert (snd (match d_url dialog return Run (option (Buffer * string)) with
               | Some url =>
                   if Js.truthy_string url
                   then _ ← emit (EvHttpGet url);
                        match http_get env url with
                        | Returned body => mret (Some (body, m))
                        | Thrown e => throw e
                        end
                   else mret None
               | None => mret None
               end) = Returned (Some (buffer, mediatype)) ->
          Some m = Some mediatype /\ isSupportedAudioType mediatype = true) as Hurl.
  { destruct (d_url dialog) as [url|]; [|done].
    destruct (Js.truthy_string url); [|done].
    destruct (http_get env url) as [body|e]; cbn; [|done]. by intros [= <- <-]. }
  destruct (d_body dialog) as [body|]; [|done].
  destruct (Js.truthy_string body); [|done].
  destruct (default base64url (d_encoding dialog));
    [by intros [= <- <-]|done|by intros [= <- <-]].
Qed.

(** The only event of [extractAudioFromDialog] is a request to the url of
    the dialog. *)
Lemma extractAudioFromDialog_events env dialog ev :
  ev ∈ fst (extractAudioFromDialog env dialog) ->
  exists url, d_url dialog = Some url /\ ev = EvHttpGet url.
Proof.
  unfold extractAudioFromDialog.
  destruct (isAudioDialog dialog); cbn [negb]; [|by intros ?%elem_of_nil].
  destruct (d_mediatype dialog) as [m|]; cbn [default].
  all: assert (forall m : string,
            ev ∈ fst (match d_url dialog return Run (option (Buffer * string)) with
                      | Some url =>
                          if Js.truthy_string url
                          then _ ← emit (EvHttpGet url);
                               match http_get env url with
                               | Returned body => mret (Some (body, m))
                               | Thrown e => throw e
                               end
                          else mret None
                      | None => mret None
                      end) ->
            exists url, d_url dialog = Some url /\ ev = EvHttpGet url) as Hurl.
  1,3: intros m'; destruct (d_url dialog) as [url|]; [|by intros ?%elem_of_nil];
    destruct (Js.truthy_string url); [|by intros ?%elem_of_nil];
    destruct (http_get env url); cbn; intros ->%list_elem_of_singleton; eauto.
  all: destruct (d_body dialog) as [body|]; [|by apply Hurl];
    destruct (Js.truthy_string body); [|by apply Hurl];
    destruct (default base64url (d_encoding dialog));
      [by intros ?%elem_of_nil|by apply Hurl|by intros ?%elem_of_nil].
Qed.

(** [extractAudioFromDialog] makes no request, or the one for the url. *)
Lemma extractAudioFromDialog_trace env dialog :
  fst (extractAudioFromDialog env dialog) = []
  \/ exists url, d_url dialog = Some url
       /\ fst (extractAudioFromDialog env dialog) = [EvHttpGet url].
Proof.
  unfold extractAudioFromDialog.
  destruct (isAudioDialog dialog); cbn [negb]; [|by left].
  destruct (d_mediatype dialog) as [m|]; cbn [default].
  all: assert (forall m : string,
            let o := match d_url dialog return Run (option (Buffer * string)) with
                     | Some url =>
                         if Js.truthy_string url
                         then _ ← emit (EvHttpGet url);
                              match http_get env url with
                              | Returned body => mret (Some (body, m))
                              | Thrown e => throw e
                              end
                         else mret None
                     | None => mret None
                     end in
            fst o = [] \/ exists url, d_url dialog = Some url /\ fst o = [EvHttpGet url])
    as Hurl.
  1,3: intros m'; cbv zeta; destruct (d_url dialog) as [url|]; [|by left];
    destruct (Js.truthy_string url); [|by left];
    destruct (http_get env url); cbn; right; eauto.
  all: destruct (d_body dialog) as [body|]; [|by apply Hurl];
    destruct (Js.truthy_string body); [|by apply Hurl];
    destruct (default base64url (d_encoding dialog));
      [by left|by apply Hurl|by left].
Qed.

(** X2.  [extractAudioFromDialog] returns [null] without any request for a
    dialog that is not audio-bearing; an inline body encoded as base64url
    (the default) or "none" is decoded without any request, even when the
    dialog also has a url; the function makes at most one request, to the
    dialog's own url; whatever it returns carries the dialog's media type,
    which is a supported one; and it throws only what the request threw. *)
Theorem X2_extract_one_dialog env dialog :
  let run := extractAudioFromDialog env dialog in
  (isAudioDialog dialog = false -> run = ([], Returned None))
  /\ (forall body,
        isAudioDialog dialog = true ->
        d_body dialog = Some body -> Js.truthy_string body = true ->
        d_encoding dialog <> Some json ->
        exists mediatype,
          d_mediatype dialog = Some mediatype
          /\ run = ([], Returned (Some
                     (match d_encoding dialog with
                      | Some none => list_byte_of_string body
                      | _ => decodeBase64Url env body
                      end, mediatype))))
  /\ (fst run = [] \/ exists url, d_url dialog = Some url /\ fst run = [EvHttpGet url])
  /\ (forall buffer mediatype,
        snd run = Returned (Some (buffer, mediatype)) ->
        d_mediatype dialog = Some mediatype
        /\ isSupportedAudioType mediatype = true)
  /\ (forall e, snd run = Thrown e ->
        exists url, d_url dialog = Some url /\ http_get env url = Thrown e).
Proof.
  intros run. unfold run, extractAudioFromDialog.
  destruct (isAudioDialog dialog) eqn:Haudio; cbn [negb].
  2:{ split_and!; first [done | by left | by intros]. }
  destruct (isAudioDialog_mediatype _ Haudio) as (m & Hm & Hsup). rewrite Hm.
  cbn [default].
  assert (forall o : Run (option (Buffer * string)),
            o = match d_url dialog with
                | Some url =>
                    if Js.truthy_string url
                    then _ ← emit (EvHttpGet url);
                         match http_get env url with
                         | Returned body => mret (Some (body, m))
                         | Thrown e => throw e
                         end
                    else mret None
                | None => mret None
                end ->
            (fst o = [] \/ exists url, d_url dialog = Some url /\ fst o = [EvHttpGet url])
            /\ (forall buffer mediatype,
                  snd o = Returned (Some (buffer, mediatype)) ->
                  Some m = Some mediatype /\ isSupportedAudioType mediatype = true)
            /\ (forall e, snd o = Thrown e ->
                  exists url, d_url dialog = Some url /\ http_get env url = Thrown e))
    as Hurl.
  { intros o ->. destruct (d_url dialog) as [url|]; [|by split_and!; [left|..]].
    destruct (Js.truthy_string url); [|by split_and!; [left|..]].
    destruct (http_get env url) as [body|e] eqn:Hget; cbn.
    - split_and!; [right; eauto| |done]. by intros ? ? [= <- <-].
    - split_and!; [right; eauto|done|]. intros ? [= <-]. eauto. }
  split_and!; [done| | | |].
  - intros body _ -> Htruthy Hjson. exists m. split; [done|]. rewrite Htruthy.
    destruct (d_encoding dialog) as [[]|]; try done.
  - destruct (d_body dialog) as [body|]; [|by eapply Hurl].
    destruct (Js.truthy_string body); [|by eapply Hurl].
    destruct (default base64url (d_encoding dialog)); [by left|by eapply Hurl|by left].
  - destruct (d_body dialog) as [body|]; [|by eapply Hurl].
    destruct (Js.truthy_string body); [|by eapply Hurl].
    destruct (default base64url (d_encoding dialog));
      [by intros ? ? [= <- <-]|by eapply Hurl|by intros ? ? [= <- <-]].
  - destruct (d_body dialog) as [body|]; [|by eapply Hurl].
    destruct (Js.truthy_string body); [|by eapply Hurl].
    destruct (default base64url (d_encoding dialog)); [done|by eapply Hurl|done].
Qed.

(** X2 on the inline recording of the integration tests: decoded without
    any request. *)
Lemma X2_extract_one_dialog_witness :
  extractAudioFromDialog Sample.env (Sample.recording_dialog "audio/wav" (Some "dGVzdA"))
  = ([], Returned (Some (decodeBase64Url Sample.env "dGVzdA", "audio/wav"))).
Proof.
  destruct (X2_extract_one_dialog Sample.env
              (Sample.recording_dialog "audio/wav" (Some "dGVzdA")))
    as (_ & Hinline & _).
  destruct (Hinline "dGVzdA" eq_refl eq_refl eq_refl ltac:(discriminate))
    as (mediatype & Hm & Hrun).
  injection Hm as <-. exact Hrun.
Defined.

(* ================================================================== *)
(** * The extraction loop *)
(* ================================================================== *)

(** One iteration adds the entry to exactly one of the three lists. *)
Lemma extract_iteration_full env result entry :
  extract_iteration env result entry
  = (extraction_trace_of env entry,
     Returned
       {| extracted := extracted result ++ option_list (extraction_of env entry);
          errors := errors result ++ option_list (extraction_error_of env entry);
          skipped := skipped result
                     ++ (if isAudioDialog (snd entry) then [] else [fst entry]) |}).
Proof.
  destruct entry as [index dialog], result as [ex er sk].
  unfold extract_iteration, extraction_of, extraction_error_of, extraction_trace_of.
  cbn [fst snd extracted errors skipped].
  destruct (isAudioDialog dialog) eqn:Haudio; cbn [negb].
  - destruct (extractAudioFromDialog env dialog) as [t [[[buffer mediatype]|]|e]].
    + cbn -[String.append Js.gt Js.of_nat maxSizeBytes].
      destruct (Js.gt (Js.of_nat (length buffer)) (maxSizeBytes env));
        unfold push_error, push_extracted; cbn -[String.append];
        by rewrite ?app_nil_r.
    + unfold push_error. cbn. by rewrite !app_nil_r.
    + destruct e; unfold push_error; cbn; by rewrite !app_nil_r.
  - unfold push_skipped. cbn. by rewrite !app_nil_r.
Qed.

Lemma extract_loop_full env dialogs result :
  for_of (extract_iteration env) dialogs result
  = (concat (List.map (extraction_trace_of env) dialogs),
     Returned
       {| extracted := extracted result ++ omap (extraction_of env) dialogs;
          errors := errors result ++ omap (extraction_error_of env) dialogs;
          skipped := skipped result
                     ++ List.map fst
                          (List.filter (fun e => negb (isAudioDialog (snd e))) dialogs) |}).
Proof.
  revert result. induction dialogs as [|entry dialogs IH]; intros result.
  - destruct result. cbn. by rewrite !app_nil_r.
  - cbn [for_of]. erewrite bind_returned;
      [|apply extract_iteration_full|apply IH].
    cbn [extracted errors skipped List.map concat omap list_omap List.filter].
    f_equal. f_equal. f_equal.
    + rewrite <- app_assoc. f_equal. by destruct (extraction_of env entry).
    + rewrite <- app_assoc. f_equal. by destruct (extraction_error_of env entry).
    + rewrite <- app_assoc. f_equal. by destruct (isAudioDialog (snd entry)).
Qed.

(** Each entry is extracted, or reported as an error, or skipped. *)
Lemma extraction_cases env entry :
  length (option_list (extraction_of env entry))
  + length (option_list (extraction_error_of env entry))
  + (if isAudioDialog (snd entry) then 0 else 1) = 1.
Proof.
  destruct entry as [index dialog]. unfold extraction_of, extraction_error_of.
  cbn [snd]. destruct (isAudioDialog dialog); [|done].
  destruct (extractAudioFromDialog env dialog) as [t [[[buffer mediatype]|]|[m|]]];
    try done.
  by destruct (Js.gt _ _).
Qed.

Lemma extraction_of_index env entry audio :
  extraction_of env entry = Some audio ->
  ea_dialogIndex audio = fst entry
  /\ isAudioDialog (snd entry) = true
  /\ extracts env (snd entry) = true
  /\ d_mediatype (snd entry) = Some (ea_mediatype audio)
  /\ isSupportedAudioType (ea_mediatype audio) = true
  /\ ea_duration audio = d_duration (snd entry)
  /\ Js.gt (Js.of_nat (length (ea_buffer audio))) (maxSizeBytes env) = false.
Proof.
  destruct entry as [index dialog]. unfold extraction_of, extracts. cbn [fst snd].
  destruct (isAudioDialog dialog) eqn:Haudio; [|done].
  pose proof (extractAudioFromDialog_mediatype env dialog) as Hmedia.
  destruct (extractAudioFromDialog env dialog) as [t [[[buffer mediatype]|]|e]];
    try done.
  destruct (Hmedia buffer mediatype eq_refl) as [Hm Hsup].
  destruct (Js.gt _ _) eqn:Hsize; [done|]. intros [= <-]. by cbn.
Qed.

Lemma extraction_error_of_index env entry e :
  extraction_error_of env entry = Some e ->
  ee_dialogIndex e = fst entry
  /\ isAudioDialog (snd entry) = true
  /\ extracts env (snd entry) = false.
Proof.
  destruct entry as [index dialog]. unfold extraction_error_of, extracts.
  cbn [fst snd]. destruct (isAudioDialog dialog) eqn:Haudio; [|done].
  destruct (extractAudioFromDialog env dialog) as [t [[[buffer mediatype]|]|[m|]]];
    try (by intros [= <-]).
  destruct (Js.gt _ _); [by intros [= <-]|done].
Qed.

Lemma omap_index_filter {A B K} (f : A -> option B) (p : A -> bool)
    (key : B -> K) (pos : A -> K) (l : list A) :
  (forall x y, f x = Some y -> key y = pos x /\ p x = true) ->
  (forall x, f x = None -> p x = false) ->
  List.map key (omap f l) = List.map pos (List.filter p l).
Proof.
  intros Hsome Hnone. induction l as [|x l IH]; [done|].
  cbn [omap list_omap List.filter]. destruct (f x) as [y|] eqn:Hx.
  - destruct (Hsome _ _ Hx) as [Hk ->]. cbn [List.map]. by rewrite Hk, IH.
  - by rewrite (Hnone _ Hx).
Qed.

Lemma extraction_lengths env (dialogs : list (nat * Dialog)) :
  length (omap (extraction_of env) dialogs)
  + length (omap (extraction_error_of env) dialogs)
  + length (List.map fst (List.filter (fun e => negb (isAudioDialog (snd e))) dialogs))
  = length dialogs.
Proof.
  induction dialogs as [|entry dialogs IH]; [done|].
  cbn [omap list_omap List.filter List.map length].
  pose proof (extraction_cases env entry) as Hcase.
  destruct (extraction_of env entry), (extraction_error_of env entry),
    (isAudioDialog (snd entry)); cbn in *; lia.
Qed.

(** The whole run of the extraction loop. *)
Lemma extractAudioFromDialogs_full env dialogs :
  extractAudioFromDialogs env dialogs
  = (concat (List.map (extraction_trace_of env) dialogs),
     Returned
       {| extracted := omap (extraction_of env) dialogs;
          errors := omap (extraction_error_of env) dialogs;
          skipped := List.map fst
                       (List.filter (fun e => negb (isAudioDialog (snd e))) dialogs) |}).
Proof. unfold extractAudioFromDialogs. by rewrite extract_loop_full. Qed.

(** X3.  [extractAudioFromDialogs] never throws and files every dialog it
    is given under exactly one heading, in input order: [skipped] holds the
    positions of the dialogs that are not audio-bearing, [extracted] one
    audio per audio-bearing dialog whose audio is extracted and fits the
    size limit, [errors] one entry per other audio-bearing dialog; the three
    lengths add up to the number of dialogs. *)
Theorem X3_extraction_partition env (dialogs : list (nat * Dialog)) :
  exists trace result,
    extractAudioFromDialogs env dialogs = (trace, Returned result)
    /\ skipped result
       = List.map fst (List.filter (fun e => negb (isAudioDialog (snd e))) dialogs)
    /\ List.map ea_dialogIndex (extracted result)
       = List.map fst
           (List.filter (fun e => isAudioDialog (snd e) && extracts env (snd e)) dialogs)
    /\ List.map ee_dialogIndex (errors result)
       = List.map fst
           (List.filter (fun e => isAudioDialog (snd e) && negb (extracts env (snd e)))
                        dialogs)
    /\ length (extracted result) + length (errors result) + length (skipped result)
       = length dialogs.
Proof.
  unfold extractAudioFromDialogs. rewrite extract_loop_full.
  eexists _, _. split; [reflexivity|]. cbn [extracted errors skipped app].
  split_and!.
  - done.
  - apply omap_index_filter.
    + intros x y Hx. apply extraction_of_index in Hx as (Hi & Ha & He & _).
      split; [done|]. cbn beta. by rewrite Ha, He.
    + intros [index dialog] Hx. unfold extraction_of, extracts in *. cbn [snd].
      destruct (isAudioDialog dialog); [|done].
      destruct (extractAudioFromDialog env dialog) as [t [[[b m]|]|e]]; try done.
      by destruct (Js.gt _ _).
  - apply omap_index_filter.
    + intros x y Hx. apply extraction_error_of_index in Hx as (Hi & Ha & He).
      split; [done|]. cbn beta. by rewrite Ha, He.
    + intros [index dialog] Hx. unfold extraction_error_of, extracts in *. cbn [snd].
      destruct (isAudioDialog dialog); [|done].
      destruct (extractAudioFromDialog env dialog) as [t [[[b m]|]|[m|]]]; try done.
      by destruct (Js.gt _ _).
  - apply extraction_lengths.
Qed.

(** X4.  Every audio that [extractAudioFromDialogs] hands on comes from an
    audio-bearing dialog of its input, at that dialog's position, with the
    dialog's declared media type (a supported one) and duration, and with
    a size within the configured limit; hence [validateAudio] can object
    to it only for being shorter than 100 bytes. *)
Theorem X4_extracted_audio env (dialogs : list (nat * Dialog)) trace result audio :
  extractAudioFromDialogs env dialogs = (trace, Returned result) ->
  audio ∈ extracted result ->
  exists dialog,
    (ea_dialogIndex audio, dialog) ∈ dialogs
    /\ isAudioDialog dialog = true
    /\ d_mediatype dialog = Some (ea_mediatype audio)
    /\ isSupportedAudioType (ea_mediatype audio) = true
    /\ ea_duration audio = d_duration dialog
    /\ Js.gt (Js.of_nat (length (ea_buffer audio))) (maxSizeBytes env) = false
    /\ validateAudio audio
       = (if length (ea_buffer audio) <? 100
          then Some "Audio content too small, likely corrupted" else None).
Proof.
  unfold extractAudioFromDialogs. rewrite extract_loop_full. intros [= _ <-].
  cbn [extracted app]. rewrite list_elem_of_omap.
  intros ([index dialog] & Hin & Hx).
  apply extraction_of_index in Hx as (Hi & Ha & _ & Hm & Hsup & Hd & Hsize).
  cbn [fst snd] in *. exists dialog. subst index.
  split_and!; try done. unfold validateAudio. by rewrite Hsup.
Qed.

(** X4 on the recording of the integration tests' valid document. *)
Lemma X4_extracted_audio_witness :
  exists dialog,
    (1, dialog) ∈ audio_dialogs (default [] (raw_dialog Sample.validVcon))
    /\ d_mediatype dialog = Some "audio/wav".
Proof.
  destruct (X4_extracted_audio Sample.env
              (audio_dialogs (default [] (raw_dialog Sample.validVcon)))
              [EvExtract 1]
              {| extracted := [ {| ea_dialogIndex := 1;
                                   ea_buffer := decodeBase64Url Sample.env "dGVzdA";
                                   ea_mediatype := "audio/wav";
                                   ea_duration := None |} ];
                 errors := []; skipped := [] |}
              {| ea_dialogIndex := 1;
                 ea_buffer := decodeBase64Url Sample.env "dGVzdA";
                 ea_mediatype := "audio/wav";
                 ea_duration := None |})
    as (dialog & Hin & _ & Hm & _).
  - vm_compute. reflexivity.
  - apply list_elem_of_here.
  - exists dialog. split; [exact Hin | exact Hm].
Defined.

(* ================================================================== *)
(** * Selection of the audio dialogs by the parser *)
(* ================================================================== *)

Lemma audio_dialogs_spec dialogs i dialog :
  (i, dialog) ∈ audio_dialogs dialogs
  <-> dialogs !! i = Some dialog /\ isAudioDialog dialog = true.
Proof.
  unfold audio_dialogs. rewrite list_elem_of_In, filter_In, In_imap. split.
  - intros [(j & x & Hx & [= -> ->]) Ha]. done.
  - intros [Hi Ha]. split; [|done]. eauto.
Qed.

(** X5.  On a document the schema accepts, [parseVcon] returns the
    normalized document and, as its audio dialogs, exactly the dialogs that
    are recordings with a supported media type, each paired with its
    position in the document, in increasing position. *)
Theorem X5_parse_audio_dialogs env input data :
  VconSchema_safeParse env input = inr data ->
  exists audioDialogs,
    parseVcon env input = ParseResult (normalizeVcon data) audioDialogs
    /\ (forall i dialog,
          (i, dialog) ∈ audioDialogs
          <-> default [] (raw_dialog input) !! i = Some dialog
              /\ d_type dialog = recording
              /\ exists mediatype,
                   d_mediatype dialog = Some mediatype
                   /\ mediatype ∈ SUPPORTED_AUDIO_TYPES)
    /\ StronglySorted lt (List.map fst audioDialogs).
Proof.
  intros Hvalid. eexists. split; [by apply parseVcon_valid|].
  split; [|apply audio_dialogs_sorted].
  intros i dialog. rewrite audio_dialogs_spec.
  assert (isAudioDialog dialog = true
          <-> d_type dialog = recording
              /\ exists mediatype, d_mediatype dialog = Some mediatype
                                   /\ mediatype ∈ SUPPORTED_AUDIO_TYPES) as ->; [|done].
  unfold isAudioDialog, isSupportedAudioType.
  destruct (d_type dialog); try (split; [done|by intros []]).
  destruct (d_mediatype dialog) as [m|]; [|split; [done|by intros [_ (? & ? & _)]]].
  split.
  - destruct (Js.truthy_string m); [|done]. intros H. split; [done|].
    exists m. split; [done|]. apply existsb_exists in H as (x & Hx & Heq).
    apply String.eqb_eq in Heq. subst x. by apply list_elem_of_In.
  - intros [_ (m' & [= <-] & Hin)].
    assert (Js.truthy_string m = true) as ->.
    { apply list_elem_of_In in Hin. simpl in Hin.
      repeat (destruct Hin as [<-|Hin]; [done|]). done. }
    apply existsb_exists. exists m. split; [by apply list_elem_of_In|].
    apply String.eqb_refl.
Qed.

(** X5 on the valid document of the integration tests. *)
Lemma X5_parse_audio_dialogs_witness :
  exists data audioDialogs,
    parseVcon Sample.env Sample.validVcon = ParseResult (normalizeVcon data) audioDialogs
    /\ List.map fst audioDialogs = [1].
Proof.
  destruct (VconSchema_safeParse Sample.env Sample.validVcon) as [issues|data] eqn:H;
    [vm_compute in H; discriminate|].
  destruct (X5_parse_audio_dialogs Sample.env Sample.validVcon data H)
    as (audio & Hparse & _ & _).
  exists data, audio. split; [exact Hparse|].
  rewrite (parseVcon_valid _ _ _ H) in Hparse. injection Hparse as <-.
  reflexivity.
Defined.

(* ================================================================== *)
(** * The pattern matcher decides the language of the pattern *)
(* ================================================================== *)

Lemma nullable_matches r : Regex.nullable r = true <-> matches r EmptyString.
Proof.
  induction r as [| |cs|r1 IH1 r2 IH2|r1 IH1 r2 IH2|r IH]; simpl.
  - split; [done|]. inversion 1.
  - split; [constructor|done].
  - split; [done|]. inversion 1.
  - rewrite andb_true_iff, IH1, IH2. split.
    + intros [H1 H2]. exact (matches_Seq _ _ _ _ H1 H2).
    + inversion 1 as [| |? ? s1 s2 H1 H2 [E1 E2] E3| | | |]; subst.
      destruct s1; [|done]. destruct s2; [|done]. done.
  - rewrite orb_true_iff, IH1, IH2. split.
    + intros [H|H]; [by apply matches_Alt_l|by apply matches_Alt_r].
    + inversion 1; subst; auto.
  - split; [constructor|done].
Qed.

(** A match of a starred pattern against a non-empty string starts with a
    non-empty match of the pattern. *)
Lemma matches_Star_inv r c s :
  matches (Regex.Star r) (String c s) ->
  exists s1 s2, s = String.append s1 s2
                /\ matches r (String c s1) /\ matches (Regex.Star r) s2.
Proof.
  assert (forall r' s', matches r' s' ->
            forall t, r' = Regex.Star r -> s' = String c t ->
            exists s1 s2, t = String.append s1 s2
                          /\ matches r (String c s1) /\ matches (Regex.Star r) s2)
    as Hgen.
  { clear s. intros r' s' H.
    induction H as [| | | | | |r0 s1 s2 H1 _ H2 IH2]; intros t Hr Hs; try done.
    injection Hr as ->. destruct s1 as [|d s1].
    - by apply IH2.
    - rewrite append_cons in Hs. injection Hs as Hd Ht. subst. eauto. }
  intros H. by eapply Hgen.
Qed.

Lemma matches_Seq_inv r1 r2 s :
  matches (Regex.Seq r1 r2) s ->
  exists s1 s2, s = String.append s1 s2 /\ matches r1 s1 /\ matches r2 s2.
Proof. inversion 1; subst. eauto. Qed.

Lemma matches_Alt_inv r1 r2 s :
  matches (Regex.Alt r1 r2) s -> matches r1 s \/ matches r2 s.
Proof. inversion 1; subst; auto. Qed.

Lemma matches_Class_inv cs s :
  matches (Regex.Class cs) s -> exists c, s = String c EmptyString /\ In c cs.
Proof. inversion 1; subst. eauto. Qed.

Lemma matches_Eps_inv s : matches Regex.Eps s -> s = EmptyString.
Proof. by inversion 1. Qed.

Lemma matches_Void_inv s : ~ matches Regex.Void s.
Proof. inversion 1. Qed.

Lemma deriv_matches r c s :
  matches (Regex.deriv c r) s <-> matches r (String c s).
Proof.
  revert s. induction r as [| |cs|r1 IH1 r2 IH2|r1 IH1 r2 IH2|r IH]; intros s; simpl.
  - split; intros H; by apply matches_Void_inv in H.
  - split; intros H; [by apply matches_Void_inv in H|].
    by apply matches_Eps_inv in H.
  - destruct (Regex.in_class c cs) eqn:Hc.
    + apply in_class_In in Hc. split.
      * intros ->%matches_Eps_inv. by constructor.
      * intros (d & [= -> ->] & _)%matches_Class_inv. constructor.
    + split; [intros H; by apply matches_Void_inv in H|].
      intros (d & [= -> ->] & Hin)%matches_Class_inv.
      apply in_class_In in Hin. congruence.
  - assert (matches (Regex.Seq (Regex.deriv c r1) r2) s
            <-> exists s1 s2, s = String.append s1 s2
                              /\ matches r1 (String c s1) /\ matches r2 s2) as Hseq.
    { split.
      - intros (s1 & s2 & -> & H1 & H2)%matches_Seq_inv. apply IH1 in H1. eauto.
      - intros (s1 & s2 & -> & H1 & H2). apply IH1 in H1. by constructor. }
    assert (matches (Regex.Seq r1 r2) (String c s)
            <-> (exists s1 s2, s = String.append s1 s2
                               /\ matches r1 (String c s1) /\ matches r2 s2)
                \/ (matches r1 EmptyString /\ matches r2 (String c s))) as Hcons.
    { split.
      - intros (s1 & s2 & E & H1 & H2)%matches_Seq_inv. destruct s1 as [|d s1].
        + rewrite append_nil_l in E. subst s2. by right.
        + rewrite append_cons in E. injection E as Hd Ht. subst. left. eauto.
      - intros [(s1 & s2 & -> & H1 & H2)|[H1 H2]].
        + exact (matches_Seq _ _ _ _ H1 H2).
        + exact (matches_Seq _ _ _ _ H1 H2). }
    rewrite Hcons. destruct (Regex.nullable r1) eqn:Hnull.
    + split.
      * intros [H|H]%matches_Alt_inv; [left; by apply Hseq|].
        right. split; [by apply nullable_matches|by apply IH2].
      * intros [H|[_ H]]; [apply matches_Alt_l; by apply Hseq|].
        apply matches_Alt_r. by apply IH2.
    + rewrite Hseq. split; [by left|]. intros [H|[H _]]; [done|].
      apply nullable_matches in H. congruence.
  - split.
    + intros [H|H]%matches_Alt_inv;
        [apply matches_Alt_l; by apply IH1|apply matches_Alt_r; by apply IH2].
    + intros [H|H]%matches_Alt_inv;
        [apply matches_Alt_l; by apply IH1|apply matches_Alt_r; by apply IH2].
  - split.
    + intros (s1 & s2 & -> & H1 & H2)%matches_Seq_inv. apply IH in H1.
      exact (matches_Star_cons _ _ _ H1 H2).
    + intros H. apply matches_Star_inv in H as (s1 & s2 & -> & H1 & H2).
      apply IH in H1. by constructor.
Qed.

(** The test of an anchored pattern holds exactly for the strings of its
    language. *)
Lemma test_matches r s : Regex.test r s = true <-> matches r s.
Proof.
  revert r. induction s as [|c s IH]; intros r; simpl.
  - apply nullable_matches.
  - rewrite IH. apply deriv_matches.
Qed.

(* ================================================================== *)
(** * The version pattern *)
(* ================================================================== *)

Lemma digit_class c :
  Regex.in_class c ["0"; "1"; "2"; "3"; "4"; "5"; "6"; "7"; "8"; "9"]%char
  = Js.is_digit c.
Proof. by destruct c as [[] [] [] [] [] [] [] []]. Qed.

Lemma matches_digit s :
  matches Regex.digit s
  <-> exists c, s = String c EmptyString /\ Js.is_digit c = true.
Proof.
  rewrite <- test_matches. unfold Regex.digit. rewrite test_Class.
  split; intros (c & -> & Hc); exists c; (split; [done|]).
  - rewrite <- digit_class. by apply in_class_In.
  - apply in_class_In. by rewrite digit_class.
Qed.

Lemma all_chars_app p s t :
  all_chars p (String.append s t) = all_chars p s && all_chars p t.
Proof.
  induction s as [|c s IH]; [done|]. rewrite append_cons. cbn [all_chars].
  by rewrite IH, andb_assoc.
Qed.

Lemma matches_Star_digit s :
  matches (Regex.Star Regex.digit) s <-> all_chars Js.is_digit s = true.
Proof.
  split.
  - intros H. remember (Regex.Star Regex.digit) as r eqn:Hr.
    induction H as [| | | | | |r0 s1 s2 H1 _ _ IH2]; try done.
    injection Hr as ->. apply matches_digit in H1 as (c & -> & Hc).
    rewrite all_chars_app. cbn [all_chars]. by rewrite Hc, IH2.
  - induction s as [|c s IH]; [constructor|]. cbn [all_chars].
    intros [Hc Hs]%andb_true_iff.
    change (String c s) with (String.append (String c EmptyString) s).
    constructor; [|by apply IH]. apply matches_digit. eauto.
Qed.

Lemma matches_Plus_digit s :
  matches (Regex.Plus Regex.digit) s <-> digits s.
Proof.
  unfold Regex.Plus, digits. split.
  - intros (s1 & s2 & -> & (c & -> & Hc)%matches_digit & H2%matches_Star_digit)%matches_Seq_inv.
    split; [done|]. rewrite append_cons, append_nil_l. cbn [all_chars].
    by rewrite Hc, H2.
  - intros [Hne Hall]. destruct s as [|c s]; [done|]. cbn [all_chars] in Hall.
    apply andb_true_iff in Hall as [Hc Hs].
    change (String c s) with (String.append (String c EmptyString) s).
    constructor; [apply matches_digit; eauto|by apply matches_Star_digit].
Qed.

Lemma matches_dot s :
  matches (Regex.Class ["."%char]) s <-> s = ".".
Proof.
  split.
  - by intros (c & -> & [<-|[]])%matches_Class_inv.
  - intros ->. constructor. by left.
Qed.

(** The version pattern accepts exactly three non-empty groups of digits
    separated by full stops. *)
Lemma version_re_spec s :
  Regex.test version_re s = true
  <-> exists a b c,
        s = String.append a (String.append "." (String.append b (String.append "." c)))
        /\ digits a /\ digits b /\ digits c.
Proof.
  rewrite test_matches. unfold version_re. split.
  - intros (a & s1 & -> & Ha%matches_Plus_digit & H1)%matches_Seq_inv.
    apply matches_Seq_inv in H1 as (d1 & s2 & -> & ->%matches_dot & H2).
    apply matches_Seq_inv in H2 as (b & s3 & -> & Hb%matches_Plus_digit & H3).
    apply matches_Seq_inv in H3 as (d2 & c & -> & ->%matches_dot & Hc%matches_Plus_digit).
    by exists a, b, c.
  - intros (a & b & c & -> & Ha & Hb & Hc).
    repeat (constructor; try by apply matches_Plus_digit).
    all: by left.
Qed.

(* ================================================================== *)
(** * What the schema accepts and what it reports *)
(* ================================================================== *)

(** A number below 0 is not [>= 0]. *)
Lemma lt_zero_not_ge (x : float) : Js.lt x 0 = true -> Js.ge x 0 = false.
Proof.
  unfold Js.lt, Js.ge. rewrite FloatAxioms.ltb_spec, FloatAxioms.leb_spec.
  change (Prim2SF 0) with (S754_zero false).
  destruct (Prim2SF x) as [[]|[]| |[] m e]; cbn; congruence.
Qed.

Lemma app_nil_iff {A} (l1 l2 : list A) : l1 ++ l2 = [] <-> l1 = [] /\ l2 = [].
Proof. split; [apply app_eq_nil|by intros [-> ->]]. Qed.

Lemma check_format_nil ok message path (o : option string) :
  check_format ok message path o = [] <-> opt_ok ok o = true.
Proof.
  unfold check_format, opt_ok. destruct o as [s|]; [|done].
  by destruct (ok s).
Qed.

Lemma check_required_nil {A} env path (o : option A) :
  check_required env path o = [] <-> is_some o = true.
Proof. by destruct o. Qed.

Lemma check_opt_nil {A} (f : list string -> A -> list Issue) (ok : A -> bool) path o :
  (forall x, f path x = [] <-> ok x = true) ->
  check_opt f path o = [] <-> opt_ok ok o = true.
Proof. intros H. destruct o; [apply H|done]. Qed.

Lemma concat_nil_iff {A} (ls : list (list A)) :
  concat ls = [] <-> forall l, In l ls -> l = [].
Proof.
  induction ls as [|l ls IH]; simpl.
  - split; [intros _ l []|done].
  - rewrite app_nil_iff, IH. split.
    + intros [-> H] l' [<-|Hin]; auto.
    + intros H. split; [apply H; by left|]. intros l' Hl'. apply H. by right.
Qed.

Lemma check_each_nil {A} (f : list string -> A -> list Issue) (ok : A -> bool) path l :
  (forall p x, f p x = [] <-> ok x = true) ->
  check_each f path l = [] <-> forallb ok l = true.
Proof.
  intros H. unfold check_each. rewrite concat_nil_iff, forallb_forall. split.
  - intros Hall x Hx. apply list_elem_of_In, list_elem_of_lookup in Hx as [i Hi].
    apply (H (path ++ [pretty i])), Hall, In_imap. eauto.
  - intros Hall issues (i & x & Hx & ->)%In_imap. apply H, Hall.
    apply list_elem_of_In, list_elem_of_lookup. eauto.
Qed.

Lemma check_enum_nil env allowed path (o : option string) :
  check_enum env allowed path o = []
  <-> opt_ok (fun s => bool_decide (s ∈ allowed)) o = true.
Proof.
  unfold check_enum, opt_ok. destruct o as [s|]; [|done].
  by destruct (bool_decide (s ∈ allowed)).
Qed.

Lemma check_nonnegative_nil env path (o : option float) :
  check_nonnegative env path o = [] <-> opt_ok (fun x => Js.ge x 0) o = true.
Proof.
  unfold check_nonnegative, opt_ok. destruct o as [x|]; [|done].
  by destruct (Js.ge x 0).
Qed.

Lemma PartySchema_nil env path p :
  PartySchema env path p = [] <-> party_ok env p = true.
Proof.
  unfold PartySchema, party_ok, check_email, check_uuid.
  rewrite !app_nil_iff, !check_format_nil, check_enum_nil, !andb_true_iff. tauto.
Qed.

Lemma DialogSchema_nil env path d :
  DialogSchema env path d = [] <-> dialog_ok env d = true.
Proof.
  unfold DialogSchema, dialog_ok, check_datetime, check_url.
  rewrite !app_nil_iff, !check_format_nil, check_nonnegative_nil, !andb_true_iff.
  cbn [opt_ok]. destruct (dialog_refinement d); intuition congruence.
Qed.

Lemma AnalysisSchema_nil env path a :
  AnalysisSchema env path a = [] <-> analysis_ok env a = true.
Proof.
  unfold AnalysisSchema, analysis_ok, check_min1, check_url.
  rewrite !app_nil_iff, !check_format_nil, !andb_true_iff. tauto.
Qed.

Lemma AttachmentSchema_nil env path a :
  AttachmentSchema env path a = [] <-> attachment_ok env a = true.
Proof.
  unfold AttachmentSchema, attachment_ok, check_datetime, check_min1, check_url.
  rewrite !app_nil_iff, !check_format_nil, !andb_true_iff. tauto.
Qed.

Lemma VconRefSchema_nil env path r :
  VconRefSchema env path r = [] <-> ref_ok env r = true.
Proof.
  unfold VconRefSchema, ref_ok, check_uuid, check_url.
  rewrite !app_nil_iff, !check_format_nil, !andb_true_iff. tauto.
Qed.

Lemma member_issues_nil env raw :
  member_issues env raw ++
    (if exclusive_refinement raw then []
     else [ {| issue_path := []; issue_message := mutually_exclusive_message |} ]) = []
  <-> conforms env raw = true.
Proof.
  unfold member_issues, conforms, check_uuid, check_datetime.
  rewrite !app_nil_iff, !andb_true_iff, !check_format_nil, !check_required_nil.
  rewrite (check_opt_nil _ (fun ps => (1 <=? length ps) && forallb (party_ok env) ps)).
  2:{ intros ps. rewrite app_nil_iff, andb_true_iff.
      rewrite (check_each_nil _ (party_ok env)) by apply PartySchema_nil.
      destruct (1 <=? length ps); intuition congruence. }
  rewrite (check_opt_nil (check_each (DialogSchema env)) (forallb (dialog_ok env)))
    by (intros; apply check_each_nil, DialogSchema_nil).
  rewrite (check_opt_nil (check_each (AnalysisSchema env)) (forallb (analysis_ok env)))
    by (intros; apply check_each_nil, AnalysisSchema_nil).
  rewrite (check_opt_nil (check_each (AttachmentSchema env))
             (forallb (attachment_ok env)))
    by (intros; apply check_each_nil, AttachmentSchema_nil).
  rewrite (check_opt_nil (check_each (VconRefSchema env)) (forallb (ref_ok env)))
    by (intros; apply check_each_nil, VconRefSchema_nil).
  rewrite !(check_opt_nil (VconRefSchema env) (ref_ok env))
    by (intros; apply VconRefSchema_nil).
  destruct (exclusive_refinement raw); [tauto|].
  split; [by intros [_ ?]|]. intros [_ ?]. done.
Qed.

(** A party whose role is outside the enumeration is reported. *)
Lemma aborted_reported env raw parties :
  raw_parties raw = Some parties ->
  existsb party_aborted parties = true ->
  member_issues env raw <> [].
Proof.
  intros Hp Hex Hnil. unfold member_issues in Hnil. rewrite Hp in Hnil.
  rewrite !app_nil_iff in Hnil.
  destruct Hnil as (_ & _ & _ & _ & _ & _ & _ & _ & Hparties & _).
  cbn [check_opt] in Hparties. apply app_nil_iff in Hparties as [_ Heach].
  rewrite (check_each_nil _ (party_ok env)) in Heach by apply PartySchema_nil.
  apply existsb_exists in Hex as (p & Hin & Hab).
  rewrite forallb_forall in Heach. specialize (Heach p Hin).
  unfold party_ok in Heach. unfold party_aborted in Hab.
  rewrite !andb_true_iff in Heach. destruct Heach as [_ Hrole].
  destruct (p_role p) as [r|]; [|done]. cbn [opt_ok] in Hrole. by rewrite Hrole in Hab.
Qed.

(** The issues of a document with its four required members. *)
Lemma issues_nil env raw parties :
  raw_parties raw = Some parties ->
  member_issues env raw ++
    (if existsb party_aborted parties || exclusive_refinement raw then []
     else [ {| issue_path := []; issue_message := mutually_exclusive_message |} ]) = []
  <-> conforms env raw = true.
Proof.
  intros Hp. rewrite <- member_issues_nil, !app_nil_iff. split.
  - intros [Hm Hx]. split; [done|].
    destruct (existsb party_aborted parties) eqn:Hab; [|done].
    by destruct (aborted_reported env raw parties Hp Hab).
  - intros [Hm Hx]. split; [done|].
    destruct (exclusive_refinement raw); [|done]. by rewrite orb_true_r.
Qed.

(** Acceptance by the schema and the members of the accepted document. *)
Lemma schema_accepts env raw :
  (valid env raw <-> conforms env raw = true)
  /\ (forall data, VconSchema_safeParse env raw = inr data -> as_RawVcon data = raw).
Proof.
  unfold valid, VconSchema_safeParse in *.
  destruct (raw_vcon raw) as [version|] eqn:H1;
    [destruct (raw_uuid raw) as [uuid|] eqn:H2;
       [destruct (raw_created_at raw) as [created|] eqn:H3;
          [destruct (raw_parties raw) as [parties|] eqn:H4|]|]|].
  - pose proof (issues_nil env raw parties H4) as Hnil.
    destruct (member_issues env raw ++ _) as [|issue issues] eqn:Hissues.
    + split; [split; [intros _; by apply Hnil|eauto]|].
      intros data [= <-]. destruct raw. cbn in H1, H2, H3, H4. subst. reflexivity.
    + split; [|done]. split; [by intros [? ?]|].
      intros Hc. apply Hnil in Hc. done.
  - split; [|done]. split; [by intros [? ?]|].
    unfold conforms. rewrite H4, !andb_true_iff. cbn [is_some]. intros ?.
    destruct_and!. done.
  - split; [|done]. split; [by intros [? ?]|].
    unfold conforms. rewrite H3, !andb_true_iff. cbn [is_some]. intros ?.
    destruct_and!. done.
  - split; [|done]. split; [by intros [? ?]|].
    unfold conforms. rewrite H2, !andb_true_iff. cbn [is_some]. intros ?.
    destruct_and!. done.
  - split; [|done]. split; [by intros [? ?]|].
    unfold conforms. rewrite H1, !andb_true_iff. cbn [is_some]. intros ?.
    destruct_and!. done.
Qed.

Lemma valid_conforms env raw : valid env raw <-> conforms env raw = true.
Proof. apply schema_accepts. Qed.



(** Every issue of a member is reported as a detail of the parse error. *)
Lemma parseVcon_reports env raw issue :
  issue ∈ member_issues env raw ->
  exists details,
    parseVcon env raw = ParseError "Invalid VCON format" (Some details)
    /\ issue_detail issue ∈ details.
Proof.
  intros Hin. unfold parseVcon, VconSchema_safeParse.
  assert (forall issues, issue ∈ issues -> issue_detail issue ∈ List.map issue_detail issues)
    as Hmap.
  { intros issues H. apply list_elem_of_In, in_map, list_elem_of_In, H. }
  destruct (raw_vcon raw), (raw_uuid raw), (raw_created_at raw), (raw_parties raw);
    try (eexists; split; [reflexivity|by apply Hmap]).
  destruct (member_issues env raw ++ _) as [|i rest] eqn:Hissues.
  - apply app_nil_iff in Hissues as [Hnil _]. rewrite Hnil in Hin.
    by apply elem_of_nil in Hin.
  - eexists; split; [reflexivity|]. apply Hmap. rewrite <- Hissues.
    apply elem_of_app. by left.
Qed.

Lemma check_each_elem {A} (f : list string -> A -> list Issue) path (l : list A) i x issue :
  l !! i = Some x -> issue ∈ f (path ++ [pretty i]) x -> issue ∈ check_each f path l.
Proof.
  intros Hi Hin. unfold check_each. apply list_elem_of_In, in_concat.
  exists (f (path ++ [pretty i]) x). split; [|by apply list_elem_of_In].
  apply In_imap. eauto.
Qed.



(** X8.  The [vcon] member of an accepted document is three non-empty
    groups of decimal digits separated by full stops; a document whose
    [vcon] member is any other string is rejected, and the details hold the
    entry with path [vcon] and message "Invalid version format". *)
Theorem X8_version_format env input version :
  raw_vcon input = Some version ->
  let well_formed :=
    exists a b c,
      version = String.append a (String.append "." (String.append b (String.append "." c)))
      /\ digits a /\ digits b /\ digits c in
  (valid env input -> well_formed)
  /\ (~ well_formed ->
      exists details,
        parseVcon env input = ParseError "Invalid VCON format" (Some details)
        /\ {| detail_path := "vcon"; detail_message := "Invalid version format" |}
           ∈ details).
Proof.
  intros Hversion well_formed. split.
  - intros Hvalid. apply valid_conforms in Hvalid.
    unfold conforms in Hvalid. rewrite Hversion, !andb_true_iff in Hvalid.
    destruct_and!. by apply version_re_spec.
  - intros Hbad.
    assert (Regex.test version_re version = false) as Htest.
    { destruct (Regex.test version_re version) eqn:Ht; [|done].
      by apply version_re_spec in Ht. }
    apply (parseVcon_reports env input
             {| issue_path := ["vcon"]; issue_message := "Invalid version format" |}).
    unfold member_issues. rewrite Hversion. cbn [check_required check_format].
    rewrite Htest. cbn. apply list_elem_of_here.
Qed.

(** X8 on the version of the test documents. *)
Lemma X8_version_format_witness :
  exists a b c,
    "0.0.2" = String.append a (String.append "." (String.append b (String.append "." c)))
    /\ digits a /\ digits b /\ digits c.
Proof.
  refine (proj1 (X8_version_format Sample.env Sample.validVcon "0.0.2" eq_refl) _).
  eexists. vm_compute. reflexivity.
Defined.

(* ================================================================== *)
(** * Speakers *)
(* ================================================================== *)

Lemma pretty_N_char_digit d s acc :
  (d < 10)%N ->
  Js.digits_prefix (String (pretty_N_char d) s) acc
  = Js.digits_prefix s (Some (10 * default 0%Z acc + Z.of_N d)%Z).
Proof.
  intros Hd.
  assert (d = 0 \/ d = 1 \/ d = 2 \/ d = 3 \/ d = 4 \/ d = 5 \/ d = 6 \/ d = 7
          \/ d = 8 \/ d = 9)%N as Hcases by lia.
  destruct_or!; subst d; reflexivity.
Qed.

Lemma pretty_N_char_is_digit d : Js.is_digit (pretty_N_char d) = true.
Proof. unfold pretty_N_char. by repeat case_match. Qed.

Lemma digits_prefix_pretty x s :
  (0 < x)%N ->
  Js.digits_prefix (pretty_N_go x s) None = Js.digits_prefix s (Some (Z.of_N x))
  /\ exists c r, pretty_N_go x s = String c r /\ Js.is_digit c = true.
Proof.
  revert s. induction (N.lt_wf_0 x) as [x _ IH]; intros s Hx.
  rewrite pretty_N_go_step by done.
  destruct (N.eq_0_gt_0_cases (x `div` 10)) as [H0|Hpos].
  - rewrite H0, pretty_N_go_0. split.
    + rewrite pretty_N_char_digit by (apply N.mod_lt; lia). cbn [default].
      do 2 f_equal. pose proof (N.div_mod x 10). lia.
    + eauto using pretty_N_char_is_digit.
  - destruct (IH (x `div` 10)%N (N.div_lt x 10 Hx eq_refl)
                 (String (pretty_N_char (x `mod` 10)) s) Hpos) as [Hd Hc].
    split; [|done]. rewrite Hd, pretty_N_char_digit by (apply N.mod_lt; lia).
    cbn [default]. unfold id. do 2 f_equal. pose proof (N.div_mod x 10). lia.
Qed.

Lemma parseInt10_digit c r :
  Js.is_digit c = true ->
  Js.parseInt10 (String c r)
  = match Js.digits_prefix (String c r) None with
    | None => Js.NaN
    | Some z => Js.IntVal z
    end.
Proof.
  destruct c as [[] [] [] [] [] [] [] []]; intros H; vm_compute in H;
    try discriminate; reflexivity.
Qed.

(** [parseInt(String(n), 10)] is [n]. *)
Lemma parseInt10_String n : Js.parseInt10 (Js.String_of_Int n) = n.
Proof.
  destruct n as [|[|p|p]]; try reflexivity.
  - cbn [Js.String_of_Int]. unfold pretty, pretty_Z, pretty, pretty_positive.
    unfold pretty, pretty_N. rewrite decide_False by done.
    destruct (digits_prefix_pretty (N.pos p) "" ltac:(lia)) as [Hd (c & r & Hc & Hdigit)].
    rewrite Hc, (parseInt10_digit _ _ Hdigit), <- Hc, Hd. reflexivity.
  - cbn [Js.String_of_Int]. unfold pretty, pretty_Z, pretty, pretty_positive.
    unfold pretty, pretty_N. rewrite decide_False by done.
    destruct (digits_prefix_pretty (N.pos p) "" ltac:(lia)) as [Hd _].
    change ("-" +:+ pretty_N_go (N.pos p) "")
      with (String "-" (pretty_N_go (N.pos p) "")).
    unfold Js.parseInt10. cbn [Js.skip_space]. 
    change (Js.is_space "-") with false. cbv iota. rewrite Hd. reflexivity.
Qed.

Lemma talk_time_snoc segs seg :
  talk_time (segs ++ [seg]) = (talk_time segs + (ws_end seg - ws_start seg))%float.
Proof. unfold talk_time. by rewrite fold_left_app. Qed.

(** What the two maps hold under a key after the first loop. *)
Lemma speaker_fold_spec segments key :
  let st := fold_left speaker_step segments (∅, ∅) in
  let mine := List.filter (speaks key) segments in
  fst st !! key = match mine with [] => None | _ => Some (List.map ws_id mine) end
  /\ snd st !! key = match mine with [] => None | _ => Some (talk_time mine) end.
Proof.
  induction segments as [|seg segments IH] using rev_ind; [done|].
  cbn zeta in *. rewrite fold_left_app, List.filter_app. cbn [fold_left List.filter].
  destruct (fold_left speaker_step segments (∅, ∅)) as [m1 m2].
  cbn [fst snd] in IH. destruct IH as [IH1 IH2].
  assert (speaks key seg
          = match ws_speaker seg with
            | Some sp => String.eqb (Js.String_of_Int sp) key
            | None => false
            end) as Hspeaks by done.
  unfold speaker_step.
  destruct (ws_speaker seg) as [sp|];
    [|rewrite Hspeaks, !app_nil_r; cbn [fst snd]; by split].
  destruct (String.eqb_spec (Js.String_of_Int sp) key) as [->|Hne]; rewrite Hspeaks.
  - destruct (List.filter (speaks key) segments) as [|s mine].
    + rewrite IH1. cbn [fst snd app List.map].
      rewrite lookup_alter_eq, !lookup_insert_eq. done.
    + rewrite IH1. cbn [fst snd].
      rewrite lookup_alter_eq, lookup_insert_eq, IH1, IH2.
      cbn [default fmap option_fmap option_map].
      rewrite List.map_app, talk_time_snoc. done.
  - rewrite !app_nil_r.
    destruct (m1 !! Js.String_of_Int sp); cbn [fst snd];
      by rewrite lookup_alter_ne, ?lookup_insert_ne by done.
Qed.

(** The speaker map, key by key. *)
Lemma build_speakers_lookup segments key :
  build_speakers segments !! key
  = speaker_entry key (List.filter (speaks key) segments).
Proof.
  unfold build_speakers.
  destruct (speaker_fold_spec segments key) as [H1 H2].
  destruct (fold_left speaker_step segments (∅, ∅)) as [m1 m2].
  cbn [fst snd] in H1, H2. rewrite map_lookup_imap, H1.
  destruct (List.filter (speaks key) segments); [done|]. cbn. by rewrite H2.
Qed.

Lemma speaks_key key seg :
  speaks key seg = true <-> exists sp, ws_speaker seg = Some sp /\ Js.String_of_Int sp = key.
Proof.
  unfold speaks. destruct (ws_speaker seg) as [sp|].
  - rewrite String.eqb_eq. split; [eauto|]. by intros (? & [= <-] & ?).
  - split; [done|]. by intros (? & ? & ?).
Qed.

Lemma speaker_keys_nil segments :
  (forall seg, seg ∈ segments -> ws_speaker seg = None) -> speaker_keys segments = [].
Proof.
  unfold speaker_keys. induction segments as [|s l IHl]; intros Hnone; [done|].
  cbn. rewrite (Hnone s (list_elem_of_here _ _)). cbn. apply IHl.
  intros seg Hseg. apply Hnone. by apply list_elem_of_further.
Qed.

(** X9.  For an enrichment in which every speaker number is NaN or an
    integer of magnitude below 2^53 (the numbers [parseInt] reads and
    [String] writes exactly): the speaker map has an entry under a key
    exactly when some segment of the output is grouped under it, that is,
    has a speaker number whose decimal text is the key.  The entry lists
    the identifiers of these segments in order, its total time is the sum
    of their [end - start] added up from 0 in that order, its label is
    "Speaker " followed by the key, and its number is the number of every
    one of these segments.  The map is omitted exactly when no segment has
    a speaker number. *)
Theorem X9_speaker_entries now input key :
  let out := createWtfTranscription now input in
  let mine := List.filter (speaks key) (wtf_segments out) in
  (forall seg sp, seg ∈ wtf_segments out -> ws_speaker seg = Some sp -> safe_integer sp) ->
  speakers_of out !! key = speaker_entry key mine
  /\ (mine <> [] <-> exists seg sp, seg ∈ wtf_segments out /\ ws_speaker seg = Some sp
                                   /\ Js.String_of_Int sp = key)
  /\ (forall speaker seg sp,
        speakers_of out !! key = Some speaker ->
        seg ∈ mine -> ws_speaker seg = Some sp ->
        sp_id speaker = sp /\ ws_id seg ∈ sp_segments speaker)
  /\ (wtf_speakers out = None
      <-> forall seg, seg ∈ wtf_segments out -> ws_speaker seg = None).
Proof.
  intros out mine _. unfold out in *.
  assert (speakers_of (createWtfTranscription now input) !! key = speaker_entry key mine)
    as Hentry.
  { rewrite speakers_of_create. apply build_speakers_lookup. }
  split_and!.
  - done.
  - split.
    + destruct mine as [|seg rest] eqn:Hmine; [done|]. intros _.
      assert (seg ∈ mine) as Hin by (rewrite Hmine; apply list_elem_of_here).
      apply list_elem_of_In, filter_In in Hin as [Hin Hs].
      apply speaks_key in Hs as (sp & Hsp & Hk).
      exists seg, sp. by rewrite list_elem_of_In.
    + intros (seg & sp & Hin & Hsp & Hk) Hnil.
      assert (seg ∈ mine) as Hmine.
      { apply list_elem_of_In, filter_In. split; [by apply list_elem_of_In|].
        apply speaks_key. eauto. }
      rewrite Hnil in Hmine. by apply elem_of_nil in Hmine.
  - intros speaker seg sp Hspeaker Hseg Hsp. rewrite Hentry in Hspeaker.
    pose proof Hseg as Hin. apply list_elem_of_In, filter_In in Hin as [_ Hs].
    apply speaks_key in Hs as (sp' & Hsp' & Hk). rewrite Hsp in Hsp'.
    injection Hsp' as <-.
    destruct mine as [|s rest]; [done|]. injection Hspeaker as <-.
    cbn [sp_id sp_segments].
    split; [by rewrite <- Hk, parseInt10_String|].
    apply list_elem_of_In, (in_map ws_id (s :: rest) seg), list_elem_of_In, Hseg.
  - pose proof (build_speakers_dom (wtf_segments (createWtfTranscription now input)))
      as Hdom.
    unfold createWtfTranscription at 1. cbn [wtf_speakers].
    rewrite segments_of_create in *.
    set (segments := build_segments _ _) in *.
    destruct (0 <? size (build_speakers segments))%nat eqn:Hsize.
    + split; [done|]. intros Hnone. apply Nat.ltb_lt in Hsize.
      pose proof (speaker_keys_nil segments Hnone) as Hkeys.
      rewrite Hkeys in Hdom. cbn in Hdom.
      apply (f_equal size) in Hdom. rewrite size_dom, size_empty in Hdom. lia.
    + split; [|done]. intros _ seg Hseg. apply Nat.ltb_ge in Hsize.
      destruct (ws_speaker seg) as [sp|] eqn:Hsp; [|done].
      assert (Js.String_of_Int sp ∈ dom (build_speakers segments)) as Hk.
      { rewrite Hdom, elem_of_list_to_set. unfold speaker_keys.
        apply list_elem_of_omap. exists seg. by rewrite Hsp. }
      apply elem_of_dom in Hk as [speaker Hk].
      assert (build_speakers segments = ∅) as Hempty.
      { apply map_size_empty_iff. lia. }
      rewrite Hempty in Hk. by rewrite lookup_empty in Hk.
Qed.

(** X9 on the two-speaker result of the unit tests: speaker "1" has the
    second segment, and its two seconds. *)
Lemma X9_speaker_entries_witness :
  speakers_of (createWtfTranscription "t" (Sample.enrichment Sample.multiSpeakerResult))
    !! "1"
  = Some {| sp_id := Js.IntVal 1; sp_label := "Speaker 1"; sp_segments := [1];
            sp_total_time := Some 2%float |}.
Proof.
  refine (proj1 (X9_speaker_entries "t"
                   (Sample.enrichment Sample.multiSpeakerResult) "1" _)).
  intros seg sp Hin Hsp. apply list_elem_of_In in Hin. vm_compute in Hin.
  destruct Hin as [<-|[<-|[]]]; vm_compute in Hsp; injection Hsp as <-; reflexivity.
Defined.

Lemma built_speaker words segs wseg :
  wseg ∈ build_segments words segs ->
  exists seg, seg ∈ segs /\ ws_speaker wseg = speaker_number (as_speaker seg).
Proof.
  intros H. apply list_elem_of_In, In_imap in H as (i & seg & Hi & ->).
  exists seg. split; [|done]. by apply list_elem_of_lookup_2 in Hi.
Qed.

Lemma filter_agree {A} (f g : A -> bool) (l : list A) :
  (forall x, x ∈ l -> f x = g x) -> List.filter f l = List.filter g l.
Proof.
  induction l as [|x l IH]; intros H; [done|]. cbn [List.filter].
  rewrite (H x (list_elem_of_here _ _)), IH; [done|].
  intros y Hy. apply H. by apply list_elem_of_further.
Qed.

(** X10.  Speaker labels that [parseInt] does not read as a number all fall
    under the one key "NaN": when every labelled segment has such a label
    (and there is one), the speaker map has the single entry "NaN", with
    number NaN and label "Speaker NaN", which lists every labelled segment,
    and [multiple_speakers] is false however many distinct labels there
    are. *)
Theorem X10_unnumbered_speakers now input :
  let t := ei_transcription input in
  let out := createWtfTranscription now input in
  (forall seg, seg ∈ ar_segments t -> Js.truthy_opt_string (as_speaker seg) = true ->
     Js.parseInt10 (default EmptyString (as_speaker seg)) = Js.NaN) ->
  (exists seg, seg ∈ ar_segments t /\ Js.truthy_opt_string (as_speaker seg) = true) ->
  dom (speakers_of out) = {["NaN"]}
  /\ (exists speaker,
        speakers_of out !! "NaN" = Some speaker
        /\ sp_id speaker = Js.NaN
        /\ sp_label speaker = "Speaker NaN"
        /\ sp_segments speaker
           = List.map ws_id
               (List.filter (fun seg => is_some (ws_speaker seg)) (wtf_segments out)))
  /\ (exists q, wtf_quality out = Some q /\ q_multiple_speakers q = false).
Proof.
  intros t out Hnan (seg0 & Hseg0 & Hlabel0). unfold out.
  rewrite speakers_of_create, segments_of_create. fold t.
  set (segments := build_segments (build_words t) (ar_segments t)).
  assert (dom (build_speakers segments) = ({["NaN"]} : gset string)) as Hdom.
  { rewrite build_speakers_dom. unfold segments. rewrite speaker_keys_built.
    apply set_eq. intros k. rewrite elem_of_list_to_set, list_elem_of_omap.
    rewrite elem_of_singleton. unfold speaker_number. split.
    - intros (seg & Hseg & Hk).
      destruct (Js.truthy_opt_string (as_speaker seg)) eqn:Hl; [|done].
      rewrite (Hnan seg Hseg Hl) in Hk. by injection Hk as <-.
    - intros ->. exists seg0. split; [done|].
      by rewrite Hlabel0, (Hnan seg0 Hseg0 Hlabel0). }
  assert (forall wseg, wseg ∈ segments ->
            speaks "NaN" wseg = is_some (ws_speaker wseg)) as Hspeaks.
  { intros wseg Hw. destruct (built_speaker _ _ _ Hw) as (seg & Hseg & Hsp).
    unfold speaks. rewrite Hsp. unfold speaker_number.
    destruct (Js.truthy_opt_string (as_speaker seg)) eqn:Hl; [|done].
    by rewrite (Hnan seg Hseg Hl). }
  split_and!.
  - done.
  - assert ("NaN" ∈ dom (build_speakers segments)) as Hin by set_solver.
    apply elem_of_dom in Hin as [speaker Hspeaker]. exists speaker.
    split; [done|]. rewrite build_speakers_lookup in Hspeaker.
    rewrite <- (filter_agree _ _ _ Hspeaks).
    destruct (List.filter (speaks "NaN") segments); [done|].
    by injection Hspeaker as <-.
  - eexists. split; [reflexivity|]. cbn [q_multiple_speakers build_quality].
    fold t. fold segments. apply Nat.ltb_ge.
    rewrite <- size_dom, Hdom, size_singleton. done.
Qed.

(** X10 on a result whose two segments are labelled "alice" and "bob". *)
Lemma X10_unnumbered_speakers_witness :
  dom (speakers_of (createWtfTranscription "t"
                      (Sample.enrichment SampleSpeakers.namedSpeakersResult)))
  = {["NaN"]}.
Proof.
  refine (proj1 (X10_unnumbered_speakers "t"
                   (Sample.enrichment SampleSpeakers.namedSpeakersResult) _ _)).
  - intros seg Hseg _. apply list_elem_of_In in Hseg.
    destruct Hseg as [<-|[<-|[]]]; reflexivity.
  - eexists. split; [apply list_elem_of_here|reflexivity].
Defined.

(* ================================================================== *)
(** * Runs of the pipeline, stage by stage *)
(* ================================================================== *)

Lemma transcribeBatch_run name client requests :
  transcribeBatch name client requests
  = (List.map (fun req => EvTranscribe name (rq_mediatype req)) requests,
     all_outcomes (List.map (transcribe client) requests)).
Proof.
  unfold transcribeBatch, Promise_all. rewrite !List.map_map. cbn [fst snd]. f_equal.
  induction requests as [|req requests IH]; [done|]. cbn. by rewrite IH.
Qed.

Lemma all_outcomes_length {A} (os : list (Outcome A)) l :
  all_outcomes os = Returned l -> length l = length os.
Proof.
  revert l. induction os as [|[a|e] os IH]; intros l; cbn.
  - by intros [= <-].
  - destruct (all_outcomes os); [|done]. intros [= <-]. cbn. f_equal. by apply IH.
  - done.
Qed.

Lemma all_outcomes_thrown {A} (os : list (Outcome A)) e :
  all_outcomes os = Thrown e -> Thrown e ∈ os.
Proof.
  induction os as [|[a|e'] os IH]; cbn.
  - done.
  - destruct (all_outcomes os); [done|]. intros [= ->].
    apply list_elem_of_further. by apply IH.
  - intros [= ->]. apply list_elem_of_here.
Qed.

Lemma all_outcomes_throws {A} (os : list (Outcome A)) e :
  Thrown e ∈ os -> exists e', all_outcomes os = Thrown e'.
Proof.
  induction os as [|[a|e''] os IH]; intros Hin.
  - by apply elem_of_nil in Hin.
  - apply elem_of_cons in Hin as [?|Hin]; [done|].
    destruct (IH Hin) as [e' He']. exists e'. cbn. by rewrite He'.
  - cbn. eauto.
Qed.

(** With as many results as audios, the enrichment inputs pair them up. *)
Lemma enrichment_inputs_zip results (audios : list ExtractedAudio) :
  length results = length audios ->
  all_outcomes (imap (enrichment_input results) audios)
  = Returned (zip_with enrichment_for audios results).
Proof.
  revert results. induction audios as [|audio audios IH]; intros [|r results] Hlen;
    try done.
  cbn [imap]. unfold enrichment_input at 1. cbn [lookup list_lookup all_outcomes].
  rewrite (imap_ext _ (enrichment_input results) audios) by done.
  rewrite IH by (cbn in Hlen; lia). done.
Qed.

Lemma enrichVcon_run clock vcon enrichments :
  enrichVconWithTranscriptions clock vcon enrichments
  = (List.map (fun input => EvEnrich (ei_dialogIndex input)) enrichments,
     Returned (merged clock vcon enrichments)).
Proof.
  unfold enrichVconWithTranscriptions.
  erewrite bind_returned; [|apply enrich_loop|reflexivity]. by rewrite app_nil_r.
Qed.

Lemma audio_entries_not_skipped input :
  List.filter (fun e : nat * Dialog => negb (isAudioDialog (snd e))) (audio_entries input)
  = [].
Proof.
  apply filter_nil_iff. intros e He. apply list_elem_of_In in He.
  by rewrite (audio_dialogs_audio _ _ He).
Qed.

Lemma zip_enrichment_index {B} (f : nat -> B) (audios : list ExtractedAudio) results :
  length results = length audios ->
  List.map (fun input => f (ei_dialogIndex input)) (zip_with enrichment_for audios results)
  = List.map (fun audio => f (ea_dialogIndex audio)) audios.
Proof.
  revert results. induction audios as [|a audios IH]; intros [|r results] Hlen;
    try done.
  cbn. f_equal. apply IH. cbn in Hlen. lia.
Qed.

(** The run of [transcribeVcon] on a valid document with the selected
    provider configured, stage by stage. *)
Lemma transcribeVcon_run env clock input options data :
  isConfigured (selected_provider env options) = true ->
  VconSchema_safeParse env input = inr data ->
  transcribeVcon env clock input options
  = if (length (audio_entries input) =? 0)%nat
    then ([], Returned (TranscriptionFailure no_audio_message None))
    else if (length (extracted_audios env input) =? 0)%nat
    then (extraction_events env input,
          Returned (TranscriptionFailure no_extraction_message
                      (Some (List.map extraction_detail
                               (omap (extraction_error_of env) (audio_entries input))))))
    else
      match all_outcomes
              (List.map (fun audio => transcribe (selected_provider env options)
                                        (transcribe_request options audio))
                        (extracted_audios env input)) with
      | Thrown e =>
          (extraction_events env input ++ transcribe_events env options input, Thrown e)
      | Returned results =>
          let enrichments := zip_with enrichment_for (extracted_audios env input) results in
          (extraction_events env input ++ transcribe_events env options input
             ++ enrich_events env input,
           Returned
             (TranscriptionSuccess
                (merged clock (normalizeVcon data) enrichments)
                {| st_dialogsProcessed := length (extracted_audios env input);
                   st_dialogsSkipped := 0;
                   st_dialogsFailed :=
                     length (omap (extraction_error_of env) (audio_entries input));
                   st_totalProcessingTime := clock_elapsed clock;
                   st_provider := provider_of env options;
                   st_model := head results ≫= ar_model |}))
      end.
Proof.
  intros Hconf Hvalid. unfold selected_provider in *.
  unfold transcribeVcon. cbv zeta. rewrite Hconf. cbn [negb].
  rewrite (parseVcon_valid _ _ _ Hvalid). fold (audio_entries input).
  destruct (length (audio_entries input) =? 0)%nat; [done|].
  rewrite extractAudioFromDialogs_full. fold (extracted_audios env input).
  fold (extraction_events env input). rewrite audio_entries_not_skipped.
  unfold mbind at 1, Run_bind at 1, bind at 1. cbn [extracted errors skipped].
  destruct (length (extracted_audios env input) =? 0)%nat.
  { unfold mret, Run_ret, ret. by rewrite app_nil_r. }
  rewrite transcribeBatch_run, !List.map_map. cbn [rq_mediatype transcribe_request].
  fold (provider_of env options). fold (transcribe_events env options input).
  unfold mbind at 1, Run_bind at 1, bind at 1.
  destruct (all_outcomes _) as [results|e] eqn:Hresults; [|done].
  apply all_outcomes_length in Hresults. rewrite length_map in Hresults.
  rewrite (enrichment_inputs_zip _ _ Hresults).
  unfold mbind at 1, Run_bind at 1, bind at 1.
  rewrite enrichVcon_run, (zip_enrichment_index EvEnrich) by done.
  fold (enrich_events env input).
  unfold mbind, Run_bind, bind, mret, Run_ret, ret. cbn [app length List.map].
  by rewrite !app_nil_r.
Qed.

Lemma transcribeVcon_unconfigured env clock input options :
  isConfigured (selected_provider env options) = false ->
  transcribeVcon env clock input options
  = ([], Returned (TranscriptionFailure
                     (not_configured_message (provider_of env options)) None)).
Proof.
  intros Hconf. unfold selected_provider in Hconf. unfold transcribeVcon. cbv zeta.
  by rewrite Hconf.
Qed.

Lemma transcribeVcon_invalid env clock input options issues :
  isConfigured (selected_provider env options) = true ->
  VconSchema_safeParse env input = inl issues ->
  transcribeVcon env clock input options
  = ([], Returned (TranscriptionFailure "Invalid VCON format"
                     (Some (List.map issue_detail issues)))).
Proof.
  intros Hconf Hissues. unfold selected_provider in Hconf. unfold transcribeVcon.
  cbv zeta. by rewrite Hconf, (parseVcon_invalid _ _ _ Hissues).
Qed.

Lemma Promise_all_const {A B} (x : B) (l : list A) :
  Promise_all (List.map (fun _ => (([] : list Event), Returned x)) l)
  = ([], Returned (List.map (fun _ => x) l)).
Proof.
  unfold Promise_all. induction l as [|a l IH]; [done|].
  cbn. injection IH as Ht Ho. by rewrite Ht, Ho.
Qed.

Lemma filter_const_false {A B} (p : B -> bool) (x : B) (l : list A) :
  p x = false -> List.filter p (List.map (fun _ => x) l) = [].
Proof. intros Hp. induction l as [|a l IH]; [done|]. cbn. by rewrite Hp. Qed.

(** X11.  When the selected provider is not configured, [transcribeVcon]
    fails with the configuration message for every input, valid or not,
    before it looks at the document (no extraction, no request); the route
    answers 422, and the batch route reports that failure for every
    document: nothing succeeded. *)
Theorem X11_unconfigured_provider env clock input options :
  let message := not_configured_message (provider_of env options) in
  isConfigured (selected_provider env options) = false ->
  transcribeVcon env clock input options
  = ([], Returned (TranscriptionFailure message None))
  /\ (forall query, options = Some (query_options query) ->
        transcribeRoute env clock input query
        = ([], Returned (ReplyError 422 message None)))
  /\ (forall query clocks vcons, options = Some (query_options query) ->
        exists reply,
          transcribeBatchRoute env clocks vcons query = ([], Returned reply)
          /\ results reply = List.map (fun _ => ItemFailure message None) vcons
          /\ succeeded (summary reply) = 0
          /\ failed (summary reply) = length vcons).
Proof.
  intros message Hconf. split_and!.
  - by apply transcribeVcon_unconfigured.
  - intros query ->. unfold transcribeRoute.
    by rewrite (transcribeVcon_unconfigured _ _ _ _ Hconf).
  - intros query clocks vcons ->. unfold transcribeBatchRoute. cbv zeta.
    assert (imap (fun i vcon => batch_item env (clocks i) (query_options query) vcon) vcons
            = List.map (fun _ => ([], Returned (ItemFailure message None))) vcons) as ->.
    { rewrite <- imap_const_map. apply imap_ext. intros i vcon _. cbn beta.
      unfold batch_item. by rewrite (transcribeVcon_unconfigured _ _ _ _ Hconf). }
    rewrite Promise_all_const. unfold mbind, Run_bind, bind, mret, Run_ret, ret.
    eexists. split; [reflexivity|]. cbn [results summary succeeded failed].
    rewrite filter_const_false by done. cbn [length]. rewrite length_map.
    split_and!; [done|done|lia].
Qed.

(** X11 on an invalid document sent for a provider without credentials. *)
Lemma X11_unconfigured_provider_witness :
  transcribeVcon Sample.env Sample.clock Sample.missingUuidVcon
    (Some (query_options (Sample.query (Some openai))))
  = ([], Returned (TranscriptionFailure
                     "ASR provider 'openai' is not configured. Check environment variables."
                     None)).
Proof.
  refine (proj1 (X11_unconfigured_provider Sample.env Sample.clock
                   Sample.missingUuidVcon
                   (Some (query_options (Sample.query (Some openai)))) _)).
  reflexivity.
Defined.

Lemma extraction_trace_not_backend env entry ev :
  ev ∈ extraction_trace_of env entry -> is_backend_event ev = false.
Proof.
  destruct entry as [index dialog]. unfold extraction_trace_of.
  destruct (isAudioDialog dialog); [|by intros ?%elem_of_nil].
  intros [->|Hev]%elem_of_cons; [done|].
  by apply extractAudioFromDialog_events in Hev as (url & _ & ->).
Qed.

Lemma extraction_events_not_backend env input ev :
  ev ∈ extraction_events env input -> is_backend_event ev = false.
Proof.
  unfold extraction_events. intros Hev.
  apply list_elem_of_In, in_concat in Hev as (t & Ht & Hev).
  apply in_map_iff in Ht as (entry & <- & _).
  eapply extraction_trace_not_backend. by apply list_elem_of_In.
Qed.

(** An audio dialog of which no audio is extracted is reported. *)
Lemma extraction_error_of_failed env (entries : list (nat * Dialog)) :
  (forall entry, entry ∈ entries ->
     isAudioDialog (snd entry) = true /\ extracts env (snd entry) = false) ->
  List.map ee_dialogIndex (omap (extraction_error_of env) entries) = List.map fst entries.
Proof.
  induction entries as [|[index dialog] entries IH]; intros H; [done|].
  destruct (H (index, dialog) (list_elem_of_here _ _)) as [Ha Hx]. cbn [snd] in *.
  cbn [omap list_omap]. 
  assert (exists e, extraction_error_of env (index, dialog) = Some e
                    /\ ee_dialogIndex e = index) as (e & -> & He).
  { unfold extraction_error_of, extracts in *. rewrite Ha.
    destruct (extractAudioFromDialog env dialog) as [t [[[b m]|]|[m|]]]; eauto.
    destruct (Js.gt _ _); [eauto|done]. }
  cbn. rewrite He. f_equal. apply IH. intros entry Hin. apply H.
  by apply list_elem_of_further.
Qed.

Lemma omap_nil_iff {A B} (f : A -> option B) (l : list A) :
  omap f l = [] <-> forall x, x ∈ l -> f x = None.
Proof.
  induction l as [|x l IH]; cbn.
  - split; [|done]. by intros _ y Hy%elem_of_nil.
  - destruct (f x) eqn:Hx.
    + split; [done|]. intros H. specialize (H x (list_elem_of_here _ _)). congruence.
    + rewrite IH. split.
      * intros H y [->|Hy]%elem_of_cons; auto.
      * intros H y Hy. apply H. by apply list_elem_of_further.
Qed.

Lemma extraction_of_none env entry :
  extracts env (snd entry) = false -> extraction_of env entry = None.
Proof.
  destruct entry as [index dialog]. unfold extracts, extraction_of. cbn [snd].
  destruct (isAudioDialog dialog); [|done].
  destruct (extractAudioFromDialog env dialog) as [t [[[b m]|]|e]]; try done.
  by destruct (Js.gt _ _).
Qed.

(** X12.  When the document is valid and has audio-bearing dialogs, but
    the audio of none of them is extracted, [transcribeVcon] fails with
    "Failed to extract audio from any dialog" and one detail per
    audio-bearing dialog, in document order, whose path is [dialog[i]] for
    the dialog's position [i]; the provider is never called and nothing is
    enriched; and, the details being non-empty, the route answers 400. *)
Theorem X12_extraction_failure env clock input options :
  valid env input ->
  isConfigured (selected_provider env options) = true ->
  audio_entries input <> [] ->
  (forall entry, entry ∈ audio_entries input -> extracts env (snd entry) = false) ->
  exists trace details,
    transcribeVcon env clock input options
    = (trace, Returned (TranscriptionFailure no_extraction_message (Some details)))
    /\ List.map detail_path details
       = List.map (fun entry => ("dialog[" ++ pretty (fst entry) ++ "]")%string)
                  (audio_entries input)
    /\ (forall ev, ev ∈ trace -> is_backend_event ev = false)
    /\ (forall query, options = Some (query_options query) ->
          transcribeRoute env clock input query
          = (trace, Returned (ReplyError 400 no_extraction_message (Some details)))).
Proof.
  intros [data Hvalid] Hconf Hsome Hnone.
  pose proof (transcribeVcon_run env clock input options data Hconf Hvalid) as Hrun.
  assert ((length (audio_entries input) =? 0)%nat = false) as Hlen.
  { apply Nat.eqb_neq. by destruct (audio_entries input). }
  assert (extracted_audios env input = []) as Hext.
  { apply omap_nil_iff. intros entry Hin. by apply extraction_of_none, Hnone. }
  rewrite Hlen, Hext in Hrun. cbn [length Nat.eqb] in Hrun.
  assert (List.map ee_dialogIndex (omap (extraction_error_of env) (audio_entries input))
          = List.map fst (audio_entries input)) as Hidx.
  { apply extraction_error_of_failed. intros entry Hin. split; [|by apply Hnone].
    apply (audio_dialogs_audio (default [] (raw_dialog input))).
    by apply list_elem_of_In. }
  eexists _, _. split_and!.
  - exact Hrun.
  - rewrite List.map_map. cbn [detail_path extraction_detail].
    rewrite <- (List.map_map ee_dialogIndex
                  (fun i => ("dialog[" ++ pretty i ++ "]")%string)), Hidx.
    by rewrite List.map_map.
  - apply extraction_events_not_backend.
  - intros query ->. unfold transcribeRoute. rewrite Hrun.
    unfold mbind, Run_bind, bind, mret, Run_ret, ret. rewrite app_nil_r.
    rewrite length_map, <- (length_map ee_dialogIndex), Hidx, length_map.
    destruct (audio_entries input); [done|]. done.
Qed.

(** X12 on the recording that has neither body nor url. *)
Lemma X12_extraction_failure_witness :
  exists trace details,
    transcribeVcon Sample.env Sample.clock Sample.emptyRecordingVcon None
    = (trace, Returned (TranscriptionFailure no_extraction_message (Some details)))
    /\ List.map detail_path details = ["dialog[0]"].
Proof.
  destruct (X12_extraction_failure Sample.env Sample.clock Sample.emptyRecordingVcon None)
    as (trace & details & Hrun & Hpaths & _).
  - eexists. vm_compute. reflexivity.
  - reflexivity.
  - vm_compute. discriminate.
  - intros entry Hin. apply list_elem_of_In in Hin.
    vm_compute in Hin. destruct Hin as [<-|[]]. reflexivity.
  - exists trace, details. split; [exact Hrun|exact Hpaths].
Defined.

(** The audios handed on, in terms of the dialogs they come from. *)
Lemma extracted_audios_dialogs {K} env input (key : ExtractedAudio -> K)
    (pos : nat * Dialog -> K) :
  (forall entry audio, extraction_of env entry = Some audio -> key audio = pos entry) ->
  List.map key (extracted_audios env input)
  = List.map pos (extracted_dialogs env (default [] (raw_dialog input))).
Proof.
  intros Hkey. unfold extracted_audios, extracted_dialogs, audio_entries.
  rewrite (filter_agree (fun '(_, dialog) => extracts env dialog)
             (fun entry => extracts env (snd entry))) by (by intros [? ?] _).
  apply omap_index_filter.
  - intros entry audio Hx. split; [by apply Hkey|].
    by apply extraction_of_index in Hx as (_ & _ & He & _).
  - intros [index dialog] Hx. unfold extraction_of, extracts in *. cbn [snd].
    destruct (isAudioDialog dialog) eqn:Ha.
    + destruct (extractAudioFromDialog env dialog) as [t [[[b m]|]|e]]; try done.
      by destruct (Js.gt _ _).
    + unfold extractAudioFromDialog. by rewrite Ha.
Qed.



Lemma filter_app_all {A} (p : A -> bool) (l1 l2 : list A) :
  (forall x, x ∈ l1 -> p x = false) -> (forall x, x ∈ l2 -> p x = true) ->
  List.filter p (l1 ++ l2) = l2.
Proof.
  intros H1 H2. rewrite List.filter_app, (proj2 (filter_nil_iff p l1) H1). cbn.
  induction l2 as [|x l2 IH]; [done|]. cbn.
  rewrite (H2 x (list_elem_of_here _ _)), IH; [done|].
  intros y Hy. apply H2. by apply list_elem_of_further.
Qed.

(** X14.  The order of a successful run: first [extractAudioFromDialog] is
    called for every audio-bearing dialog in document order, each call
    followed by at most the one request for the dialog's url; then the
    provider is called once per dialog whose audio was extracted, in
    document order, with the dialog's media type; then each of these
    dialogs is enriched, in the same order.  No provider call precedes the
    end of extraction and no enrichment precedes the last provider call. *)
Theorem X14_stage_order env clock input options trace out stats :
  transcribeVcon env clock input options
  = (trace, Returned (TranscriptionSuccess out stats)) ->
  let done := extracted_dialogs env (default [] (raw_dialog input)) in
  exists fetches,
    trace
    = fetches
      ++ List.map (fun entry => EvTranscribe (provider_of env options)
                                  (default EmptyString (d_mediatype (snd entry)))) done
      ++ List.map (fun entry => EvEnrich (fst entry)) done
    /\ fetches = concat (List.map (extraction_trace_of env) (audio_entries input))
    /\ (forall entry, entry ∈ audio_entries input ->
          extraction_trace_of env entry = [EvExtract (fst entry)]
          \/ exists url, d_url (snd entry) = Some url
               /\ extraction_trace_of env entry = [EvExtract (fst entry); EvHttpGet url])
    /\ List.filter is_backend_event fetches = [].
Proof.
  intros Hrun done.
  destruct (isConfigured (selected_provider env options)) eqn:Hconf.
  2:{ by rewrite (transcribeVcon_unconfigured _ _ _ _ Hconf) in Hrun. }
  destruct (VconSchema_safeParse env input) as [issues|data] eqn:Hparse.
  { by rewrite (transcribeVcon_invalid _ _ _ _ _ Hconf Hparse) in Hrun. }
  rewrite (transcribeVcon_run _ _ _ _ _ Hconf Hparse) in Hrun.
  destruct (length (audio_entries input) =? 0)%nat; [done|].
  destruct (length (extracted_audios env input) =? 0)%nat eqn:Hlen; [done|].
  destruct (all_outcomes _) as [results|e]; [|done].
  cbv zeta in Hrun. injection Hrun as <- _ _.
  exists (extraction_events env input). split_and!.
  - f_equal. unfold transcribe_events, enrich_events, done. f_equal.
    + apply (extracted_audios_dialogs env input
               (fun audio => EvTranscribe (provider_of env options) (ea_mediatype audio))).
      intros entry audio Hx.
      apply extraction_of_index in Hx as (_ & _ & _ & Hm & _). by rewrite Hm.
    + apply (extracted_audios_dialogs env input
               (fun audio => EvEnrich (ea_dialogIndex audio))).
      intros entry audio Hx.
      apply extraction_of_index in Hx as (Hi & _). by rewrite Hi.
  - done.
  - intros [index dialog] Hin. unfold extraction_trace_of. cbn [fst snd].
    pose proof (audio_dialogs_audio (default [] (raw_dialog input)) (index, dialog)
                  (proj1 (list_elem_of_In _ _) Hin)) as Ha.
    cbn [snd] in Ha. rewrite Ha.
    destruct (extractAudioFromDialog_trace env dialog) as [->|(url & Hurl & ->)];
      [by left|right; eauto].
  - apply filter_nil_iff, extraction_events_not_backend.
Qed.

(** X14 on the valid document of the integration tests: the recording at
    position 1 is fetched, sent to the provider and enriched, in this
    order. *)
Lemma X14_stage_order_witness :
  exists out stats,
    transcribeVcon Sample.env Sample.clock Sample.validVcon None
    = ([EvExtract 1; EvTranscribe nvidia "audio/wav"; EvEnrich 1],
       Returned (TranscriptionSuccess out stats)).
Proof.
  assert (exists trace out stats,
            transcribeVcon Sample.env Sample.clock Sample.validVcon None
            = (trace, Returned (TranscriptionSuccess out stats))) as (trace & out & stats & Hrun).
  { eexists _, _, _. vm_compute. reflexivity. }
  destruct (X14_stage_order _ _ _ _ _ _ _ Hrun) as (fetches & Htrace & Hfetches & _).
  exists out, stats. rewrite Hrun. f_equal. rewrite Htrace, Hfetches.
  vm_compute. reflexivity.
Defined.

(** X15.  [transcribeVcon] throws only when a call of the selected
    provider throws, for the audio of one of the dialogs that were
    extracted; by then every audio-bearing dialog has been through
    extraction and every request has been dispatched, nothing is enriched,
    and the route passes the exception on.  Conversely, with the provider
    configured and the document valid, a throwing provider call makes the
    run throw. *)
Theorem X15_backend_exception env clock input options :
  (forall trace e,
     transcribeVcon env clock input options = (trace, Thrown e) ->
     (exists audio,
        audio ∈ extracted_audios env input
        /\ transcribe (selected_provider env options) (transcribe_request options audio)
           = Thrown e)
     /\ trace = extraction_events env input ++ transcribe_events env options input
     /\ List.filter is_enrich_event trace = []
     /\ (forall query, options = Some (query_options query) ->
           transcribeRoute env clock input query = (trace, Thrown e)))
  /\ (forall audio e,
        isConfigured (selected_provider env options) = true ->
        valid env input ->
        audio ∈ extracted_audios env input ->
        transcribe (selected_provider env options) (transcribe_request options audio)
        = Thrown e ->
        exists trace e', transcribeVcon env clock input options = (trace, Thrown e')).
Proof.
  split.
  - intros trace e Hrun.
    destruct (isConfigured (selected_provider env options)) eqn:Hconf.
    2:{ by rewrite (transcribeVcon_unconfigured _ _ _ _ Hconf) in Hrun. }
    destruct (VconSchema_safeParse env input) as [issues|data] eqn:Hparse.
    { by rewrite (transcribeVcon_invalid _ _ _ _ _ Hconf Hparse) in Hrun. }
    pose proof Hrun as Hrun'.
    rewrite (transcribeVcon_run _ _ _ _ _ Hconf Hparse) in Hrun.
    destruct (length (audio_entries input) =? 0)%nat; [done|].
    destruct (length (extracted_audios env input) =? 0)%nat eqn:Hlen; [done|].
    destruct (all_outcomes _) as [results|e'] eqn:Hall; [done|].
    injection Hrun as <- <-.
    apply all_outcomes_thrown, list_elem_of_In, in_map_iff in Hall as (audio & Ha & Hin).
    split_and!.
    + exists audio. split; [by apply list_elem_of_In|done].
    + done.
    + apply filter_nil_iff. intros ev [Hev|Hev]%elem_of_app.
      * apply extraction_events_not_backend in Hev. by destruct ev.
      * unfold transcribe_events in Hev.
        by apply list_elem_of_In, in_map_iff in Hev as (a & <- & _).
    + intros query ->. unfold transcribeRoute. by rewrite Hrun'.
  - intros audio e Hconf [data Hparse] Hin Hthrown.
    rewrite (transcribeVcon_run _ _ _ _ _ Hconf Hparse).
    assert (extracted_audios env input <> []) as Hne.
    { intros Hnil. rewrite Hnil in Hin. by apply elem_of_nil in Hin. }
    assert (audio_entries input <> []) as Hne'.
    { intros Hnil. apply Hne. unfold extracted_audios. by rewrite Hnil. }
    destruct (audio_entries input) as [|e0 es] eqn:He; [done|]. cbn [length Nat.eqb].
    destruct (extracted_audios env input) as [|a0 audios] eqn:Ha; [done|].
    cbn [length Nat.eqb].
    destruct (all_outcomes_throws
                (List.map (fun audio => transcribe (selected_provider env options)
                                          (transcribe_request options audio))
                          (a0 :: audios)) e) as [e' ->].
    { rewrite <- Hthrown. apply list_elem_of_In.
      apply (in_map (fun audio => transcribe (selected_provider env options)
                                    (transcribe_request options audio))).
      by apply list_elem_of_In. }
    eauto.
Qed.

(** X15 on the FLAC recording and the backend that answers it with an
    error. *)
Lemma X15_backend_exception_witness :
  exists trace e,
    transcribeVcon Sample.flaky_env Sample.clock Sample.flacVcon None = (trace, Thrown e).
Proof.
  refine (proj2 (X15_backend_exception Sample.flaky_env Sample.clock Sample.flacVcon None)
            {| ea_dialogIndex := 0;
               ea_buffer := decodeBase64Url Sample.flaky_env "dGVzdA";
               ea_mediatype := "audio/flac";
               ea_duration := None |}
            (Error "NVIDIA NIM returned 500: internal error") _ _ _ _).
  - reflexivity.
  - eexists. vm_compute. reflexivity.
  - vm_compute. apply list_elem_of_here.
  - reflexivity.
Defined.

Lemma provider_name_inj p q : provider_name p = provider_name q -> p = q.
Proof. destruct p, q; cbn; intros H; try reflexivity; discriminate. Qed.

Lemma Promise_all_thrown {A} (ps : list (Run A)) i t e :
  ps !! i = Some (t, Thrown e) -> exists e', snd (Promise_all ps) = Thrown e'.
Proof.
  intros Hi. unfold Promise_all. cbn [snd].
  apply (all_outcomes_throws _ e), list_elem_of_In, in_map_iff.
  exists (t, Thrown e). split; [done|]. apply list_elem_of_In.
  by apply list_elem_of_lookup_2 in Hi.
Qed.

(** X16.  The batch route is all or nothing, and its summary names the
    provider of the query, not the one that ran.  If the pipeline run of
    one document throws, the handler throws and no result is reported for
    any document.  When it replies, [total] is the number of results, and
    the [provider] of the summary is the query's provider, or "nvidia" when
    the query has none; it is the name of the provider that handled the
    documents exactly when the query names a provider or the configured
    default is nvidia. *)
Theorem X16_batch_summary env clocks vcons query :
  let options := query_options query in
  (forall i vcon trace e,
     vcons !! i = Some vcon ->
     transcribeVcon env (clocks i) vcon (Some options) = (trace, Thrown e) ->
     exists e', snd (transcribeBatchRoute env clocks vcons query) = Thrown e')
  /\ (forall trace reply,
        transcribeBatchRoute env clocks vcons query = (trace, Returned reply) ->
        total (summary reply) = length (results reply)
        /\ summary_provider (summary reply)
           = provider_name (default nvidia (qs_provider query))
        /\ (summary_provider (summary reply)
            = provider_name (provider_of env (Some options))
            <-> qs_provider query <> None \/ config_asrProvider env = nvidia)).
Proof.
  intros options. split.
  - intros i vcon trace e Hi Hrun. unfold transcribeBatchRoute. cbv zeta.
    destruct (Promise_all_thrown
                (imap (fun i vcon => batch_item env (clocks i) options vcon) vcons)
                i trace e) as [e' He'].
    { rewrite list_lookup_imap, Hi. cbn. unfold batch_item. by rewrite Hrun. }
    exists e'. destruct (Promise_all _) as [t o]. cbn [snd] in He'. by subst o.
  - intros trace reply. unfold transcribeBatchRoute. cbv zeta.
    destruct (Promise_all _) as [t [items|e]]; [|done]. intros [= _ <-].
    cbn [summary total results summary_provider query_options to_provider].
    split_and!; [done|done|]. unfold provider_of. cbn.
    destruct (qs_provider query) as [p|]; cbn.
    + split; [intros _; by left|done].
    + split.
      * intros H. right. symmetry. by apply provider_name_inj.
      * intros [?| ->]; done.
Qed.

(** X16 on a batch of two documents, the second of which the backend
    rejects. *)
Lemma X16_batch_summary_witness :
  exists e,
    snd (transcribeBatchRoute Sample.flaky_env (fun _ => Sample.clock)
           [Sample.validVcon; Sample.flacVcon] (Sample.query None))
    = Thrown e.
Proof.
  refine (proj1 (X16_batch_summary Sample.flaky_env (fun _ => Sample.clock)
                   [Sample.validVcon; Sample.flacVcon] (Sample.query None))
            1 Sample.flacVcon _ _ eq_refl _).
  vm_compute. reflexivity.
Defined.

(* ================================================================== *)
(** * Provider responses seen through the enrichment *)
(* ================================================================== *)

(** Identifiers selected from a word list whose identifiers are positions
    lead back to the selected words. *)
Lemma lookup_selected (P : WtfWord -> bool) (words : list WtfWord) :
  (forall j w, words !! j = Some w -> ww_id w = j) ->
  omap (fun k => words !! k) (List.map ww_id (List.filter P words))
  = List.filter P words.
Proof.
  intros Hid.
  assert (forall l : list WtfWord,
            (forall w, w ∈ l -> w ∈ words) ->
            omap (fun k => words !! k) (List.map ww_id l) = l) as Hsub.
  { induction l as [|w l IH]; intros Hl; [done|]. cbn.
    destruct (proj1 (list_elem_of_lookup _ _) (Hl w (list_elem_of_here _ _))) as [j Hj].
    rewrite (Hid _ _ Hj), Hj. cbn. f_equal. apply IH.
    intros w' Hw'. apply Hl. by apply list_elem_of_further. }
  apply Hsub. intros w Hw. apply list_elem_of_In, filter_In in Hw as [Hw _].
  by apply list_elem_of_In.
Qed.

Lemma omap_fmap_lookup {A B} (f : A -> B) (words : list A) (l : list nat) :
  omap (fun k => f <$> words !! k) l = f <$> omap (fun k => words !! k) l.
Proof.
  induction l as [|k l IH]; [done|]. cbn [omap list_omap].
  fold (omap (fun k => f <$> words !! k) l). fold (omap (fun k => words !! k) l).
  rewrite IH. by destruct (words !! k).
Qed.

Lemma filter_imap_agree {A B} (f : nat -> A -> B) (P : B -> bool) (Q : A -> bool)
    (g : B -> string) (h : A -> string) (l : list A) :
  (forall i a, P (f i a) = Q a) -> (forall i a, g (f i a) = h a) ->
  List.map g (List.filter P (imap f l)) = List.map h (List.filter Q l).
Proof.
  intros HP Hg. revert f HP Hg. induction l as [|a l IH]; intros f HP Hg; [done|].
  cbn [imap List.filter]. rewrite HP.
  destruct (Q a); cbn [List.map]; rewrite ?Hg; [f_equal|];
    (apply IH; intros i' a'; [apply HP|apply Hg]).
Qed.

Lemma tagged_words_none (segs : list AsrSegment) :
  (forall seg, seg ∈ segs -> as_words seg = None) -> tagged_words segs = [].
Proof.
  unfold tagged_words. induction segs as [|seg segs IH]; intros H; [done|].
  cbn. rewrite (H seg (list_elem_of_here _ _)). cbn. apply IH.
  intros s Hs. apply H. by apply list_elem_of_further.
Qed.

Lemma whisper_nested seg (gws : list Groq.GroqWord) :
  List.map aw_word
    (List.filter (fun w => Js.ge (aw_start w) (Groq.gs_start seg)
                           && Js.le (aw_end w) (Groq.gs_end seg))
       (List.map (fun w => {| aw_word := Groq.gw_word w;
                              aw_start := Groq.gw_start w;
                              aw_end := Groq.gw_end w;
                              aw_confidence := 0.95%float |}) gws))
  = List.map Groq.gw_word (List.filter (whisper_within seg) gws).
Proof.
  induction gws as [|w gws IH]; [done|]. cbn [List.map List.filter].
  cbn [aw_start aw_end]. fold (whisper_within seg w).
  destruct (whisper_within seg w); cbn [List.map aw_word]; by rewrite IH.
Qed.

Lemma confident_words {A} (f : nat -> A -> WtfWord) (l : list A) :
  (forall i w, ww_confidence (f i w) = 0.95%float) ->
  length (List.filter (fun w => Js.lt (ww_confidence w) 0.7%float) (imap f l)) = 0.
Proof.
  revert f. induction l as [|w l IH]; intros f Hf; [done|].
  cbn [imap List.filter]. rewrite Hf.
  change (Js.lt 0.95%float 0.7%float) with false. cbv iota.
  apply IH. intros i' w'. apply Hf.
Qed.

(** The words the enrichment builds from a Whisper response. *)
Lemma whisper_words Math_exp model response pt :
  build_words (Groq.transformResponse Math_exp model response pt)
  = imap whisper_word (default [] (Groq.gr_words response)).
Proof.
  destruct (Groq.gr_words response) as [gws|] eqn:Hw.
  - rewrite (build_words_top _ (List.map (fun w => {| aw_word := Groq.gw_word w;
                                                     aw_start := Groq.gw_start w;
                                                     aw_end := Groq.gw_end w;
                                                     aw_confidence := 0.95%float |}) gws)).
    + by rewrite imap_map.
    + cbn [Groq.transformResponse ar_words]. unfold Groq.transform_words. by rewrite Hw.
  - rewrite build_words_nested.
    + rewrite tagged_words_none; [done|]. intros seg Hseg.
      cbn [Groq.transformResponse ar_segments] in Hseg.
      apply list_elem_of_In, in_map_iff in Hseg as (gs & <- & _).
      unfold Groq.transform_segment, Groq.transform_words. by rewrite Hw.
    + cbn [Groq.transformResponse ar_words]. unfold Groq.transform_words. by rewrite Hw.
Qed.

(** X17.  Enrichment of a result translated from a verbose Whisper response
    of Groq: the record's words are the response's words in order, with
    identifiers 0, 1, 2, ..., confidence 0.95 and no speaker; there is no
    speaker map and no word counts as low-confidence; and the word list of
    each segment names exactly the words that the translation nested in
    that segment, in order: both select by containment of the word's
    interval in the segment's. *)
Theorem X17_whisper_enrichment Math_exp model response pt now input :
  ei_transcription input = Groq.transformResponse Math_exp model response pt ->
  let out := createWtfTranscription now input in
  words_of out = imap whisper_word (default [] (Groq.gr_words response))
  /\ wtf_speakers out = None
  /\ (exists q, wtf_quality out = Some q
                /\ q_multiple_speakers q = false
                /\ q_low_confidence_words q = 0)
  /\ (forall i seg,
        default [] (Groq.gr_segments response) !! i = Some seg ->
        exists ws aseg,
          wtf_segments out !! i = Some ws
          /\ ar_segments (ei_transcription input) !! i = Some aseg
          /\ ws_id ws = i /\ ws_speaker ws = None
          /\ ws_text ws = Js.trim (Groq.gs_text seg)
          /\ omap (fun k => ww_text <$> words_of out !! k) (default [] (ws_words ws))
             = List.map Groq.gw_word
                 (List.filter (whisper_within seg) (default [] (Groq.gr_words response)))
          /\ (forall aws, as_words aseg = Some aws ->
                List.map aw_word aws
                = omap (fun k => ww_text <$> words_of out !! k)
                       (default [] (ws_words ws)))).
Proof.
  intros Ht out.
  assert (words_of out = imap whisper_word (default [] (Groq.gr_words response)))
    as Hwords.
  { unfold out. by rewrite words_of_create, Ht, whisper_words. }
  assert (forall wseg, wseg ∈ wtf_segments out -> ws_speaker wseg = None) as Hnone.
  { intros wseg Hin. unfold out in Hin. rewrite segments_of_create in Hin.
    destruct (built_speaker _ _ _ Hin) as (aseg & Haseg & ->).
    rewrite Ht in Haseg. cbn [Groq.transformResponse ar_segments] in Haseg.
    by apply list_elem_of_In, in_map_iff in Haseg as (gs & <- & _). }
  assert (speakers_of out = ∅) as Hspeakers.
  { apply map_empty. intros key. unfold out.
    rewrite speakers_of_create, build_speakers_lookup.
    rewrite <- (segments_of_create now input). fold out.
    rewrite (proj2 (filter_nil_iff (speaks key) (wtf_segments out))); [done|].
    intros wseg Hin. unfold speaks. by rewrite (Hnone wseg Hin). }
  assert (build_speakers (build_segments (build_words (ei_transcription input))
                            (ar_segments (ei_transcription input))) = ∅) as Hbuilt.
  { rewrite <- Hspeakers. unfold out. by rewrite speakers_of_create. }
  split_and!.
  - done.
  - unfold out, createWtfTranscription. cbn [wtf_speakers]. by rewrite Hbuilt.
  - eexists. split; [reflexivity|]. cbn [build_quality q_multiple_speakers
                                           q_low_confidence_words].
    rewrite Hbuilt. split; [done|].
    rewrite <- (words_of_create now input). fold out. rewrite Hwords.
    by apply confident_words.
  - intros i seg Hseg.
    set (aseg := Groq.transform_segment Math_exp (Groq.transform_words response) seg).
    assert (ar_segments (ei_transcription input) !! i = Some aseg) as Haseg.
    { rewrite Ht. cbn [Groq.transformResponse ar_segments].
      change (List.map ?f ?l) with (f <$> l). by rewrite list_lookup_fmap, Hseg. }
    exists (build_segment (build_words (ei_transcription input)) i aseg), aseg.
    assert (omap (fun k => ww_text <$> words_of out !! k)
              (default [] (ws_words (build_segment (build_words (ei_transcription input))
                                       i aseg)))
            = List.map Groq.gw_word
                (List.filter (whisper_within seg)
                   (default [] (Groq.gr_words response)))) as Hsel.
    { rewrite build_segment_words.
      rewrite <- (words_of_create now input). fold out.
      transitivity (ww_text <$> omap (fun k => words_of out !! k)
                      (List.map ww_id (List.filter (within aseg) (words_of out)))).
      { apply omap_fmap_lookup. }
      rewrite lookup_selected.
      2:{ intros j w. unfold out. rewrite words_of_create. apply build_words_id. }
      rewrite Hwords. by apply filter_imap_agree. }
    split_and!.
    + unfold out. rewrite segments_of_create. by apply build_segments_lookup.
    + done.
    + done.
    + done.
    + done.
    + exact Hsel.
    + intros aws Haws. rewrite Hsel. unfold aseg, Groq.transform_segment in Haws.
      cbn [as_words] in Haws. unfold Groq.transform_words in Haws.
      destruct (Groq.gr_words response) as [gws|]; [|done].
      cbn [option_map] in Haws. injection Haws as <-. cbn [default].
      apply whisper_nested.
Qed.

(** X17 on a verbose response with two segments and three words. *)
Lemma X17_whisper_enrichment_witness :
  let t := Groq.transformResponse SampleWhisper.exp "whisper-large-v3"
             SampleWhisper.response 300%float in
  List.map ww_text (words_of (createWtfTranscription "t" (Sample.enrichment t)))
  = ["Hello"; "there."; "Bye."].
Proof.
  intros t.
  rewrite (proj1 (X17_whisper_enrichment SampleWhisper.exp "whisper-large-v3"
                    SampleWhisper.response 300%float "t" (Sample.enrichment t) eq_refl)).
  reflexivity.
Defined.

Lemma flatten_words_map {A} (f : A -> AsrSegment) (g : A -> list AsrWord) (l : list A) :
  (forall x, default [] (as_words (f x)) = g x) ->
  flatten_words (List.map f l) = concat (List.map g l).
Proof.
  intros Hg. unfold flatten_words, tagged_words.
  induction l as [|x l IH]; [done|]. cbn [List.map concat].
  rewrite List.map_app, IH, List.map_map. cbn [snd]. f_equal.
  rewrite <- (Hg x). by rewrite List.map_id.
Qed.

Lemma concat_map_map {A B C} (f : B -> C) (g : A -> list B) (l : list A) :
  concat (List.map (fun x => List.map f (g x)) l) = List.map f (concat (List.map g l)).
Proof.
  induction l as [|x l IH]; [done|]. cbn. by rewrite IH, List.map_app.
Qed.

(** The provider words the enrichment reads from a translated NIM response. *)
Lemma nim_source model nim pt :
  let t := Nvidia.transformResponse model nim pt in
  default (flatten_words (ar_segments t)) (ar_words t)
  = List.map Nvidia.transform_word (nim_words nim).
Proof.
  cbv zeta. unfold nim_words. cbn [Nvidia.transformResponse ar_words ar_segments].
  destruct (Nvidia.nr_words nim) as [ws|]; [done|]. cbn [option_map default].
  rewrite (flatten_words_map _
             (fun seg => List.map Nvidia.transform_word (default [] (Nvidia.ns_words seg)))).
  - apply concat_map_map.
  - intros seg. cbn [as_words]. by destruct (Nvidia.ns_words seg).
Qed.

Lemma build_words_fields t :
  let source := default (flatten_words (ar_segments t)) (ar_words t) in
  List.map ww_text (build_words t) = List.map aw_word source
  /\ List.map ww_start (build_words t) = List.map aw_start source
  /\ List.map ww_end (build_words t) = List.map aw_end source
  /\ List.map ww_confidence (build_words t) = List.map aw_confidence source.
Proof.
  cbv zeta. destruct (ar_words t) as [ws|] eqn:Hw; cbn [default].
  - rewrite (build_words_top _ _ Hw), !map_imap_list. cbn [word_at ww_text ww_start
      ww_end ww_confidence]. by rewrite !imap_const_map.
  - rewrite (build_words_nested _ Hw), !map_imap_list. cbn [word_at ww_text ww_start
      ww_end ww_confidence]. unfold flatten_words.
    by rewrite !imap_const_map, !List.map_map.
Qed.

(** X18.  Enrichment of a result translated from a NIM response: every
    segment of the response gives the segment at the same position, with
    its text, times, confidence and the number read from its speaker
    label; and the words of the record are the response's words (the
    top-level ones if present, else the nested ones segment by segment),
    none lost, added or reordered, each with its text, times and
    confidence. *)
Theorem X18_nim_enrichment model nim pt now input :
  ei_transcription input = Nvidia.transformResponse model nim pt ->
  let out := createWtfTranscription now input in
  length (wtf_segments out) = length (default [] (Nvidia.nr_segments nim))
  /\ (forall i seg,
        default [] (Nvidia.nr_segments nim) !! i = Some seg ->
        exists ws,
          wtf_segments out !! i = Some ws
          /\ ws_id ws = i
          /\ ws_text ws = Nvidia.ns_text seg
          /\ ws_start ws = Nvidia.ns_start_time seg
          /\ ws_end ws = Nvidia.ns_end_time seg
          /\ ws_confidence ws = Nvidia.ns_confidence seg
          /\ ws_speaker ws = speaker_number (Nvidia.ns_speaker seg))
  /\ List.map ww_text (words_of out) = List.map Nvidia.nw_word (nim_words nim)
  /\ List.map ww_start (words_of out) = List.map Nvidia.nw_start_time (nim_words nim)
  /\ List.map ww_end (words_of out) = List.map Nvidia.nw_end_time (nim_words nim)
  /\ List.map ww_confidence (words_of out)
     = List.map Nvidia.nw_confidence (nim_words nim).
Proof.
  intros Ht out. unfold out. rewrite words_of_create, segments_of_create.
  destruct (build_words_fields (ei_transcription input)) as (H1 & H2 & H3 & H4).
  rewrite H1, H2, H3, H4, Ht, nim_source, !List.map_map.
  split_and!; try done.
  - unfold build_segments. rewrite length_imap.
    cbn [Nvidia.transformResponse ar_segments]. by rewrite length_map.
  - intros i seg Hseg. eexists. split.
    + apply build_segments_lookup. cbn [Nvidia.transformResponse ar_segments].
      change (List.map ?f ?l) with (f <$> l). by rewrite list_lookup_fmap, Hseg.
    + done.
Qed.

(** X18 on a response whose two words are nested in its segment. *)
Lemma X18_nim_enrichment_witness :
  let t := Nvidia.transformResponse "parakeet-tdt-1.1b" SampleNim.response 300%float in
  List.map ww_text (words_of (createWtfTranscription "t" (Sample.enrichment t)))
  = ["Hello"; "world"].
Proof.
  intros t.
  destruct (X18_nim_enrichment "parakeet-tdt-1.1b" SampleNim.response 300%float "t"
              (Sample.enrichment t) eq_refl) as (_ & _ & Htext & _).
  exact Htext.
Defined.

(* ================================================================== *)
(** * The provider factory *)
(* ================================================================== *)

Lemma getProvider_cached_consistent env provider providers :
  cache_consistent env providers ->
  fst (getProvider_cached env provider providers) = getProvider env provider
  /\ cache_consistent env (snd (getProvider_cached env provider providers)).
Proof.
  intros Hc. unfold getProvider_cached, getProvider. cbv zeta.
  destruct (providers !! default (config_asrProvider env) provider) as [instance|] eqn:Hk.
  - split; [by apply Hc|done].
  - split; [done|]. intros name instance. cbn [snd].
    destruct (decide (name = default (config_asrProvider env) provider)) as [->|Hne].
    + rewrite lookup_insert_eq. by intros [= <-].
    + rewrite lookup_insert_ne by done. apply Hc.
Qed.

Lemma loaded_cache_consistent env : cache_consistent env (loaded_cache env).
Proof. apply getProvider_cached_consistent. intros name instance. by rewrite lookup_empty. Qed.

Lemma factory_run_consistent env calls providers :
  cache_consistent env providers ->
  fst (factory_run env calls providers) = List.map (getProvider env) (requested calls)
  /\ cache_consistent env (snd (factory_run env calls providers)).
Proof.
  revert providers. induction calls as [|[provider|] calls IH]; intros providers Hc.
  - done.
  - cbn [factory_run requested omap list_omap List.map].
    destruct (getProvider_cached_consistent env provider providers Hc) as [Hget Hc'].
    destruct (getProvider_cached env provider providers) as [instance providers'].
    cbn [fst snd] in Hget, Hc'. destruct (IH providers' Hc') as [Hrun Hc''].
    destruct (factory_run env calls providers') as [instances providers''].
    cbn [fst snd] in *. split; [|done]. by rewrite Hget, Hrun.
  - cbn [factory_run requested omap list_omap]. apply IH.
    intros name instance. unfold clearProviderCache. by rewrite lookup_empty.
Qed.

Lemma factory_run_cleared env calls providers :
  snd (factory_run env (calls ++ [CallClear]) providers) = ∅.
Proof.
  revert providers. induction calls as [|[provider|] calls IH]; intros providers.
  - done.
  - cbn [app factory_run].
    destruct (getProvider_cached env provider providers) as [instance providers'].
    specialize (IH providers').
    by destruct (factory_run env (calls ++ [CallClear]) providers').
  - cbn [app factory_run]. apply IH.
Qed.

(** X19.  The cache of [getProvider] is transparent.  From the map the
    module starts with, whatever calls of [getProvider] and
    [clearProviderCache] are made, every call of [getProvider] hands out the
    instance [createProvider] builds for the requested name (the configured
    default when none is given), every cached instance stays the one of its
    name, a repeated request leaves the map as it is, and the map is empty
    right after [clearProviderCache]. *)
Theorem X19_provider_cache env calls :
  let run := factory_run env calls (loaded_cache env) in
  fst run = List.map (fun provider =>
                        createProvider env (default (config_asrProvider env) provider))
                     (requested calls)
  /\ cache_consistent env (snd run)
  /\ (forall provider,
        let after := snd (getProvider_cached env provider (snd run)) in
        after !! default (config_asrProvider env) provider
        = Some (createProvider env (default (config_asrProvider env) provider))
        /\ getProvider_cached env provider after
           = (createProvider env (default (config_asrProvider env) provider), after))
  /\ loaded_cache env !! config_asrProvider env
     = Some (createProvider env (config_asrProvider env))
  /\ snd (factory_run env (calls ++ [CallClear]) (loaded_cache env)) = ∅.
Proof.
  intros run.
  destruct (factory_run_consistent env calls (loaded_cache env)
              (loaded_cache_consistent env)) as [Hrun Hc].
  fold run in Hrun, Hc. split_and!.
  - done.
  - done.
  - intros provider after.
    assert (after !! default (config_asrProvider env) provider
            = Some (createProvider env (default (config_asrProvider env) provider)))
      as Hafter.
    { unfold after, getProvider_cached. cbv zeta.
      destruct (snd run !! default (config_asrProvider env) provider) as [instance|] eqn:Hk;
        cbn [snd].
      - rewrite Hk. f_equal. by apply Hc.
      - by rewrite lookup_insert_eq. }
    split; [done|]. unfold getProvider_cached at 1. cbv zeta. by rewrite Hafter.
  - unfold loaded_cache, getProvider_cached. cbv zeta. rewrite lookup_empty.
    cbn [snd default]. apply lookup_insert_eq.
  - apply factory_run_cleared.
Qed.

Lemma allProviders_complete name : name ∈ allProviders.
Proof. unfold allProviders. destruct name; set_solver. Qed.

(** X20.  The two listings of the factory agree with each other and with
    the pipeline: a name is listed by [getConfiguredProviderNames] exactly
    when the instance built for it is configured; the names come in the
    fixed order, without repetition; [getAvailableProviders] is the list of
    the instances of these names; and [transcribeVcon] ends in the
    "not configured" failure exactly when the selected provider is not
    among the listed names. *)
Theorem X20_configured_providers env :
  (forall name, name ∈ getConfiguredProviderNames env
                <-> isConfigured (createProvider env name) = true)
  /\ NoDup (getConfiguredProviderNames env)
  /\ getAvailableProviders env
     = List.map (createProvider env) (getConfiguredProviderNames env)
  /\ (forall clock input options,
        provider_of env options ∉ getConfiguredProviderNames env
        <-> transcribeVcon env clock input options
            = ([], Returned (TranscriptionFailure
                               (not_configured_message (provider_of env options)) None))).
Proof.
  assert (forall name, name ∈ getConfiguredProviderNames env
                       <-> isConfigured (createProvider env name) = true) as Hlisted.
  { intros name. unfold getConfiguredProviderNames.
    rewrite list_elem_of_In, filter_In, <- list_elem_of_In.
    pose proof (allProviders_complete name). tauto. }
  split_and!.
  - done.
  - unfold getConfiguredProviderNames. apply NoDup_ListNoDup, List.NoDup_filter.
    apply NoDup_ListNoDup. unfold allProviders.
    repeat (apply NoDup_cons; split; [set_solver|]). apply NoDup_nil_2.
  - unfold getAvailableProviders, getConfiguredProviderNames.
    induction allProviders as [|name names IH]; [done|]. cbn [List.map List.filter].
    destruct (isConfigured (createProvider env name)); cbn [List.map]; by rewrite IH.
  - intros clock input options. rewrite Hlisted.
    change (createProvider env (provider_of env options))
      with (selected_provider env options).
    destruct (isConfigured (selected_provider env options)) eqn:Hconf.
    + split; [done|]. intros Hrun _.
      destruct (VconSchema_safeParse env input) as [issues|data] eqn:Hparse.
      * rewrite (transcribeVcon_invalid _ _ _ _ _ Hconf Hparse) in Hrun.
        injection Hrun; intros; congruence.
      * rewrite (transcribeVcon_run _ _ _ _ _ Hconf Hparse) in Hrun.
        destruct (length (audio_entries input) =? 0)%nat.
        { injection Hrun; intros; congruence. }
        destruct (length (extracted_audios env input) =? 0)%nat; [done|].
        by destruct (all_outcomes _).
    + split; [|done]. intros _. by apply transcribeVcon_unconfigured.
Qed.

(* ================================================================== *)
(** * Numbers the schema rejects *)
(* ================================================================== *)

(** X21.  A dialog whose duration is below 0 makes [parseVcon] fail with
    "Invalid VCON format", and the details name the member by the dialog's
    position: path [dialog.<i>.duration] with the message of zod's
    [nonnegative] check.  With the selected provider configured,
    [transcribeVcon] returns that failure with the same details before any
    extraction or request, whatever else the document holds, and the route
    answers 400. *)
Theorem X21_negative_duration env clock input options dialogs i dialog duration :
  raw_dialog input = Some dialogs ->
  dialogs !! i = Some dialog ->
  d_duration dialog = Some duration ->
  Js.lt duration 0 = true ->
  exists details,
    parseVcon env input = ParseError "Invalid VCON format" (Some details)
    /\ {| detail_path := String.append "dialog." (String.append (pretty i) ".duration");
          detail_message := zod_message env ZNonnegative |} ∈ details
    /\ (isConfigured (selected_provider env options) = true ->
        transcribeVcon env clock input options
        = ([], Returned (TranscriptionFailure "Invalid VCON format" (Some details)))
        /\ (forall query, options = Some (query_options query) ->
              transcribeRoute env clock input query
              = ([], Returned (ReplyError 400 "Invalid VCON format" (Some details))))).
Proof.
  intros Hdialogs Hi Hduration Hlt.
  destruct (parseVcon_reports env input
              {| issue_path := ["dialog"; pretty i; "duration"];
                 issue_message := zod_message env ZNonnegative |})
    as (details & Hparse & Hin).
  { unfold member_issues. rewrite Hdialogs. cbn [check_opt].
    rewrite !elem_of_app. do 9 right. left.
    apply (check_each_elem _ _ _ i dialog _ Hi). unfold DialogSchema.
    rewrite !elem_of_app. right. left. unfold check_nonnegative.
    rewrite Hduration, (lt_zero_not_ge _ Hlt). apply list_elem_of_here. }
  exists details. split_and!; [done|done|]. intros Hconf.
  destruct (VconSchema_safeParse env input) as [issues|data] eqn:Hschema.
  2:{ by rewrite (parseVcon_valid _ _ _ Hschema) in Hparse. }
  rewrite (parseVcon_invalid _ _ _ Hschema) in Hparse. injection Hparse as <-.
  pose proof (transcribeVcon_invalid env clock input options issues Hconf Hschema)
    as Hrun.
  split; [done|]. intros query ->. unfold transcribeRoute. rewrite Hrun.
  unfold mbind, Run_bind, bind, mret, Run_ret, ret. cbn [app].
  destruct (List.map issue_detail issues) as [|detail rest];
    [by apply elem_of_nil in Hin|done].
Qed.

(** X21 on the recording of the valid document with duration -1. *)
Lemma X21_negative_duration_witness :
  exists details,
    transcribeVcon Sample.env Sample.clock SampleDuration.negativeDurationVcon None
    = ([], Returned (TranscriptionFailure "Invalid VCON format" (Some details)))
    /\ {| detail_path := "dialog.0.duration";
          detail_message := "Number must be greater than or equal to 0" |} ∈ details.
Proof.
  destruct (X21_negative_duration Sample.env Sample.clock
              SampleDuration.negativeDurationVcon None _ 0 _ (-1)%float
              eq_refl eq_refl eq_refl eq_refl)
    as (details & _ & Hin & Hrun).
  exists details. split; [exact (proj1 (Hrun eq_refl))|exact Hin].
Defined.
